(** * Pledge submission of the crowdfunding backend

    A shallow embedding of the [submitPledge] mutation (the module exporting
    [async (_, args, {loaders, pgdb, req, t}) => ...]) together with the part
    of the relational store it talks to.

    Conventions of the embedding:
    - primary keys and generated aliases (uuid strings in the store) are
      natural numbers [uuid]; the code compares them and, in one log line,
      prints one, which shows here as its numeral;
    - amounts, prices and totals are JavaScript numbers holding integers and
      are modelled as [Z] (exact as long as the values stay in the safe
      integer range of a double);
    - the store is a record of tables, each a list of rows in table order;
    - the mutation runs in a state-and-exception monad over a [World] that
      keeps the committed store, the open transaction's working copy, the
      server log and the sequence of transaction events;
    - the store is free to reject any call: the [World] says which of the
      numbered calls (statements and the commit) it rejects and whether it
      refuses the begin or the rollback. A lookup by an empty list of ids
      it always rejects. *)

From Stdlib Require Import ZArith NArith List String Bool Lia DecimalString.
Import ListNotations.

Local Open Scope string_scope.
Local Open Scope Z_scope.

(** ** Data model *)

Definition uuid := N.
Bind Scope N_scope with uuid.

(** An id inside a text, as in [`... ${plo.templateId} ...`]. *)
Definition uuidText (i : uuid) : string :=
  NilZero.string_of_uint (N.to_uint i).

Module PackageOption.
Record t := mk {
  id : uuid;
  packageId : uuid;
  rewardId : option uuid;
  minAmount : Z;
  maxAmount : Z;
  price : Z;
  userPrice : bool;
  minUserPrice : Z
}.
End PackageOption.

Module PledgeOptionInput.
Record t := mk {
  templateId : uuid;
  amount : Z;
  price : Z
}.
End PledgeOptionInput.

Module UserInput.
Record t := mk {
  email : string;
  firstName : string;
  lastName : string;
  birthday : string
}.
End UserInput.

Module PledgeInput.
Record t := mk {
  total : Z;
  reason : option string;
  user : UserInput.t;
  options : list PledgeOptionInput.t
}.
End PledgeInput.

Module User.
Record t := mk {
  id : uuid;
  email : string;
  firstName : option string;
  lastName : option string;
  birthday : option string;
  verified : bool
}.
End User.

Module Pledge.
Record t := mk {
  id : uuid;
  userId : uuid;
  packageId : uuid;
  total : Z;
  donation : Z;
  reason : option string;
  status : string
}.
End Pledge.

Module PledgeOption.
Record t := mk {
  pledgeId : uuid;
  templateId : uuid;
  amount : Z;
  price : Z
}.
End PledgeOption.

Module PaymentSource.
Record t := mk {
  userId : uuid;
  method : string;
  pspId : option uuid
}.
End PaymentSource.

Module Reward.
Record t := mk {
  id : uuid;
  rewardType : string
}.
End Reward.

(** The tables the mutation reads or writes. *)
Record DB := mkDB {
  users : list User.t;
  pledges : list Pledge.t;
  pledgeOptions : list PledgeOption.t;
  packageOptions : list PackageOption.t;
  paymentSources : list PaymentSource.t;
  rewards : list Reward.t
}.

Definition setUsers (us : list User.t) (db : DB) : DB :=
  mkDB us (pledges db) (pledgeOptions db) (packageOptions db)
       (paymentSources db) (rewards db).

Definition setPledges (ps : list Pledge.t) (db : DB) : DB :=
  mkDB (users db) ps (pledgeOptions db) (packageOptions db)
       (paymentSources db) (rewards db).

Definition setPledgeOptions (os : list PledgeOption.t) (db : DB) : DB :=
  mkDB (users db) (pledges db) os (packageOptions db)
       (paymentSources db) (rewards db).

(** ** What the caller and the server observe *)

(** The failure taxonomy: one constructor per [throw] site of the mutation,
    plus the two ways the runtime itself can raise. *)
Inductive Failure :=
| InvalidTemplateReference
| CrossPackageSelection
| AmountOutOfRange
| TotalBelowMinimum
| MissingReductionReason
| IdentityMismatch
| ReducedPledgeAlreadyUsed
| UndefinedDereference
| StoreFailure.

(** The JavaScript value that is thrown. *)
Inductive JsError :=
| Error (message : string)
| TypeError
| ReferenceError (identifier : string)
| StoreError.

Record Thrown := mkThrown {
  cause : Failure;
  value : JsError
}.

Inductive Response :=
| EmailVerify
| Submitted (pledgeId userId : uuid) (pfSHA : string) (pfAliasId : uuid).

Inductive Level := LError | LInfo.

Record LogEntry := mkLog {
  level : Level;
  text : string
}.

Inductive TxEvent := TxBegin | TxCommit | TxRollback.

Record World := mkWorld {
  committed : DB;            (* what [pgdb.public] reads *)
  working : option DB;       (* the open transaction's view, if any *)
  nextId : uuid;             (* source of generated ids *)
  calls : nat;               (* numbered store calls issued so far *)
  failAt : list nat;         (* the numbered store calls that reject *)
  refusesBegin : bool;       (* whether [transactionBegin] is rejected *)
  refusesRollback : bool;    (* whether [transactionRollback] is rejected *)
  logs : list LogEntry;
  trace : list TxEvent
}.

Definition setCommitted (db : DB) (w : World) : World :=
  mkWorld db (working w) (nextId w) (calls w) (failAt w)
          (refusesBegin w) (refusesRollback w) (logs w) (trace w).

Definition setWorking (o : option DB) (w : World) : World :=
  mkWorld (committed w) o (nextId w) (calls w) (failAt w)
          (refusesBegin w) (refusesRollback w) (logs w) (trace w).

Definition tick (w : World) : World :=
  mkWorld (committed w) (working w) (nextId w) (S (calls w)) (failAt w)
          (refusesBegin w) (refusesRollback w) (logs w) (trace w).

Definition addLog (e : LogEntry) (w : World) : World :=
  mkWorld (committed w) (working w) (nextId w) (calls w) (failAt w)
          (refusesBegin w) (refusesRollback w) (logs w ++ [e]) (trace w).

Definition addEvent (e : TxEvent) (w : World) : World :=
  mkWorld (committed w) (working w) (nextId w) (calls w) (failAt w)
          (refusesBegin w) (refusesRollback w) (logs w) (trace w ++ [e]).

Definition bumpId (w : World) : World :=
  mkWorld (committed w) (working w) (N.succ (nextId w)) (calls w) (failAt w)
          (refusesBegin w) (refusesRollback w) (logs w) (trace w).

(** ** The monad of the mutation body *)

Inductive Outcome (A : Type) :=
| Val (a : A)            (* the statement completed with a value *)
| Ret (r : Response)     (* a [return] left the function *)
| Exn (e : Thrown).      (* a [throw] is propagating *)

Arguments Val {A} a.
Arguments Ret {A} r.
Arguments Exn {A} e.

Definition M (A : Type) := World -> Outcome A * World.

Definition ret {A} (a : A) : M A := fun w => (Val a, w).

Definition bind {A B} (m : M A) (f : A -> M B) : M B :=
  fun w =>
    match m w with
    | (Val a, w') => f a w'
    | (Ret r, w') => (Ret r, w')
    | (Exn e, w') => (Exn e, w')
    end.

Declare Scope js_scope.
Delimit Scope js_scope with js.
Notation "x <- m ;; k" := (bind m (fun x => k))
  (at level 61, m at next level, right associativity) : js_scope.
Notation "m ;; k" := (bind m (fun _ => k))
  (at level 61, right associativity) : js_scope.
Local Open Scope js_scope.

Definition throw {A} (c : Failure) (v : JsError) : M A :=
  fun w => (Exn (mkThrown c v), w).

Definition returnWith {A} (r : Response) : M A := fun w => (Ret r, w).

(** [throw e] of a value caught before. *)
Definition rethrow {A} (e : Thrown) : M A := fun w => (Exn e, w).

Definition logger (l : Level) (s : string) : M unit :=
  fun w => (Val tt, addLog (mkLog l s) w).

(** Reading a property of a value that may be [undefined]. *)
Definition deref {A} (o : option A) : M A :=
  match o with
  | Some a => ret a
  | None => throw UndefinedDereference TypeError
  end.

(** [uuid()] and the store's id default. *)
Definition genId : M uuid := fun w => (Val (nextId w), bumpId w).

(** ** The store *)

Definition rejects (w : World) : bool :=
  existsb (Nat.eqb (calls w)) (failAt w).

(** A call on the transaction's connection: it sees and changes the working
    copy. A rejected call throws and leaves the working copy alone. *)
Definition query {A} (q : DB -> A * DB) : M A :=
  fun w =>
    match working w with
    | None => (Exn (mkThrown StoreFailure StoreError), tick w)
    | Some db =>
        if rejects w then (Exn (mkThrown StoreFailure StoreError), tick w)
        else let (a, db') := q db in (Val a, tick (setWorking (Some db') w))
    end.

(** A call on the pool ([pgdb.public]): it sees committed rows only. *)
Definition poolQuery {A} (q : DB -> A) : M A :=
  fun w =>
    if rejects w then (Exn (mkThrown StoreFailure StoreError), tick w)
    else (Val (q (committed w)), tick w).

Definition readOnly {A} (q : DB -> A) : DB -> A * DB := fun db => (q db, db).

(** A lookup by a list of ids, [table.find({column: ids})], on the
    transaction's connection. The store makes the condition
    [column IN (...)] of the list and rejects the call when the list is
    empty; the resolvers test [length] before each lookup of this kind
    (resolvers.js, lines 202, 224 and 230), the mutation does not. *)
Definition queryIn {I A} (ids : list I) (q : DB -> A) : M A :=
  fun w =>
    match ids with
    | [] => (Exn (mkThrown StoreFailure StoreError), tick w)
    | _ :: _ => query (readOnly q) w
    end.

(** The same lookup on the pool. *)
Definition poolQueryIn {I A} (ids : list I) (q : DB -> A) : M A :=
  fun w =>
    match ids with
    | [] => (Exn (mkThrown StoreFailure StoreError), tick w)
    | _ :: _ => poolQuery q w
    end.

Definition inIds (i : uuid) (ids : list uuid) : bool := existsb (N.eqb i) ids.

Definition inOptIds (i : uuid) (ids : list (option uuid)) : bool :=
  existsb (fun o => match o with Some j => N.eqb i j | None => false end) ids.

(** [packageOptions.find({id: ids})] *)
Definition packageOptions_find (ids : list uuid) (db : DB)
  : list PackageOption.t :=
  filter (fun pko => inIds (PackageOption.id pko) ids) (packageOptions db).

(** [users.findOne({email})] *)
Definition users_findOne (email : string) (db : DB) : option User.t :=
  find (fun u => String.eqb (User.email u) email) (users db).

(** [pledges.find({userId})] and [pledges.count({userId})] *)
Definition pledges_find (uid : uuid) (db : DB) : list Pledge.t :=
  filter (fun p => N.eqb (Pledge.userId p) uid) (pledges db).

Definition pledges_count (uid : uuid) (db : DB) : nat :=
  List.length (pledges_find uid db).

(** [pledgeOptions.find({pledgeId: ids})] *)
Definition pledgeOptions_find (ids : list uuid) (db : DB)
  : list PledgeOption.t :=
  filter (fun o => inIds (PledgeOption.pledgeId o) ids) (pledgeOptions db).

(** [rewards.find({id: ids})]; a null id matches no row. *)
Definition rewards_find (ids : list (option uuid)) (db : DB) : list Reward.t :=
  filter (fun r => inOptIds (Reward.id r) ids) (rewards db).

(** [paymentSources.findOneFieldOnly({userId, method}, 'pspId')] *)
Definition paymentSources_pspId (uid : uuid) (method : string) (db : DB)
  : option uuid :=
  match find (fun s => N.eqb (PaymentSource.userId s) uid
                       && String.eqb (PaymentSource.method s) method)
             (paymentSources db) with
  | Some s => PaymentSource.pspId s
  | None => None
  end.

(** [users.insertAndGet(fields)] *)
Definition users_insertAndGet (i : uuid) (u : UserInput.t) (db : DB)
  : User.t * DB :=
  let row := User.mk i (UserInput.email u) (Some (UserInput.firstName u))
                     (Some (UserInput.lastName u))
                     (Some (UserInput.birthday u)) false in
  (row, setUsers (users db ++ [row]) db).

Definition renameUser (i : uuid) (first last : string) (u : User.t) : User.t :=
  if N.eqb (User.id u) i
  then User.mk (User.id u) (User.email u) (Some first) (Some last)
               (User.birthday u) (User.verified u)
  else u.

(** [users.updateAndGetOne({id}, {firstName, lastName})]: the updated row, or
    [undefined] when no row has that id. *)
Definition users_updateAndGetOne (i : uuid) (first last : string) (db : DB)
  : option User.t * DB :=
  let us := map (renameUser i first last) (users db) in
  (find (fun u => N.eqb (User.id u) i) us, setUsers us db).

(** [pledges.insertAndGet(row)] *)
Definition pledges_insertAndGet (row : Pledge.t) (db : DB) : Pledge.t * DB :=
  (row, setPledges (pledges db ++ [row]) db).

(** [pledgeOptions.insertAndGet(plo)] *)
Definition pledgeOptions_insertAndGet (row : PledgeOption.t) (db : DB)
  : PledgeOption.t * DB :=
  (row, setPledgeOptions (pledgeOptions db ++ [row]) db).

(** ** Transactions *)

(** The world once a transaction was begun: its working copy starts as
    the committed store. *)
Definition begun (w : World) : World :=
  addEvent TxBegin (setWorking (Some (committed w)) w).

(** [pgdb.transactionBegin()]: a call the store may refuse, in which case
    no transaction is opened. *)
Definition transactionBegin : M unit :=
  fun w =>
    if refusesBegin w then (Exn (mkThrown StoreFailure StoreError), w)
    else (Val tt, begun w).

(** [transaction.transactionCommit()]: a store call like the others; when it
    goes through, the working copy becomes the committed store. *)
Definition transactionCommit : M unit :=
  fun w =>
    match working w with
    | None => (Exn (mkThrown StoreFailure StoreError), tick w)
    | Some db =>
        if rejects w then (Exn (mkThrown StoreFailure StoreError), tick w)
        else (Val tt, tick (addEvent TxCommit
                              (setWorking None (setCommitted db w))))
    end.

(** The world once the transaction was rolled back: the working copy is
    dropped. *)
Definition rolledBack (w : World) : World :=
  addEvent TxRollback (setWorking None w).

(** [transaction.transactionRollback()]: a call the store may refuse, in
    which case the transaction stays as it is. *)
Definition transactionRollback : M unit :=
  fun w =>
    if refusesRollback w then (Exn (mkThrown StoreFailure StoreError), w)
    else (Val tt, rolledBack w).

(** ** The mutation *)

Module Request.
Record t := mk {
  user : option User.t       (* [req.user], set when a session exists *)
}.
End Request.

Inductive Completion :=
| Returned (r : Response)
| Threw (e : Thrown).

(** [packageOptions.find( (pko) => pko.id===plo.templateId )] *)
Definition findTemplate (pkos : list PackageOption.t) (tid : uuid)
  : option PackageOption.t :=
  find (fun pko => N.eqb (PackageOption.id pko) tid) pkos.

(** The condition [pko.minAmount <= plo.amount <= pko.maxAmount] as
    JavaScript evaluates it: [<=] associates to the left, so the boolean
    [pko.minAmount <= plo.amount] is converted to 0 or 1 and that number is
    compared with [pko.maxAmount]. *)
Definition amountCondition (pko : PackageOption.t) (plo : PledgeOptionInput.t)
  : bool :=
  Z.b2z (PackageOption.minAmount pko <=? PledgeOptionInput.amount plo)
  <=? PackageOption.maxAmount pko.

(** The summand of [minTotal]. *)
Definition minTerm (pko : PackageOption.t) (plo : PledgeOptionInput.t) : Z :=
  if PackageOption.userPrice pko
  then PackageOption.minUserPrice pko * PledgeOptionInput.amount plo
  else PackageOption.price pko * PledgeOptionInput.amount plo.

(** The summand of [regularTotal]. *)
Definition regularTerm (pko : PackageOption.t) (plo : PledgeOptionInput.t)
  : Z :=
  PackageOption.price pko * PledgeOptionInput.amount plo.

(** [pledgeOptions.reduce((amount, plo) => amount + term(pko, plo), 0)];
    [None] when some option has no template among [pkos] (the callback then
    reads a property of [undefined]). *)
Definition reduceStep
  (term : PackageOption.t -> PledgeOptionInput.t -> Z)
  (pkos : list PackageOption.t) (acc : option Z) (plo : PledgeOptionInput.t)
  : option Z :=
  match acc, findTemplate pkos (PledgeOptionInput.templateId plo) with
  | Some a, Some pko => Some (a + term pko plo)
  | _, _ => None
  end.

Definition reduceOptions
  (term : PackageOption.t -> PledgeOptionInput.t -> Z)
  (pkos : list PackageOption.t) (plos : list PledgeOptionInput.t)
  : option Z :=
  fold_left (reduceStep term pkos) plos (Some 0).

Definition minTotal (pkos : list PackageOption.t)
  (plos : list PledgeOptionInput.t) : option Z :=
  option_map (fun s => Z.max s 100) (reduceOptions minTerm pkos plos).

Definition regularTotal (pkos : list PackageOption.t)
  (plos : list PledgeOptionInput.t) : option Z :=
  option_map (fun s => Z.max s 100) (reduceOptions regularTerm pkos plos).

Definition sameName (stored : option string) (submitted : string) : bool :=
  match stored with
  | Some s => String.eqb s submitted
  | None => false
  end.

(** [!pledge.reason] *)
Definition noReason (reason : option string) : bool :=
  match reason with
  | None => true
  | Some s => String.eqb s ""
  end.

(** [Promise.all(items.map(issue))]: [map] issues every call, in order,
    before anything is awaited, so that a rejected call does not keep the
    later ones from being issued; the promise then settles with all the
    values, or with the first rejection. *)
Fixpoint promiseAll {A B} (issue : A -> M B) (items : list A) {struct items}
  : M (list B) :=
  match items with
  | nil => ret nil
  | cons item rest =>
      fun w =>
        match issue item w with
        | (Val b, w1) =>
            match promiseAll issue rest w1 with
            | (Val bs, w2) => (Val (b :: bs), w2)
            | (Ret r, w2) => (Ret r, w2)
            | (Exn e, w2) => (Exn e, w2)
            end
        | (Ret r, w1) => (Ret r, snd (promiseAll issue rest w1))
        | (Exn e, w1) => (Exn e, snd (promiseAll issue rest w1))
        end
  end.

Section Mutation.

(** The translator of the request context and the signature of the payment
    provider; both live outside this module. *)
Variable t : string -> string.
Variable postfinanceSHA : uuid -> Z -> uuid -> uuid -> string.

(** The body of [pledgeOptions.forEach] (lines 28-38). *)
Fixpoint checkOptions (packageId : uuid) (pkos : list PackageOption.t)
  (plos : list PledgeOptionInput.t) : M unit :=
  match plos with
  | [] => ret tt
  | plo :: rest =>
      pko <- deref (findTemplate pkos (PledgeOptionInput.templateId plo)) ;;
      if negb (N.eqb packageId (PackageOption.packageId pko)) then
        logger LError "options must all be part of the same package!" ;;
        throw CrossPackageSelection (Error (t "api/unexpected"))
      else if negb (amountCondition pko plo) then
        logger LError ("amount in option (templateId: "
                       ++ uuidText (PledgeOptionInput.templateId plo)
                       ++ ") out of range") ;;
        throw AmountOutOfRange (Error (t "api/unexpected"))
      else checkOptions packageId pkos rest
  end.

(** Loading the templates and the three checks on them (lines 12-38).
    Yields [packageId] and the loaded templates. *)
Definition checkTemplates (pledge : PledgeInput.t)
  : M (uuid * list PackageOption.t) :=
  let plos := PledgeInput.options pledge in
  let ids := map PledgeOptionInput.templateId plos in
  pkos <- queryIn ids (packageOptions_find ids) ;;
  (if (List.length pkos <? List.length plos)%nat then
     logger LError
       "one or more of the claimed templateIds are/became invalid" ;;
     throw InvalidTemplateReference (Error (t "api/unexpected"))
   else ret tt) ;;
  first <- deref (nth_error pkos 0) ;;
  let packageId := PackageOption.packageId first in
  checkOptions packageId pkos plos ;;
  ret (packageId, pkos).

(** The two totals (lines 40-65). Yields [donation]. In the branch of the
    total check the message handed to the logger (line 52) is a template
    literal that reads an identifier [total]; no scope of the module
    declares it, so building the message raises before anything is logged
    or thrown by hand. *)
Definition checkTotal (pledge : PledgeInput.t)
  (pkos : list PackageOption.t) : M Z :=
  let plos := PledgeInput.options pledge in
  minT <- deref (minTotal pkos plos) ;;
  (if PledgeInput.total pledge <? minT then
     throw TotalBelowMinimum (ReferenceError "total")
   else ret tt) ;;
  regT <- deref (regularTotal pkos plos) ;;
  ret (PledgeInput.total pledge - regT).

(** Lines 12-65. Yields [packageId] and [donation]. *)
Definition validatePricing (pledge : PledgeInput.t) : M (uuid * Z) :=
  cp <- checkTemplates pledge ;;
  donation <- checkTotal pledge (snd cp) ;;
  ret (fst cp, donation).

(** Lines 66-70. *)
Definition checkReason (pledge : PledgeInput.t) (donation : Z) : M unit :=
  if (donation <? 0) && noReason (PledgeInput.reason pledge) then
    logger LError "you must provide a reason for reduced pledges" ;;
    throw MissingReductionReason (Error (t "api/unexpected"))
  else ret tt.

(** Lines 72-99. Yields the acting user and the payment alias already
    stored for it. *)
Definition resolveUser (req : Request.t) (pledge : PledgeInput.t)
  : M (User.t * option uuid) :=
  let submitted := PledgeInput.user pledge in
  match Request.user req with
  | Some sessionUser =>
      if negb (String.eqb (User.email sessionUser)
                          (UserInput.email submitted)) then
        logger LError
          "req.user.email and pledge.user.email dont match, signout first." ;;
        throw IdentityMismatch (Error (t "api/unexpected"))
      else
        alias <- query (readOnly (paymentSources_pspId
                                    (User.id sessionUser)
                                    "POSTFINANCECARD")) ;;
        ret (sessionUser, alias)
  | None =>
      found <- query (readOnly (users_findOne (UserInput.email submitted))) ;;
      match found with
      | Some u =>
          n <- query (readOnly (pledges_count (User.id u))) ;;
          if negb (Nat.eqb n 0) then returnWith EmailVerify
          else ret (u, None)
      | None =>
          i <- genId ;;
          u <- query (users_insertAndGet i submitted) ;;
          ret (u, None)
      end
  end.

(** Lines 100-106. *)
Definition syncUserProfile (pledge : PledgeInput.t) (user : User.t)
  : M (option User.t) :=
  let submitted := PledgeInput.user pledge in
  if negb (sameName (User.firstName user) (UserInput.firstName submitted))
     || negb (sameName (User.lastName user) (UserInput.lastName submitted))
  then query (users_updateAndGetOne (User.id user)
                                    (UserInput.firstName submitted)
                                    (UserInput.lastName submitted))
  else ret (Some user).

(** Lines 107-110. *)
Definition resolveAlias (stored : option uuid) : M uuid :=
  match stored with
  | Some a => ret a
  | None => genId
  end.

(** The four lookups of the guard (lines 114-117); the last three are by
    a list of ids and the last one goes through the pool. *)
Definition rewardsOf (uid : uuid) : M (list Reward.t) :=
  ps <- query (readOnly (pledges_find uid)) ;;
  let pledgeIds := map Pledge.id ps in
  os <- queryIn pledgeIds (pledgeOptions_find pledgeIds) ;;
  let templateIds := map PledgeOption.templateId os in
  pkos <- queryIn templateIds (packageOptions_find templateIds) ;;
  let rewardIds := map PackageOption.rewardId pkos in
  poolQueryIn rewardIds (rewards_find rewardIds).

(** Lines 112-122. *)
Definition reducedPledgeGuard (donation : Z) (user : option User.t)
  : M unit :=
  if donation <? 0 then
    u <- deref user ;;
    n <- query (readOnly (pledges_count (User.id u))) ;;
    if negb (Nat.eqb n 0) then
      rs <- rewardsOf (User.id u) ;;
      if negb (Nat.eqb (List.length rs) 0) then
        logger LInfo
          "user tried to buy a reduced membership and already pledged before" ;;
        throw ReducedPledgeAlreadyUsed
              (Error (t "api/membership/reduced/alreadyHas"))
      else ret tt
    else ret tt
  else ret tt.

Definition optionRow (pledgeId : uuid) (plo : PledgeOptionInput.t)
  : PledgeOption.t :=
  PledgeOption.mk pledgeId (PledgeOptionInput.templateId plo)
                  (PledgeOptionInput.amount plo)
                  (PledgeOptionInput.price plo).

(** Lines 124-140. *)
Definition insertPledge (packageId : uuid) (donation : Z)
  (pledge : PledgeInput.t) (user : option User.t) : M (Pledge.t * User.t) :=
  u <- deref user ;;
  i <- genId ;;
  newPledge <- query (pledges_insertAndGet
                        (Pledge.mk i (User.id u) packageId
                                   (PledgeInput.total pledge) donation
                                   (PledgeInput.reason pledge) "DRAFT")) ;;
  promiseAll (fun plo => query (pledgeOptions_insertAndGet
                            (optionRow (Pledge.id newPledge) plo)))
       (PledgeInput.options pledge) ;;
  ret (newPledge, u).

(** What is settled when the guard is reached. *)
Record Settled := mkSettled {
  s_packageId : uuid;
  s_donation : Z;
  s_user : option User.t;
  s_alias : uuid
}.

(** From the reason check to the alias (lines 66-110). *)
Definition settle (req : Request.t) (pledge : PledgeInput.t)
  (pd : uuid * Z) : M Settled :=
  checkReason pledge (snd pd) ;;
  ua <- resolveUser req pledge ;;
  user <- syncUserProfile pledge (fst ua) ;;
  pfAliasId <- resolveAlias (snd ua) ;;
  ret (mkSettled (fst pd) (snd pd) user pfAliasId).

(** Lines 8-110. *)
Definition beforeGuard (req : Request.t) (pledge : PledgeInput.t)
  : M Settled :=
  pd <- validatePricing pledge ;;
  settle req pledge pd.

(** Lines 124-158: the inserts, the commit, the signature and the result. *)
Definition afterGuard (pledge : PledgeInput.t) (s : Settled) : M Response :=
  pu <- insertPledge (s_packageId s) (s_donation s) pledge (s_user s) ;;
  transactionCommit ;;
  let newPledge := fst pu in
  let user := snd pu in
  ret (Submitted (Pledge.id newPledge) (User.id user)
                 (postfinanceSHA (Pledge.id newPledge) (Pledge.total newPledge)
                                 (s_alias s) (User.id user))
                 (s_alias s)).

(** The statements inside [try] (lines 8-158). *)
Definition body (req : Request.t) (pledge : PledgeInput.t) : M Response :=
  s <- beforeGuard req pledge ;;
  reducedPledgeGuard (s_donation s) (s_user s) ;;
  afterGuard pledge s.

(** The [catch] block (lines 159-163): the rollback is awaited first, so
    that its rejection, if any, is what leaves the function; only after it
    come the log line and the [throw] of the value caught. *)
Definition rollbackAndRethrow (e : Thrown) : M Response :=
  transactionRollback ;;
  logger LInfo "transaction rollback" ;;
  rethrow e.

(** How the promise of the function settles. *)
Definition completion (o : Outcome Response * World) : Completion * World :=
  match o with
  | (Val r, w) => (Returned r, w)
  | (Ret r, w) => (Returned r, w)
  | (Exn e, w) => (Threw e, w)
  end.

(** The exported function: the begin (line 6, outside [try]), the body,
    and on a throw inside [try] the [catch] block. *)
Definition submitPledge (req : Request.t) (pledge : PledgeInput.t)
  (w : World) : Completion * World :=
  completion
    (match transactionBegin w with
     | (Val _, w0) =>
         match body req pledge w0 with
         | (Exn e, w1) => rollbackAndRethrow e w1
         | settled => settled
         end
     | (Ret r, w0) => (Ret r, w0)
     | (Exn e, w0) => (Exn e, w0)
     end).

End Mutation.

(** ** The specification's vocabulary *)

(** What an option adds to a sum over the templates [pkos]. *)
Definition foundTerm
  (term : PackageOption.t -> PledgeOptionInput.t -> Z)
  (pkos : list PackageOption.t) (plo : PledgeOptionInput.t) : Z :=
  match findTemplate pkos (PledgeOptionInput.templateId plo) with
  | Some pko => term pko plo
  | None => 0
  end.

(** The catalog entry a submitted option refers to. *)
Definition templateOf (db : DB) (plo : PledgeOptionInput.t)
  : option PackageOption.t :=
  findTemplate (packageOptions db) (PledgeOptionInput.templateId plo).

(** [minUserPrice] if the template has the [userPrice] flag, else [price]. *)
Definition unitMinPrice (pko : PackageOption.t) : Z :=
  if PackageOption.userPrice pko
  then PackageOption.minUserPrice pko
  else PackageOption.price pko.

(** The sum over the options of [amount_i] times a unit price of the
    option's template. *)
Definition spec_sum (unit : PackageOption.t -> Z) (db : DB)
  (plos : list PledgeOptionInput.t) : Z :=
  fold_right Z.add 0
    (map (fun plo =>
            match templateOf db plo with
            | Some pko => PledgeOptionInput.amount plo * unit pko
            | None => 0
            end) plos).

Definition spec_minTotal (db : DB) (plos : list PledgeOptionInput.t) : Z :=
  Z.max 100 (spec_sum unitMinPrice db plos).

Definition spec_regularTotal (db : DB) (plos : list PledgeOptionInput.t)
  : Z :=
  Z.max 100 (spec_sum PackageOption.price db plos).

(** A reward is reachable from the pledges of user [uid] through their
    options, the options' templates and the templates' reward ids. *)
Definition rewardReachable (db : DB) (uid : uuid) : Prop :=
  exists p o pko r,
    (In p (pledges db) /\ Pledge.userId p = uid) /\
    (In o (pledgeOptions db) /\ PledgeOption.pledgeId o = Pledge.id p) /\
    (In pko (packageOptions db) /\
     PackageOption.id pko = PledgeOption.templateId o) /\
    (In r (rewards db) /\ PackageOption.rewardId pko = Some (Reward.id r)).

(** The catalog templates the options of the pledges of user [uid] refer
    to. *)
Definition templatesHeld (db : DB) (uid : uuid) : list PackageOption.t :=
  packageOptions_find
    (map PledgeOption.templateId
       (pledgeOptions_find (map Pledge.id (pledges_find uid db)) db))
    db.

(** The rows the guard's four lookups end with: the first three read the
    transaction's view [db], the last one the committed store [pool]. *)
Definition rewardsChain (db pool : DB) (uid : uuid) : list Reward.t :=
  rewards_find
    (map PackageOption.rewardId
       (packageOptions_find
          (map PledgeOption.templateId
             (pledgeOptions_find (map Pledge.id (pledges_find uid db)) db))
          db))
    pool.

(** The id of the user a submission acts for: the session user, else the
    user stored under the submitted email, else the user about to be
    created, who receives the next generated id. *)
Definition actingUserId (req : Request.t) (pledge : PledgeInput.t)
  (w : World) : uuid :=
  match Request.user req with
  | Some sessionUser => User.id sessionUser
  | None =>
      match users_findOne (UserInput.email (PledgeInput.user pledge))
                          (committed w) with
      | Some u => User.id u
      | None => nextId w
      end
  end.

(** The templates [packageOptions.find] returns for a list of options. *)
Definition loadedTemplates (db : DB) (plos : list PledgeOptionInput.t)
  : list PackageOption.t :=
  packageOptions_find (map PledgeOptionInput.templateId plos) db.

(** The number of distinct template ids a submission refers to. *)
Definition distinctTemplateIds (plos : list PledgeOptionInput.t) : nat :=
  List.length (nodup N.eq_dec (map PledgeOptionInput.templateId plos)).

(** ** The values the mutation can throw *)

Definition storeError : Thrown := mkThrown StoreFailure StoreError.

Definition typeError : Thrown := mkThrown UndefinedDereference TypeError.

(** [new Error(t('api/unexpected'))] thrown at the site [c]. *)
Definition unexpected (t : string -> string) (c : Failure) : Thrown :=
  mkThrown c (Error (t "api/unexpected")).

Definition alreadyHas (t : string -> string) : Thrown :=
  mkThrown ReducedPledgeAlreadyUsed
           (Error (t "api/membership/reduced/alreadyHas")).

Definition totalUndeclared : Thrown :=
  mkThrown TotalBelowMinimum (ReferenceError "total").

Definition thrownByCheckOptions (t : string -> string) : list Thrown :=
  [typeError; unexpected t CrossPackageSelection;
   unexpected t AmountOutOfRange].

Definition thrownByCheckTemplates (t : string -> string) : list Thrown :=
  storeError :: unexpected t InvalidTemplateReference
             :: thrownByCheckOptions t.

Definition thrownByCheckTotal : list Thrown := [typeError; totalUndeclared].

Definition thrownBySettle (t : string -> string) : list Thrown :=
  [storeError; unexpected t MissingReductionReason;
   unexpected t IdentityMismatch].

Definition thrownByGuard (t : string -> string) : list Thrown :=
  [storeError; typeError; alreadyHas t].

Definition thrownByAfterGuard : list Thrown := [storeError; typeError].

(** ** A catalog and a store to run the mutation on *)

Module Fixture.

(** Templates A and B of one package, C of another. *)
Definition tplA : PackageOption.t :=
  PackageOption.mk 1 10 (Some 100%N) 1 5 1000 true 800.
Definition tplB : PackageOption.t :=
  PackageOption.mk 2 10 None 1 3 500 false 0.
Definition tplC : PackageOption.t :=
  PackageOption.mk 3 11 None 1 3 500 false 0.

(** Alice holds a pledge whose option carries a reward; Carol holds a
    pledge without options. *)
Definition alice : User.t :=
  User.mk 50 "alice@example.org" (Some "Alice") (Some "A") None true.
Definition carol : User.t :=
  User.mk 51 "carol@example.org" (Some "Carol") (Some "C") None true.

Definition store : DB :=
  mkDB [alice; carol]
       [Pledge.mk 70 50 10 1000 0 None "SUCCESSFUL";
        Pledge.mk 71 51 10 100 100 None "SUCCESSFUL"]
       [PledgeOption.mk 70 1 1 1000]
       [tplA; tplB; tplC]
       []
       [Reward.mk 100 "MembershipType"].

Definition world : World := mkWorld store None 1000 0 [] false false [] [].

(** The same world, in which the store rejects its [n]-th call. *)
Definition worldFailing (n : nat) : World :=
  mkWorld store None 1000 0 [n] false false [] [].

(** The same world, in which the store refuses the rollback. *)
Definition worldRefusingRollback : World :=
  mkWorld store None 1000 0 [] false true [] [].

(** A store in which Dave, too, holds a pledge: one of template B, which
    carries no reward. He has a payment source with an alias. *)
Definition dave : User.t :=
  User.mk 52 "dave@example.org" (Some "Dave") (Some "D") None true.

Definition storeWithDave : DB :=
  mkDB [alice; carol; dave]
       [Pledge.mk 70 50 10 1000 0 None "SUCCESSFUL";
        Pledge.mk 71 51 10 100 100 None "SUCCESSFUL";
        Pledge.mk 72 52 10 500 0 None "SUCCESSFUL"]
       [PledgeOption.mk 70 1 1 1000; PledgeOption.mk 72 2 1 500]
       [tplA; tplB; tplC]
       [PaymentSource.mk 52 "POSTFINANCECARD" (Some 900%N)]
       [Reward.mk 100 "MembershipType"].

Definition worldWithDave : World :=
  mkWorld storeWithDave None 1000 0 [] false false [] [].

(** A catalog with a template D of the first package, of which none may be
    had: its minimum and its maximum are zero. *)
Definition tplD : PackageOption.t :=
  PackageOption.mk 4 10 None 0 0 500 false 0.

Definition worldSoldOut : World :=
  mkWorld (mkDB (users store) (pledges store) (pledgeOptions store)
                [tplA; tplB; tplC; tplD] [] (rewards store))
          None 1000 0 [] false false [] [].

Definition t (key : string) : string := key.

Definition postfinanceSHA (orderId : uuid) (amount : Z)
  (alias userId : uuid) : string := "sha".

Definition bob : UserInput.t :=
  UserInput.mk "bob@example.org" "Bob" "B" "01.01.1990".
Definition aliceInput : UserInput.t :=
  UserInput.mk "alice@example.org" "Alice" "A" "01.01.1990".
Definition daveInput : UserInput.t :=
  UserInput.mk "dave@example.org" "Dave" "D" "01.01.1990".
(** Alice under another first name. *)
Definition aliciaInput : UserInput.t :=
  UserInput.mk "alice@example.org" "Alicia" "A" "01.01.1990".

Definition anonymous : Request.t := Request.mk None.
Definition asAlice : Request.t := Request.mk (Some alice).
Definition asDave : Request.t := Request.mk (Some dave).

Definition optA (amount : Z) : PledgeOptionInput.t :=
  PledgeOptionInput.mk 1 amount 1000.
Definition optB (amount : Z) : PledgeOptionInput.t :=
  PledgeOptionInput.mk 2 amount 500.
Definition optC (amount : Z) : PledgeOptionInput.t :=
  PledgeOptionInput.mk 3 amount 500.
Definition optD (amount : Z) : PledgeOptionInput.t :=
  PledgeOptionInput.mk 4 amount 500.

(** Three of A and one of B, at a given total. *)
Definition cart (total : Z) (reason : option string) (u : UserInput.t)
  : PledgeInput.t :=
  PledgeInput.mk total reason u [optA 3; optB 1].

End Fixture.

(** ** Predicates on computations *)

(** [untouched]: only the log and the call counter moved. *)
Record untouched (w w' : World) : Prop := mkUntouched {
  un_committed : committed w' = committed w;
  un_working : working w' = working w;
  un_nextId : nextId w' = nextId w;
  un_failAt : failAt w' = failAt w;
  un_trace : trace w' = trace w
}.

(** The tables that only [insertPledge] writes. *)
Definition sameOrders (db db' : DB) : Prop :=
  pledges db' = pledges db /\ pledgeOptions db' = pledgeOptions db /\
  packageOptions db' = packageOptions db.

(** [framed]: the transaction stays open and at most [users] changed in it. *)
Record framed (w w' : World) : Prop := mkFramed {
  fr_committed : committed w' = committed w;
  fr_failAt : failAt w' = failAt w;
  fr_trace : trace w' = trace w;
  fr_working : forall db, working w = Some db ->
               exists db', working w' = Some db' /\ sameOrders db db'
}.

(** [kept]: nothing was committed and the transaction was not closed. *)
Record kept (w w' : World) : Prop := mkKept {
  k_committed : committed w' = committed w;
  k_failAt : failAt w' = failAt w;
  k_trace : trace w' = trace w
}.

(** [stillOpen]: a transaction that was open has not been closed. *)
Definition stillOpen (w w' : World) : Prop :=
  working w <> None -> working w' <> None.

(** Every run of [m] relates the world before to the world after. *)
Definition stable (R : World -> World -> Prop) {A} (m : M A) : Prop :=
  forall w o w', m w = (o, w') -> R w w'.

(** Every value [m] throws satisfies [P]. *)
Definition raises {A} (P : Thrown -> Prop) (m : M A) : Prop :=
  forall w e w', m w = (Exn e, w') -> P e.

(** Every early return of [m] satisfies [P]. *)
Definition returns {A} (P : Response -> Prop) (m : M A) : Prop :=
  forall w r w', m w = (Ret r, w') -> P r.

(** ** What a run may change in the store *)

(** [grows db db']: the catalog, the payment sources and the rewards are the
    same, pledges and pledge options were only appended, and the users kept
    their ids and their order, with new ones appended. *)
Record grows (db db' : DB) : Prop := mkGrows {
  g_catalog : packageOptions db' = packageOptions db;
  g_sources : paymentSources db' = paymentSources db;
  g_rewards : rewards db' = rewards db;
  g_pledges : exists l, pledges db' = (pledges db ++ l)%list;
  g_options : exists l, pledgeOptions db' = (pledgeOptions db ++ l)%list;
  g_users : exists l,
      map User.id (users db') = (map User.id (users db) ++ l)%list
}.

(** The transaction stays open and its working copy only grows. *)
Definition workingGrows (w w' : World) : Prop :=
  forall db, working w = Some db ->
  exists db', working w' = Some db' /\ grows db db'.

(** The row [users.insertAndGet] creates for a submitted contact. *)
Definition newUserRow (i : uuid) (u : UserInput.t) : User.t :=
  User.mk i (UserInput.email u) (Some (UserInput.firstName u))
          (Some (UserInput.lastName u)) (Some (UserInput.birthday u)) false.

(** Whether the stored names differ from the submitted ones (line 101). *)
Definition namesDiffer (stored : User.t) (u : UserInput.t) : bool :=
  negb (sameName (User.firstName stored) (UserInput.firstName u))
  || negb (sameName (User.lastName stored) (UserInput.lastName u)).

(** The users table after the profile of [acting] was brought in line with
    the submitted contact. *)
Definition syncedUsers (acting : User.t) (u : UserInput.t)
  (us : list User.t) : list User.t :=
  if namesDiffer acting u
  then map (renameUser (User.id acting) (UserInput.firstName u)
                       (UserInput.lastName u)) us
  else us.

(** The users table a successful submission leaves behind. *)
Definition usersAfter (req : Request.t) (pledge : PledgeInput.t) (w : World)
  : list User.t :=
  let submitted := PledgeInput.user pledge in
  let us := users (committed w) in
  match Request.user req with
  | Some sessionUser => syncedUsers sessionUser submitted us
  | None =>
      match users_findOne (UserInput.email submitted) (committed w) with
      | Some u => syncedUsers u submitted us
      | None => (us ++ [newUserRow (nextId w) submitted])%list
      end
  end.

(** The alias a successful submission returns: the one stored for the
    session user, else the next generated id (which follows the new user's
    id when a user is created). *)
Definition aliasAfter (req : Request.t) (pledge : PledgeInput.t) (w : World)
  : uuid :=
  match Request.user req with
  | Some sessionUser =>
      match paymentSources_pspId (User.id sessionUser) "POSTFINANCECARD"
                                 (committed w) with
      | Some a => a
      | None => nextId w
      end
  | None =>
      match users_findOne (UserInput.email (PledgeInput.user pledge))
                          (committed w) with
      | Some _ => nextId w
      | None => N.succ (nextId w)
      end
  end.

(** The line of the amount check for the option it refuses (line 35). *)
Definition amountLine (templateId : uuid) : LogEntry :=
  mkLog LError ("amount in option (templateId: " ++ uuidText templateId
                ++ ") out of range").

(** The template of the first option, in order, whose amount the
    condition of the amount check refuses. *)
Definition firstOutOfRange (pkos : list PackageOption.t)
  (plos : list PledgeOptionInput.t) : option uuid :=
  option_map PledgeOptionInput.templateId
    (find (fun plo =>
             match findTemplate pkos (PledgeOptionInput.templateId plo) with
             | Some pko => negb (amountCondition pko plo)
             | None => false
             end) plos).

(** The lines a throw leaves in the log before the [catch] block runs;
    [culprit] is the template the amount check names, if it fired. *)
Definition logOf (culprit : option uuid) (e : Thrown) : list LogEntry :=
  match cause e with
  | InvalidTemplateReference =>
      [mkLog LError
             "one or more of the claimed templateIds are/became invalid"]
  | CrossPackageSelection =>
      [mkLog LError "options must all be part of the same package!"]
  | AmountOutOfRange =>
      match culprit with
      | Some templateId => [amountLine templateId]
      | None => []
      end
  | MissingReductionReason =>
      [mkLog LError "you must provide a reason for reduced pledges"]
  | IdentityMismatch =>
      [mkLog LError
         "req.user.email and pledge.user.email dont match, signout first."]
  | ReducedPledgeAlreadyUsed =>
      [mkLog LInfo
         "user tried to buy a reduced membership and already pledged before"]
  | TotalBelowMinimum => []
  | UndefinedDereference => []
  | StoreFailure => []
  end.

(** Every run of [m] logs nothing, except the lines of its throw. *)
Definition logged (culprit : option uuid) {A} (m : M A) : Prop :=
  forall w o w', m w = (o, w') ->
    logs w' = (logs w ++ match o with
                         | Exn e => logOf culprit e
                         | _ => []
                         end)%list.

(** [sameOracle]: what the store refuses is not for the mutation to
    change. *)
Definition sameOracle (w w' : World) : Prop :=
  refusesRollback w' = refusesRollback w.

(** What pricing validation reads of an option. *)
Definition pricedAs (plo : PledgeOptionInput.t) : uuid * Z :=
  (PledgeOptionInput.templateId plo, PledgeOptionInput.amount plo).

(** ** The resolvers *)

(** What a resolver's promise settles with. The resolvers read through the
    pool; a store that fails is left out of their model. *)
Inductive Result (A : Type) :=
| Resolved (a : A)
| Rejected (e : JsError).

Arguments Resolved {A} a.
Arguments Rejected {A} e.

(** [pledges.findOne({id})] *)
Definition pledges_findOne (i : uuid) (db : DB) : option Pledge.t :=
  find (fun p => N.eqb (Pledge.id p) i) (pledges db).

(** [pledges.findOne({id, userId})] *)
Definition pledges_findOwn (i uid : uuid) (db : DB) : option Pledge.t :=
  find (fun p => N.eqb (Pledge.id p) i && N.eqb (Pledge.userId p) uid)
       (pledges db).

(** [users.findOne({id})] *)
Definition users_findById (i : uuid) (db : DB) : option User.t :=
  find (fun u => N.eqb (User.id u) i) (users db).

Module RootQuery.

(** [RootQuery.pledges] (lines 64-67). *)
Definition pledges (user : option User.t) (db : DB) : list Pledge.t :=
  match user with
  | None => []
  | Some u => pledges_find (User.id u) db
  end.

(** [RootQuery.pledge] (lines 68-82). Without a session the pledge and
    its user are read before anything is tested, so that a missing row
    makes the read of [pledge.userId] or of [user.verified] throw. *)
Definition pledge (req : Request.t) (i : uuid) (db : DB)
  : Result (option Pledge.t) :=
  match Request.user req with
  | Some sessionUser => Resolved (pledges_findOwn i (User.id sessionUser) db)
  | None =>
      match pledges_findOne i db with
      | None => Rejected TypeError
      | Some p =>
          match users_findById (Pledge.userId p) db with
          | None => Rejected TypeError
          | Some u =>
              if negb (User.verified u) then Resolved (Some p)
              else Resolved None
          end
      end
  end.

(** [RootQuery.draftPledge] (lines 83-100), with the lines it logs. The
    resolver receives [{pgdb, req}] and the module declares no [t]: the
    two [throw new Error(t(...))] raise a ReferenceError while their
    argument is evaluated, after the line was logged. The test
    [req.user.id === user.id || !user.verified] reads [req.user.id]
    first. *)
Definition draftPledge (req : Request.t) (i : uuid) (db : DB)
  : list LogEntry * Result Pledge.t :=
  match pledges_findOne i db with
  | None => ([], Rejected TypeError)
  | Some p =>
      if String.eqb (Pledge.status p) "SUCCESSFUL" then
        ([mkLog LError "draftPledge for successfull pledge"],
         Rejected (ReferenceError "t"))
      else
        match Request.user req, users_findById (Pledge.userId p) db with
        | Some sessionUser, Some u =>
            if N.eqb (User.id sessionUser) (User.id u)
               || negb (User.verified u)
            then ([], Resolved p)
            else ([mkLog LError "unauthorized draftPledge"],
                  Rejected (ReferenceError "t"))
        | _, _ => ([], Rejected TypeError)
        end
  end.

End RootQuery.

Module CrowdfundingResolvers.

(** The [money] of [Crowdfunding.status] (lines 171-175):
    [SELECT SUM(total) FROM pledges WHERE status = 'SUCCESSFUL'], which is
    NULL over no row, then [|| 0]. *)
Definition money (db : DB) : Z :=
  fold_right Z.add 0
    (map Pledge.total
         (filter (fun p => String.eqb (Pledge.status p) "SUCCESSFUL")
                 (pledges db))).

End CrowdfundingResolvers.

Module Vote.
Record t := mk {
  userId : uuid;
  vote : string
}.
End Vote.

Module Comment.
Record t := mk {
  id : uuid;
  feedId : uuid;
  upVotes : Z;
  downVotes : Z;
  votes : list Vote.t
}.
End Comment.

Module CommentView.
Record t := mk {
  comment : Comment.t;
  score : Z;
  usersVote : option string
}.
End CommentView.

Module FeedResolvers.

(** [comment.votes.find( vote => vote.userId === user.id )]: the callback
    reads [user.id] at its first call, that is, as soon as there is a
    vote. *)
Definition findUsersVote (user : option User.t) (votes : list Vote.t)
  : Result (option Vote.t) :=
  match votes, user with
  | [], _ => Resolved None
  | _ :: _, None => Rejected TypeError
  | _ :: _, Some u =>
      Resolved (find (fun v => N.eqb (Vote.userId v) (User.id u)) votes)
  end.

(** The callback of [map] in [Feed.comments] (lines 253-259). *)
Definition viewComment (user : option User.t) (c : Comment.t)
  : Result CommentView.t :=
  match findUsersVote user (Comment.votes c) with
  | Rejected e => Rejected e
  | Resolved v =>
      Resolved (CommentView.mk c (Comment.upVotes c - Comment.downVotes c)
                               (option_map Vote.vote v))
  end.

(** [Feed.comments] (lines 250-261) over the rows [found] that
    [comments.find({feedId}, {orderBy})] returned, in their order. *)
Fixpoint comments (user : option User.t) (found : list Comment.t)
  : Result (list CommentView.t) :=
  match found with
  | [] => Resolved []
  | c :: rest =>
      match viewComment user c with
      | Rejected e => Rejected e
      | Resolved v =>
          match comments user rest with
          | Rejected e => Rejected e
          | Resolved vs => Resolved (v :: vs)
          end
      end
  end.

End FeedResolvers.

Module UserResolvers.

(** How [Array.prototype.join] prints an element: nothing for [null]. *)
Definition joined (o : option string) : string :=
  match o with
  | Some s => s
  | None => ""
  end.

(** How a template literal and [+] print a value: ["null"] for [null]. *)
Definition printed (o : option string) : string :=
  match o with
  | Some s => s
  | None => "null"
  end.

(** [User.name] (lines 130-132): [[firstName, lastName].join(' ')]. *)
Definition name (u : User.t) : string :=
  joined (User.firstName u) ++ " " ++ joined (User.lastName u).

(** The [name] of [User.testimonial] (line 147), a template literal, and
    the [claimerName] of [Pledge.memberships] (line 237), built with [+]. *)
Definition printedName (u : User.t) : string :=
  printed (User.firstName u) ++ " " ++ printed (User.lastName u).

End UserResolvers.

Module Membership.
Record t := mk {
  id : uuid;
  userId : uuid;
  pledgeId : uuid;
  membershipTypeId : uuid
}.
End Membership.

Module MembershipView.
Record t := mk {
  membership : Membership.t;
  claimerName : option string
}.
End MembershipView.

Module PledgeResolvers.

(** The callback of [map] in [Pledge.memberships] (lines 233-241). *)
Definition viewMembership (p : Pledge.t) (found : list User.t)
  (m : Membership.t) : Result MembershipView.t :=
  if negb (N.eqb (Membership.userId m) (Pledge.userId p)) then
    match find (fun u => N.eqb (User.id u) (Membership.userId m)) found with
    | None => Rejected TypeError
    | Some u => Resolved (MembershipView.mk m (Some (UserResolvers.printedName u)))
    end
  else Resolved (MembershipView.mk m None).

Fixpoint viewMemberships (p : Pledge.t) (found : list User.t)
  (ms : list Membership.t) : Result (list MembershipView.t) :=
  match ms with
  | [] => Resolved []
  | m :: rest =>
      match viewMembership p found m with
      | Rejected e => Rejected e
      | Resolved v =>
          match viewMemberships p found rest with
          | Rejected e => Rejected e
          | Resolved vs => Resolved (v :: vs)
          end
      end
  end.

(** [Pledge.memberships] (lines 228-242) over the memberships table. *)
Definition memberships (p : Pledge.t) (table : list Membership.t) (db : DB)
  : Result (list MembershipView.t) :=
  let ms := filter (fun m => N.eqb (Membership.pledgeId m) (Pledge.id p))
                   table in
  if Nat.eqb (List.length ms) 0 then Resolved []
  else
    let found := filter (fun u => inIds (User.id u)
                                        (map Membership.userId ms))
                        (users db) in
    viewMemberships p found ms.

End PledgeResolvers.

(** The objects of the array [packageOptions] in [Pledge.options]: rows of
    the catalog as loaded, which the resolver then changes in place. The
    timestamps, which neither table carries here, are left out. *)
Module OptionObject.

(** The [id] of an object: the template's, or, once augmented, the text
    [pledgeId-templateId]. *)
Inductive key :=
| TemplateKey (id : uuid)
| CombinedKey (pledgeId templateId : uuid).

Record t := mk {
  id : key;
  packageId : uuid;
  rewardId : option uuid;
  minAmount : Z;
  maxAmount : Z;
  price : Z;
  userPrice : bool;
  minUserPrice : Z;
  amount : option Z;
  templateId : option uuid
}.

(** A row as the store hands it over. *)
Definition load (pko : PackageOption.t) : t :=
  mk (TemplateKey (PackageOption.id pko)) (PackageOption.packageId pko)
     (PackageOption.rewardId pko) (PackageOption.minAmount pko)
     (PackageOption.maxAmount pko) (PackageOption.price pko)
     (PackageOption.userPrice pko) (PackageOption.minUserPrice pko)
     None None.

(** The four assignments of lines 207-210. *)
Definition augment (plo : PledgeOption.t) (o : t) : t :=
  mk (CombinedKey (PledgeOption.pledgeId plo) (PledgeOption.templateId plo))
     (packageId o) (rewardId o) (minAmount o) (maxAmount o)
     (PledgeOption.price plo) (userPrice o) (minUserPrice o)
     (Some (PledgeOption.amount plo)) (Some (PledgeOption.templateId plo)).

(** [plo.templateId == pko.id]: a combined key is longer than any id. *)
Definition isTemplate (tid : uuid) (o : t) : bool :=
  match id o with
  | TemplateKey i => N.eqb tid i
  | CombinedKey _ _ => false
  end.

End OptionObject.

Module PledgeOptionsResolver.

(** One call of the callback of [map] (lines 205-214) on the array
    [objects]: the first object [find] stops at is changed in place and
    its position is what the callback returns; [None] when [find] returns
    undefined and the assignment to [pko.id] throws. *)
Fixpoint augmentFirst (plo : PledgeOption.t) (objects : list OptionObject.t)
  : option (nat * list OptionObject.t) :=
  match objects with
  | [] => None
  | o :: rest =>
      if OptionObject.isTemplate (PledgeOption.templateId plo) o
      then Some (0%nat, OptionObject.augment plo o :: rest)
      else match augmentFirst plo rest with
           | Some (i, rest') => Some (S i, o :: rest')
           | None => None
           end
  end.

(** The callback over all the options, in order, on the one array. *)
Fixpoint augmentAll (plos : list PledgeOption.t)
  (objects : list OptionObject.t)
  : option (list nat * list OptionObject.t) :=
  match plos with
  | [] => Some ([], objects)
  | plo :: rest =>
      match augmentFirst plo objects with
      | None => None
      | Some (i, objects1) =>
          match augmentAll rest objects1 with
          | None => None
          | Some (refs, objects2) => Some (i :: refs, objects2)
          end
      end
  end.

(** What the returned references show once [map] is done. *)
Definition readRefs (objects : list OptionObject.t) (refs : list nat)
  : list OptionObject.t :=
  flat_map (fun i => match nth_error objects i with
                     | Some o => [o]
                     | None => []
                     end) refs.

(** [Pledge.options] (lines 199-215). *)
Definition options (pledge : Pledge.t) (db : DB)
  : Result (list OptionObject.t) :=
  let pledgeOptions := pledgeOptions_find [Pledge.id pledge] db in
  if Nat.eqb (List.length pledgeOptions) 0 then Resolved []
  else
    let packageOptions :=
      map OptionObject.load
          (packageOptions_find (map PledgeOption.templateId pledgeOptions)
                               db) in
    match augmentAll pledgeOptions packageOptions with
    | None => Rejected TypeError
    | Some (refs, objects) => Resolved (readRefs objects refs)
    end.

End PledgeOptionsResolver.

Module TestimonialResolvers.

Fixpoint dropChars (n : nat) (s : string) : string :=
  match n, s with
  | O, _ => s
  | S n', String _ s' => dropChars n' s'
  | S _, EmptyString => EmptyString
  end.

(** [s.replace(pattern, replacement)] for a pattern given as a string and
    a replacement without [$]: the first occurrence only. *)
Fixpoint replace (pattern replacement s : string) {struct s} : string :=
  if String.prefix pattern s
  then replacement ++ dropChars (String.length pattern) s
  else match s with
       | EmptyString => EmptyString
       | String c s' => String c (replace pattern replacement s')
       end.

(** [Testimonial.image] (lines 154-160). *)
Definition image (stored : string) (size : option string) : string :=
  match size with
  | Some s =>
      if String.eqb s "SHARE"
      then replace "384x384.jpeg" "1000x1000.jpeg" stored
      else stored
  | None => stored
  end.

End TestimonialResolvers.

(** Sample data for the resolvers. *)
Module Sample.

(** The store once Bob, unknown so far, has submitted the cart without a
    session: user 1000, not verified, holds the DRAFT pledge 1002. *)
Definition afterBob : DB :=
  committed (snd (submitPledge Fixture.t Fixture.postfinanceSHA
                    Fixture.anonymous (Fixture.cart 3500 None Fixture.bob)
                    Fixture.world)).

Definition bobsPledge : Pledge.t :=
  Pledge.mk 1002 1000 10 3500 0 None "DRAFT".

Definition asBob : Request.t :=
  Request.mk (Some (User.mk 1000 "bob@example.org" (Some "Bob") (Some "B")
                            (Some "01.01.1990") false)).

(** Two comments: one Alice and Carol voted on, one without votes. *)
Definition voted : Comment.t :=
  Comment.mk 1 7 1 1 [Vote.mk 50 "UP"; Vote.mk 51 "DOWN"].
Definition fresh : Comment.t := Comment.mk 2 7 0 0 [].

(** Alice's pledge 70 carries her own membership and one claimed by
    Carol; Carol's pledge 71 carries one claimed by a user without row. *)
Definition memberships : list Membership.t :=
  [Membership.mk 1 50 70 1; Membership.mk 2 51 70 1; Membership.mk 3 99 71 1].

Definition alicesPledge : Pledge.t :=
  Pledge.mk 70 50 10 1000 0 None "SUCCESSFUL".
Definition carolsPledge : Pledge.t :=
  Pledge.mk 71 51 10 100 100 None "SUCCESSFUL".

End Sample.

(** * Properties *)

(** ** Running a sequence *)

Lemma bind_val {A B} (m : M A) (f : A -> M B) w a w1 :
  m w = (Val a, w1) -> bind m f w = f a w1.
Proof. intros H. unfold bind. now rewrite H. Qed.

Lemma bind_exn {A B} (m : M A) (f : A -> M B) w e w1 :
  m w = (Exn e, w1) -> bind m f w = (Exn e, w1).
Proof. intros H. unfold bind. now rewrite H. Qed.

Lemma bind_ret {A B} (m : M A) (f : A -> M B) w r w1 :
  m w = (Ret r, w1) -> bind m f w = (Ret r, w1).
Proof. intros H. unfold bind. now rewrite H. Qed.

Lemma bind_val_inv {A B} (m : M A) (f : A -> M B) w b w' :
  bind m f w = (Val b, w') ->
  exists a w1, m w = (Val a, w1) /\ f a w1 = (Val b, w').
Proof.
  unfold bind. destruct (m w) as [[a|r|e] w1]; intros H; try discriminate.
  now exists a, w1.
Qed.

Lemma bind_exn_inv {A B} (m : M A) (f : A -> M B) w e w' :
  bind m f w = (Exn e, w') ->
  m w = (Exn e, w') \/ exists a w1, m w = (Val a, w1) /\ f a w1 = (Exn e, w').
Proof.
  unfold bind. destruct (m w) as [[a|r|e0] w1]; intros H; try discriminate.
  - right. now exists a, w1.
  - left. now inversion H.
Qed.

Lemma bind_ret_inv {A B} (m : M A) (f : A -> M B) w r w' :
  bind m f w = (Ret r, w') ->
  m w = (Ret r, w') \/ exists a w1, m w = (Val a, w1) /\ f a w1 = (Ret r, w').
Proof.
  unfold bind. destruct (m w) as [[a|r0|e0] w1]; intros H; try discriminate.
  - right. now exists a, w1.
  - left. now inversion H.
Qed.

Lemma promiseAll_val_inv {A B} (f : A -> M B) item rest w bs w' :
  promiseAll f (item :: rest) w = (Val bs, w') ->
  exists b w1 bs',
    f item w = (Val b, w1) /\ promiseAll f rest w1 = (Val bs', w') /\
    bs = b :: bs'.
Proof.
  simpl. destruct (f item w) as [[b|r|e] w1]; try discriminate.
  destruct (promiseAll f rest w1) as [[bs'|r|e] w2] eqn:E; try discriminate.
  intros H. inversion H; subst. now exists b, w1, bs'.
Qed.

(** ** Store calls *)

Lemma no_fault_rejects w : failAt w = [] -> rejects w = false.
Proof. unfold rejects. now intros ->. Qed.

Lemma query_val {A} (q : DB -> A * DB) w db :
  working w = Some db -> rejects w = false ->
  query q w = (Val (fst (q db)), tick (setWorking (Some (snd (q db))) w)).
Proof.
  intros Hw Hr. unfold query. rewrite Hw, Hr. now destruct (q db).
Qed.

Lemma query_val_inv {A} (q : DB -> A * DB) w a w' :
  query q w = (Val a, w') ->
  exists db, working w = Some db /\ rejects w = false /\ a = fst (q db) /\
             w' = tick (setWorking (Some (snd (q db))) w).
Proof.
  unfold query. destruct (working w) as [db|]; [|discriminate].
  destruct (rejects w); [discriminate|].
  destruct (q db) as [a0 db'] eqn:E. intros H. inversion H; subst.
  exists db. now rewrite E.
Qed.

Lemma query_exn_inv {A} (q : DB -> A * DB) w e w' :
  query q w = (Exn e, w') ->
  e = mkThrown StoreFailure StoreError /\ w' = tick w.
Proof.
  unfold query. destruct (working w) as [db|].
  - destruct (rejects w).
    + intros H. now inversion H.
    + destruct (q db). discriminate.
  - intros H. now inversion H.
Qed.

Lemma query_not_ret {A} (q : DB -> A * DB) w r w' :
  query q w <> (Ret r, w').
Proof.
  unfold query. destruct (working w) as [db|]; [|discriminate].
  destruct (rejects w); [discriminate|]. destruct (q db). discriminate.
Qed.

Lemma poolQuery_val {A} (q : DB -> A) w :
  rejects w = false -> poolQuery q w = (Val (q (committed w)), tick w).
Proof. intros Hr. unfold poolQuery. now rewrite Hr. Qed.

Lemma queryIn_val {I A} (ids : list I) (q : DB -> A) w db :
  ids <> [] -> working w = Some db -> rejects w = false ->
  queryIn ids q w = (Val (q db), tick (setWorking (Some db) w)).
Proof.
  intros Hi Hw Hr. unfold queryIn. destruct ids as [|i ids]; [congruence|].
  now rewrite (query_val _ _ _ Hw Hr).
Qed.

Lemma queryIn_val_inv {I A} (ids : list I) (q : DB -> A) w a w' :
  queryIn ids q w = (Val a, w') ->
  ids <> [] /\
  exists db, working w = Some db /\ rejects w = false /\ a = q db /\
             w' = tick (setWorking (Some db) w).
Proof.
  unfold queryIn. destruct ids as [|i ids]; [discriminate|]. intros H.
  split; [discriminate|]. apply query_val_inv in H.
  destruct H as (db & Hw & Hr & Ha & Hw'). now exists db.
Qed.

Lemma queryIn_exn_inv {I A} (ids : list I) (q : DB -> A) w e w' :
  queryIn ids q w = (Exn e, w') ->
  e = mkThrown StoreFailure StoreError /\ w' = tick w.
Proof.
  unfold queryIn. destruct ids as [|i ids].
  - intros H. now inversion H.
  - apply query_exn_inv.
Qed.

Lemma queryIn_not_ret {I A} (ids : list I) (q : DB -> A) w r w' :
  queryIn ids q w <> (Ret r, w').
Proof.
  unfold queryIn. destruct ids as [|i ids]; [discriminate|].
  apply query_not_ret.
Qed.

Lemma poolQueryIn_val {I A} (ids : list I) (q : DB -> A) w :
  ids <> [] -> rejects w = false ->
  poolQueryIn ids q w = (Val (q (committed w)), tick w).
Proof.
  intros Hi Hr. unfold poolQueryIn. destruct ids as [|i ids]; [congruence|].
  now apply poolQuery_val.
Qed.

Lemma poolQueryIn_val_inv {I A} (ids : list I) (q : DB -> A) w a w' :
  poolQueryIn ids q w = (Val a, w') ->
  ids <> [] /\ rejects w = false /\ a = q (committed w) /\ w' = tick w.
Proof.
  unfold poolQueryIn, poolQuery. destruct ids as [|i ids]; [discriminate|].
  destruct (rejects w); [discriminate|]. intros H. inversion H.
  repeat split. discriminate.
Qed.

(** ** What a computation leaves alone *)

#[local] Instance untouched_preorder : RelationClasses.PreOrder untouched.
Proof.
  split.
  - intros w. now split.
  - intros a b c [] []. split; congruence.
Qed.

#[local] Instance framed_preorder : RelationClasses.PreOrder framed.
Proof.
  split.
  - intros w. split; auto. intros db H. exists db. now repeat split.
  - intros a b c [Hc Hf Ht Hw] [Hc' Hf' Ht' Hw']. split; try congruence.
    intros db H. destruct (Hw db H) as (db1 & H1 & S1 & S2 & S3).
    destruct (Hw' db1 H1) as (db2 & H2 & T1 & T2 & T3).
    exists db2. unfold sameOrders. repeat split; congruence.
Qed.

#[local] Instance kept_preorder : RelationClasses.PreOrder kept.
Proof.
  split.
  - intros w. now split.
  - intros a b c [] []. split; congruence.
Qed.

Lemma untouched_framed w w' : untouched w w' -> framed w w'.
Proof.
  intros []. split; auto. intros db H. exists db.
  split; [congruence | now repeat split].
Qed.

Lemma framed_kept w w' : framed w w' -> kept w w'.
Proof. intros []. now split. Qed.

Section Stable.

Context {R : World -> World -> Prop} {R_preorder : RelationClasses.PreOrder R}.

Lemma stable_ret {A} (a : A) : stable R (ret a).
Proof. intros w o w' H. inversion H. reflexivity. Qed.

Lemma stable_throw {A} c v : stable R (@throw A c v).
Proof. intros w o w' H. inversion H. reflexivity. Qed.

Lemma stable_returnWith {A} r : stable R (@returnWith A r).
Proof. intros w o w' H. inversion H. reflexivity. Qed.

Lemma stable_deref {A} (o : option A) : stable R (deref o).
Proof. destruct o; [apply stable_ret | apply stable_throw]. Qed.

Lemma stable_bind {A B} (m : M A) (f : A -> M B) :
  stable R m -> (forall a, stable R (f a)) -> stable R (bind m f).
Proof.
  intros Hm Hf w o w'. unfold bind.
  destruct (m w) as [[a|r|e] w1] eqn:E; intros H.
  - transitivity w1; [eapply Hm | eapply Hf]; eauto.
  - inversion H; subst. eapply Hm; eauto.
  - inversion H; subst. eapply Hm; eauto.
Qed.

Lemma stable_promiseAll {A B} (f : A -> M B) l :
  (forall a, stable R (f a)) -> stable R (promiseAll f l).
Proof.
  intros Hf. induction l as [|a l IH]; simpl.
  - apply stable_ret.
  - intros w o w'.
    destruct (f a w) as [[b|r|e] w1] eqn:E1;
      destruct (promiseAll f l w1) as [o2 w2] eqn:E2;
      pose proof (Hf _ _ _ _ E1) as H1; pose proof (IH _ _ _ E2) as H2;
      simpl.
    + destruct o2; intros H; inversion H; subst; now transitivity w1.
    + intros H; inversion H; subst; now transitivity w1.
    + intros H; inversion H; subst; now transitivity w1.
Qed.

End Stable.

Lemma stable_weaken {A} (R R' : World -> World -> Prop) (m : M A) :
  (forall w w', R w w' -> R' w w') -> stable R m -> stable R' m.
Proof. intros HR Hm w o w' H. eapply HR, Hm, H. Qed.

Lemma untouched_logger l s : stable untouched (logger l s).
Proof. intros w o w' H. inversion H. now split. Qed.

Lemma untouched_read {A} (q : DB -> A) : stable untouched (query (readOnly q)).
Proof.
  intros w o w'. unfold query, readOnly.
  destruct (working w) as [db|] eqn:E.
  - destruct (rejects w); intros H; inversion H; now split.
  - intros H; inversion H; now split.
Qed.

Lemma untouched_pool {A} (q : DB -> A) : stable untouched (poolQuery q).
Proof.
  intros w o w'. unfold poolQuery.
  destruct (rejects w); intros H; inversion H; now split.
Qed.

Lemma untouched_readIn {I A} (ids : list I) (q : DB -> A) :
  stable untouched (queryIn ids q).
Proof.
  intros w o w'. unfold queryIn. destruct ids as [|i ids].
  - intros H. inversion H. now split.
  - apply untouched_read.
Qed.

Lemma untouched_poolIn {I A} (ids : list I) (q : DB -> A) :
  stable untouched (poolQueryIn ids q).
Proof.
  intros w o w'. unfold poolQueryIn. destruct ids as [|i ids].
  - intros H. inversion H. now split.
  - apply untouched_pool.
Qed.

Lemma kept_genId : stable kept genId.
Proof. intros w o w' H. inversion H. now split. Qed.

Lemma kept_query {A} (q : DB -> A * DB) : stable kept (query q).
Proof.
  intros w o w'. unfold query. destruct (working w) as [db|].
  - destruct (rejects w).
    + intros H; inversion H; now split.
    + destruct (q db). intros H; inversion H; now split.
  - intros H; inversion H; now split.
Qed.

Lemma framed_genId : stable framed genId.
Proof.
  intros w o w' H. inversion H. split; auto.
  intros db Hw. exists db. now repeat split.
Qed.

(** A call that writes [users] only. *)
Lemma framed_query {A} (q : DB -> A * DB) :
  (forall db, sameOrders db (snd (q db))) -> stable framed (query q).
Proof.
  intros Hq w o w'. unfold query. destruct (working w) as [db|] eqn:E.
  - destruct (rejects w).
    + intros H; inversion H. split; auto. simpl. intros d Hd. exists d.
      split; [congruence | now repeat split].
    + specialize (Hq db). destruct (q db) as [a db']. simpl in Hq.
      intros H; inversion H. split; auto. simpl. intros d Hd.
      exists db'. split; [reflexivity | congruence].
  - intros H; inversion H. split; auto. simpl. congruence.
Qed.

Create HintDb stable discriminated.
#[local] Hint Resolve untouched_logger untouched_read untouched_pool
  untouched_readIn untouched_poolIn
  kept_genId kept_query framed_genId : stable.

(** Splits a goal [stable R m] along the shape of [m]. *)
Ltac stable_step :=
  first
    [ solve [ eauto with stable ]
    | solve [ apply (stable_weaken untouched framed);
              [ exact untouched_framed | eauto with stable ] ]
    | solve [ apply (stable_weaken untouched kept);
              [ intros; now apply framed_kept, untouched_framed
              | eauto with stable ] ]
    | solve [ apply (stable_weaken framed kept);
              [ exact framed_kept | eauto with stable ] ]
    | apply stable_bind; [| intros ]
    | apply stable_promiseAll; intros
    | apply stable_ret | apply stable_throw | apply stable_returnWith
    | apply stable_deref
    | match goal with
      | |- stable _ (if ?b then _ else _) => destruct b
      | |- stable _ (match ?x with _ => _ end) => destruct x
      end ].

Ltac stable_tac := repeat stable_step.

(** ** Which values can be thrown *)

Lemma raises_ret {A} P (a : A) : raises P (ret a).
Proof. intros w e w' H. discriminate. Qed.

Lemma raises_returnWith {A} P r : raises P (@returnWith A r).
Proof. intros w e w' H. discriminate. Qed.

Lemma raises_logger P l s : raises P (logger l s).
Proof. intros w e w' H. discriminate. Qed.

Lemma raises_genId P : raises P genId.
Proof. intros w e w' H. discriminate. Qed.

Lemma raises_throw {A} (P : Thrown -> Prop) c v :
  P (mkThrown c v) -> raises P (@throw A c v).
Proof. intros HP w e w' H. inversion H. exact HP. Qed.

Lemma raises_deref {A} (P : Thrown -> Prop) (o : option A) :
  P (mkThrown UndefinedDereference TypeError) -> raises P (deref o).
Proof.
  intros HP. destruct o; [apply raises_ret | now apply raises_throw].
Qed.

Lemma raises_query {A} (P : Thrown -> Prop) (q : DB -> A * DB) :
  P (mkThrown StoreFailure StoreError) -> raises P (query q).
Proof.
  intros HP w e w' H. apply query_exn_inv in H. destruct H as [-> _].
  exact HP.
Qed.

Lemma raises_poolQuery {A} (P : Thrown -> Prop) (q : DB -> A) :
  P (mkThrown StoreFailure StoreError) -> raises P (poolQuery q).
Proof.
  intros HP w e w'. unfold poolQuery. destruct (rejects w); intros H.
  - inversion H. exact HP.
  - discriminate.
Qed.

Lemma raises_queryIn {I A} (P : Thrown -> Prop) (ids : list I) (q : DB -> A) :
  P (mkThrown StoreFailure StoreError) -> raises P (queryIn ids q).
Proof.
  intros HP w e w' H. apply queryIn_exn_inv in H. destruct H as [-> _].
  exact HP.
Qed.

Lemma raises_poolQueryIn {I A} (P : Thrown -> Prop) (ids : list I)
  (q : DB -> A) :
  P (mkThrown StoreFailure StoreError) -> raises P (poolQueryIn ids q).
Proof.
  intros HP w e w'. unfold poolQueryIn. destruct ids as [|i ids].
  - intros H. inversion H. exact HP.
  - now apply raises_poolQuery.
Qed.

Lemma raises_commit (P : Thrown -> Prop) :
  P (mkThrown StoreFailure StoreError) -> raises P transactionCommit.
Proof.
  intros HP w e w'. unfold transactionCommit.
  destruct (working w); [destruct (rejects w)|]; intros H;
    inversion H; try exact HP.
Qed.

Lemma raises_bind {A B} P (m : M A) (f : A -> M B) :
  raises P m -> (forall a, raises P (f a)) -> raises P (bind m f).
Proof.
  intros Hm Hf w e w' H. apply bind_exn_inv in H.
  destruct H as [H | (a & w1 & _ & H)]; [eapply Hm | eapply Hf]; eauto.
Qed.

Ltac raises_step :=
  first
    [ apply raises_bind; [| intros ]
    | apply raises_ret | apply raises_returnWith | apply raises_logger
    | apply raises_genId
    | apply raises_throw; simpl
    | apply raises_deref; simpl
    | apply raises_query; simpl
    | apply raises_poolQuery; simpl
    | apply raises_queryIn; simpl
    | apply raises_poolQueryIn; simpl
    | apply raises_commit; simpl
    | match goal with
      | |- raises _ (if ?b then _ else _) => destruct b
      | |- raises _ (match ?x with _ => _ end) => destruct x
      end ].

(** ** The steps of the mutation, one by one *)

(** No insert closes the transaction. *)
#[local] Instance stillOpen_preorder : RelationClasses.PreOrder stillOpen.
Proof.
  split.
  - intros w Hw. exact Hw.
  - intros a b c Hab Hbc Hw. apply Hbc, Hab, Hw.
Qed.

Lemma framed_open w w' : framed w w' -> stillOpen w w'.
Proof.
  intros [_ _ _ H] Hw. destruct (working w) as [db|]; [|congruence].
  destruct (H db eq_refl) as (db' & -> & _). discriminate.
Qed.

Lemma open_genId : stable stillOpen genId.
Proof. intros w o w' H. inversion H. intros Hw. exact Hw. Qed.

Lemma open_query {A} (q : DB -> A * DB) : stable stillOpen (query q).
Proof.
  intros w o w'. unfold stillOpen, query.
  destruct (working w) as [db|] eqn:E.
  - destruct (rejects w).
    + intros H. inversion H. simpl. now rewrite E.
    + destruct (q db). intros H. inversion H. discriminate.
  - intros H. inversion H. congruence.
Qed.

Lemma insertPledge_open pid d pledge u :
  stable stillOpen (insertPledge pid d pledge u).
Proof.
  unfold insertPledge.
  repeat first [apply open_genId | apply open_query | stable_step].
Qed.

Section Steps.

Variable t : string -> string.
Variable postfinanceSHA : uuid -> Z -> uuid -> uuid -> string.

Lemma checkOptions_untouched pid pkos plos :
  stable untouched (checkOptions t pid pkos plos).
Proof. induction plos as [|plo rest IH]; simpl; stable_tac. Qed.

Lemma checkTemplates_untouched pledge :
  stable untouched (checkTemplates t pledge).
Proof.
  pose proof checkOptions_untouched.
  unfold checkTemplates. stable_tac.
Qed.

Lemma checkTotal_untouched pledge pkos :
  stable untouched (checkTotal pledge pkos).
Proof. unfold checkTotal. stable_tac. Qed.

Lemma validatePricing_untouched pledge :
  stable untouched (validatePricing t pledge).
Proof.
  pose proof checkTemplates_untouched.
  pose proof checkTotal_untouched.
  unfold validatePricing. stable_tac.
Qed.

Lemma checkReason_untouched pledge d :
  stable untouched (checkReason t pledge d).
Proof. unfold checkReason. stable_tac. Qed.

Lemma resolveUser_framed req pledge :
  stable framed (resolveUser t req pledge).
Proof.
  unfold resolveUser. stable_tac.
  apply framed_query. intros db. now repeat split.
Qed.

Lemma syncUserProfile_framed pledge u :
  stable framed (syncUserProfile pledge u).
Proof.
  unfold syncUserProfile. stable_tac.
  apply framed_query. intros db. now repeat split.
Qed.

Lemma resolveAlias_framed a : stable framed (resolveAlias a).
Proof. unfold resolveAlias. stable_tac. Qed.

Lemma settle_framed req pledge pd :
  stable framed (settle t req pledge pd).
Proof.
  pose proof checkReason_untouched.
  pose proof resolveUser_framed.
  pose proof syncUserProfile_framed.
  pose proof resolveAlias_framed.
  unfold settle. stable_tac.
Qed.

Lemma beforeGuard_framed req pledge :
  stable framed (beforeGuard t req pledge).
Proof.
  pose proof validatePricing_untouched.
  pose proof settle_framed.
  unfold beforeGuard. stable_tac.
Qed.

Lemma rewardsOf_untouched uid : stable untouched (rewardsOf uid).
Proof. unfold rewardsOf. stable_tac. Qed.

Lemma reducedPledgeGuard_untouched d u :
  stable untouched (reducedPledgeGuard t d u).
Proof.
  pose proof rewardsOf_untouched.
  unfold reducedPledgeGuard. stable_tac.
Qed.

Lemma promiseAll_kept {A B} (f : A -> M B) l :
  (forall a, stable kept (f a)) -> stable kept (promiseAll f l).
Proof. apply stable_promiseAll. Qed.

Lemma insertPledge_kept pid d pledge u :
  stable kept (insertPledge pid d pledge u).
Proof. unfold insertPledge. stable_tac. Qed.

(** No statement inside [try] changes what the store refuses. *)
#[local] Instance sameOracle_preorder : RelationClasses.PreOrder sameOracle.
Proof.
  split.
  - intros w. reflexivity.
  - intros a b c Hab Hbc. unfold sameOracle in *. congruence.
Qed.

Lemma oracle_logger l s : stable sameOracle (logger l s).
Proof. intros w o w' H. now inversion H. Qed.

Lemma oracle_genId : stable sameOracle genId.
Proof. intros w o w' H. now inversion H. Qed.

Lemma oracle_query {A} (q : DB -> A * DB) : stable sameOracle (query q).
Proof.
  intros w o w'. unfold query. destruct (working w) as [db|].
  - destruct (rejects w).
    + intros H. now inversion H.
    + destruct (q db). intros H. now inversion H.
  - intros H. now inversion H.
Qed.

Lemma oracle_poolQuery {A} (q : DB -> A) : stable sameOracle (poolQuery q).
Proof.
  intros w o w'. unfold poolQuery.
  destruct (rejects w); intros H; now inversion H.
Qed.

Lemma oracle_queryIn {I A} (ids : list I) (q : DB -> A) :
  stable sameOracle (queryIn ids q).
Proof.
  intros w o w'. unfold queryIn. destruct ids as [|i ids].
  - intros H. now inversion H.
  - apply oracle_query.
Qed.

Lemma oracle_poolQueryIn {I A} (ids : list I) (q : DB -> A) :
  stable sameOracle (poolQueryIn ids q).
Proof.
  intros w o w'. unfold poolQueryIn. destruct ids as [|i ids].
  - intros H. now inversion H.
  - apply oracle_poolQuery.
Qed.

Lemma oracle_commit : stable sameOracle transactionCommit.
Proof.
  intros w o w'. unfold transactionCommit.
  destruct (working w); [destruct (rejects w)|]; intros H; now inversion H.
Qed.

#[local] Hint Resolve oracle_logger oracle_genId oracle_query
  oracle_poolQuery oracle_queryIn oracle_poolQueryIn oracle_commit : stable.

Lemma checkOptions_oracle pid pkos plos :
  stable sameOracle (checkOptions t pid pkos plos).
Proof. induction plos as [|plo rest IH]; simpl; stable_tac. Qed.

Lemma body_oracle req pledge :
  stable sameOracle (body t postfinanceSHA req pledge).
Proof.
  pose proof checkOptions_oracle.
  unfold body, beforeGuard, validatePricing, checkTemplates, checkTotal,
    settle, checkReason, resolveUser, syncUserProfile, resolveAlias,
    reducedPledgeGuard, rewardsOf, afterGuard, insertPledge.
  stable_tac.
Qed.

End Steps.

(** ** Rollback *)

Section Rollback.

Variable t : string -> string.
Variable postfinanceSHA : uuid -> Z -> uuid -> uuid -> string.

Lemma transactionCommit_exn_kept w e w' :
  transactionCommit w = (Exn e, w') -> kept w w'.
Proof.
  unfold transactionCommit.
  destruct (working w); [destruct (rejects w)|]; intros H; inversion H;
    now split.
Qed.

Lemma afterGuard_exn_kept pledge s w e w' :
  afterGuard postfinanceSHA pledge s w = (Exn e, w') -> kept w w'.
Proof.
  unfold afterGuard. intros H.
  apply bind_exn_inv in H. destruct H as [H | (pu & w1 & H1 & H)].
  - eapply insertPledge_kept; eauto.
  - apply insertPledge_kept in H1.
    apply bind_exn_inv in H. destruct H as [H | (u & w2 & _ & H)].
    + apply transactionCommit_exn_kept in H. now transitivity w1.
    + discriminate.
Qed.

(** A throw inside [try] happens with nothing committed and the
    transaction still open. *)
Lemma body_exn_kept req pledge w e w' :
  body t postfinanceSHA req pledge w = (Exn e, w') -> kept w w'.
Proof.
  unfold body. intros H.
  apply bind_exn_inv in H. destruct H as [H | (s & w1 & H1 & H)].
  - apply framed_kept. eapply beforeGuard_framed; eauto.
  - apply beforeGuard_framed, framed_kept in H1.
    apply bind_exn_inv in H. destruct H as [H | (u & w2 & H2 & H)].
    + apply reducedPledgeGuard_untouched, untouched_framed, framed_kept in H.
      now transitivity w1.
    + apply reducedPledgeGuard_untouched, untouched_framed, framed_kept
        in H2.
      apply afterGuard_exn_kept in H.
      transitivity w1; [assumption|]. now transitivity w2.
Qed.

(** A throw inside [try] leaves the transaction open. *)
Lemma body_exn_open req pledge w e w' :
  body t postfinanceSHA req pledge w = (Exn e, w') -> stillOpen w w'.
Proof.
  unfold body. intros H.
  apply bind_exn_inv in H. destruct H as [H | (s & w1 & H1 & H)].
  - eapply framed_open, beforeGuard_framed; eauto.
  - apply beforeGuard_framed, framed_open in H1.
    apply bind_exn_inv in H. destruct H as [H | (u & w2 & H2 & H)].
    + apply reducedPledgeGuard_untouched, untouched_framed, framed_open in H.
      now transitivity w1.
    + apply reducedPledgeGuard_untouched, untouched_framed, framed_open
        in H2.
      transitivity w1; [assumption|]. transitivity w2; [assumption|].
      unfold afterGuard in H.
      apply bind_exn_inv in H. destruct H as [H | (pu & w3 & H3 & H)].
      * eapply insertPledge_open; eauto.
      * apply insertPledge_open in H3. transitivity w3; [assumption|].
        apply bind_exn_inv in H. destruct H as [H | (u1 & w4 & _ & H)];
          [|discriminate].
        revert H. unfold transactionCommit.
        destruct (working w3); [destruct (rejects w3)|]; intros H;
          inversion H; intros Hw; exact Hw.
Qed.

(** The begin refused: its rejection leaves the function, nothing else
    happens. *)
Lemma submitPledge_refused req pledge w :
  refusesBegin w = true ->
  submitPledge t postfinanceSHA req pledge w = (Threw storeError, w).
Proof.
  intros Hb. unfold submitPledge, transactionBegin. now rewrite Hb.
Qed.

Lemma submitPledge_of_val req pledge w r w1 :
  refusesBegin w = false ->
  body t postfinanceSHA req pledge (begun w) = (Val r, w1) ->
  submitPledge t postfinanceSHA req pledge w = (Returned r, w1).
Proof.
  intros Hb H. unfold submitPledge, transactionBegin. now rewrite Hb, H.
Qed.

Lemma submitPledge_of_ret req pledge w r w1 :
  refusesBegin w = false ->
  body t postfinanceSHA req pledge (begun w) = (Ret r, w1) ->
  submitPledge t postfinanceSHA req pledge w = (Returned r, w1).
Proof.
  intros Hb H. unfold submitPledge, transactionBegin. now rewrite Hb, H.
Qed.

(** What [catch] makes of a throw inside [try] when the store performs
    the rollback. *)
Lemma submitPledge_of_throw req pledge w e w1 :
  refusesBegin w = false -> refusesRollback w = false ->
  body t postfinanceSHA req pledge (begun w) = (Exn e, w1) ->
  exists w',
    submitPledge t postfinanceSHA req pledge w = (Threw e, w') /\
    committed w' = committed w /\
    working w' = None /\
    trace w' = (trace w ++ [TxBegin; TxRollback])%list.
Proof.
  intros Hb Hr H. unfold submitPledge, transactionBegin. rewrite Hb, H.
  pose proof (body_oracle t postfinanceSHA _ _ _ _ _ H) as Ho. unfold sameOracle in Ho.
  simpl in Ho.
  apply body_exn_kept in H. destruct H as [Hc _ Ht].
  unfold rollbackAndRethrow, bind, transactionRollback, logger, rethrow.
  rewrite Ho, Hr. simpl.
  eexists. split; [reflexivity|]. simpl. repeat split.
  - exact Hc.
  - rewrite Ht. simpl. now rewrite <- app_assoc.
Qed.

(** What [catch] makes of it when the store refuses the rollback. *)
Lemma submitPledge_of_throw_open req pledge w e w1 :
  refusesBegin w = false -> refusesRollback w = true ->
  body t postfinanceSHA req pledge (begun w) = (Exn e, w1) ->
  submitPledge t postfinanceSHA req pledge w = (Threw storeError, w1).
Proof.
  intros Hb Hr H. unfold submitPledge, transactionBegin. rewrite Hb, H.
  pose proof (body_oracle t postfinanceSHA _ _ _ _ _ H) as Ho. unfold sameOracle in Ho.
  simpl in Ho.
  unfold rollbackAndRethrow, bind, transactionRollback.
  now rewrite Ho, Hr.
Qed.

(** The ways a call can end. *)
Lemma submitPledge_inv req pledge w o w' :
  submitPledge t postfinanceSHA req pledge w = (o, w') ->
  (refusesBegin w = true /\ o = Threw storeError /\ w' = w) \/
  (refusesBegin w = false /\
   ((exists r,
       o = Returned r /\
       (body t postfinanceSHA req pledge (begun w) = (Val r, w') \/
        body t postfinanceSHA req pledge (begun w) = (Ret r, w'))) \/
    (exists e w1,
       body t postfinanceSHA req pledge (begun w) = (Exn e, w1) /\
       ((refusesRollback w = false /\ o = Threw e /\
         w' = addLog (mkLog LInfo "transaction rollback") (rolledBack w1)) \/
        (refusesRollback w = true /\ o = Threw storeError /\ w' = w1))))).
Proof.
  destruct (refusesBegin w) eqn:Hb.
  - rewrite (submitPledge_refused _ _ _ Hb). intros H. inversion H. now left.
  - right. split; [reflexivity|].
    destruct (body t postfinanceSHA req pledge (begun w)) as [[r|r|e] w1]
      eqn:E.
    + rewrite (submitPledge_of_val _ _ _ _ _ Hb E) in H. inversion H.
      left. exists r. subst. auto.
    + rewrite (submitPledge_of_ret _ _ _ _ _ Hb E) in H. inversion H.
      left. exists r. subst. auto.
    + right. exists e, w1. split; [reflexivity|].
      destruct (refusesRollback w) eqn:Hr.
      * rewrite (submitPledge_of_throw_open _ _ _ _ _ Hb Hr E) in H.
        inversion H. right. auto.
      * left. revert H. unfold submitPledge, transactionBegin.
        rewrite Hb, E.
        pose proof (body_oracle t postfinanceSHA _ _ _ _ _ E) as Ho. unfold sameOracle in Ho.
        simpl in Ho.
        unfold rollbackAndRethrow, bind, transactionRollback, logger, rethrow.
        rewrite Ho, Hr. simpl. intros H. inversion H. auto.
Qed.

(** A value thrown to the caller was thrown inside [try], or is the
    store's rejection of the begin or of the rollback. *)
Lemma submitPledge_threw_inv req pledge w e w' :
  submitPledge t postfinanceSHA req pledge w = (Threw e, w') ->
  e = storeError \/
  exists w1, body t postfinanceSHA req pledge (begun w) = (Exn e, w1).
Proof.
  intros H. apply submitPledge_inv in H.
  destruct H as [(_ & H & _) | (_ & [(r & H & _) | (e0 & w1 & E & H)])].
  - inversion H. now left.
  - discriminate.
  - destruct H as [(_ & H & _) | (_ & H & _)]; inversion H; subst.
    + right. now exists w1.
    + now left.
Qed.

(** A value thrown to the caller that is not a rejection by the store was
    thrown inside [try]. *)
Lemma submitPledge_threw_cause req pledge w e w' :
  submitPledge t postfinanceSHA req pledge w = (Threw e, w') ->
  cause e <> StoreFailure ->
  exists w1, body t postfinanceSHA req pledge (begun w) = (Exn e, w1).
Proof.
  intros H Hc. apply submitPledge_threw_inv in H.
  destruct H as [-> | H]; [now contradiction Hc | exact H].
Qed.

(** A refused begin or a throw inside [try] ends in a throw to the caller,
    with nothing committed. *)
Lemma submitPledge_throws req pledge w :
  (refusesBegin w = true \/
   exists e w1, body t postfinanceSHA req pledge (begun w) = (Exn e, w1)) ->
  exists e' w',
    submitPledge t postfinanceSHA req pledge w = (Threw e', w') /\
    committed w' = committed w.
Proof.
  intros H. destruct (refusesBegin w) eqn:Hb.
  - exists storeError, w. now rewrite (submitPledge_refused _ _ _ Hb).
  - destruct H as [H | (e & w1 & H)]; [discriminate|].
    destruct (refusesRollback w) eqn:Hr.
    + exists storeError, w1.
      rewrite (submitPledge_of_throw_open _ _ _ _ _ Hb Hr H).
      split; [reflexivity|]. apply body_exn_kept in H. now destruct H.
    + destruct (submitPledge_of_throw _ _ _ _ _ Hb Hr H)
        as (w' & Hs & Hc & _).
      now exists e, w'.
Qed.

(** What reaches the caller when the code inside [try] throws. *)
Lemma submitPledge_of_exn req pledge w e w1 :
  body t postfinanceSHA req pledge (begun w) = (Exn e, w1) ->
  exists e' w',
    submitPledge t postfinanceSHA req pledge w = (Threw e', w') /\
    committed w' = committed w /\
    (e' = e \/ e' = storeError) /\
    (refusesBegin w = false -> refusesRollback w = false ->
     e' = e /\ working w' = None /\
     trace w' = (trace w ++ [TxBegin; TxRollback])%list).
Proof.
  intros H. destruct (refusesBegin w) eqn:Hb.
  - exists storeError, w. rewrite (submitPledge_refused _ _ _ Hb).
    repeat split; auto; discriminate.
  - destruct (refusesRollback w) eqn:Hr.
    + exists storeError, w1.
      rewrite (submitPledge_of_throw_open _ _ _ _ _ Hb Hr H).
      split; [reflexivity|]. split; [|split; [now right | discriminate]].
      apply body_exn_kept in H. now destruct H.
    + destruct (submitPledge_of_throw _ _ _ _ _ Hb Hr H)
        as (w' & Hs & Hc & Hw & Ht).
      exists e, w'. repeat split; auto.
Qed.

Lemma validatePricing_no_options pledge w :
  PledgeInput.options pledge = [] ->
  validatePricing t pledge w = (Exn storeError, tick w).
Proof.
  intros Hnil. unfold validatePricing, checkTemplates. now rewrite Hnil.
Qed.

End Rollback.

(** C2. A failure before the commit. When the store refuses the begin, its
    rejection is thrown to the caller and nothing has happened. When a
    statement inside [try] throws (any step up to and including the
    commit), the mutation throws and the committed store is what it was
    before the call. If the store performs the rollback, the value thrown
    to the caller is the one thrown inside [try], the transaction's working
    copy with every row written in it is dropped, and the transaction
    events are the begin and the rollback. If the store refuses the
    rollback, the value thrown to the caller is the store's rejection, not
    the one thrown inside [try], and the transaction stays open as the
    throw left it, with the begin as the only event. *)
Theorem failure_rolls_back :
  forall t postfinanceSHA req pledge w,
    (refusesBegin w = true ->
     submitPledge t postfinanceSHA req pledge w = (Threw storeError, w)) /\
    (forall e w1,
       refusesBegin w = false ->
       body t postfinanceSHA req pledge (begun w) = (Exn e, w1) ->
       exists e' w',
         submitPledge t postfinanceSHA req pledge w = (Threw e', w') /\
         committed w' = committed w /\
         if refusesRollback w
         then e' = storeError /\ w' = w1 /\ working w' <> None /\
              trace w' = (trace w ++ [TxBegin])%list
         else e' = e /\ working w' = None /\
              trace w' = (trace w ++ [TxBegin; TxRollback])%list).
Proof.
  intros t sha req pledge w. split.
  - apply submitPledge_refused.
  - intros e w1 Hb H. destruct (refusesRollback w) eqn:Hr.
    + exists storeError, w1.
      rewrite (submitPledge_of_throw_open t sha _ _ _ _ _ Hb Hr H).
      pose proof (body_exn_open t sha _ _ _ _ _ H) as Ho.
      apply body_exn_kept in H. destruct H as [Hc _ Ht].
      repeat split; auto. apply Ho. discriminate.
    + destruct (submitPledge_of_throw t sha _ _ _ _ _ Hb Hr H)
        as (w' & Hs & Hc & Hw & Ht).
      exists e, w'. repeat split; auto.
Qed.

(** C10. A submission with no options never succeeds: the store rejects
    the lookup of the templates, which is by an empty list of ids, so the
    mutation throws before [packageOptions[0].packageId] is read (or the
    begin was refused), and the committed store, hence its Pledge and
    PledgeOption rows, is unchanged; the rollback once performed, no
    transaction is left open. *)
Theorem empty_options_fail :
  forall t postfinanceSHA req pledge w,
    PledgeInput.options pledge = [] ->
    exists e w',
      submitPledge t postfinanceSHA req pledge w = (Threw e, w') /\
      cause e = StoreFailure /\
      committed w' = committed w /\
      (refusesBegin w = false -> refusesRollback w = false ->
       working w' = None).
Proof.
  intros t sha req pledge w Hnil.
  destruct (refusesBegin w) eqn:Hb.
  { exists storeError, w. rewrite (submitPledge_refused _ _ _ _ _ Hb).
    repeat split. discriminate. }
  pose proof (validatePricing_no_options t pledge (begun w) Hnil) as Hv.
  assert (Hbody : body t sha req pledge (begun w)
                  = (Exn storeError, tick (begun w))).
  { unfold body, beforeGuard.
    erewrite bind_exn; [reflexivity|].
    erewrite bind_exn; [reflexivity|]. exact Hv. }
  destruct (refusesRollback w) eqn:Hr.
  - exists storeError, (tick (begun w)).
    rewrite (submitPledge_of_throw_open _ _ _ _ _ _ _ Hb Hr Hbody).
    repeat split. discriminate.
  - destruct (submitPledge_of_throw t sha req pledge w _ _ Hb Hr Hbody)
      as (w' & Hs & Hcm & Hw & _).
    exists storeError, w'. auto.
Qed.

(** ** Lookups and sums *)

Lemma inIds_In i ids : inIds i ids = true <-> In i ids.
Proof.
  unfold inIds. rewrite existsb_exists. split.
  - intros (j & Hj & E). apply N.eqb_eq in E. now subst.
  - intros H. exists i. split; [assumption | apply N.eqb_refl].
Qed.

Lemma inOptIds_In i ids : inOptIds i ids = true <-> In (Some i) ids.
Proof.
  unfold inOptIds. rewrite existsb_exists. split.
  - intros ([j|] & Hj & E); [|discriminate].
    apply N.eqb_eq in E. now subst.
  - intros H. exists (Some i). split; [assumption | apply N.eqb_refl].
Qed.

(** Looking a requested id up among the loaded templates is looking it up
    in the catalog. *)
Lemma findTemplate_loaded ids catalog tid :
  In tid ids ->
  findTemplate (filter (fun pko => inIds (PackageOption.id pko) ids) catalog)
               tid
  = findTemplate catalog tid.
Proof.
  intros Hin. unfold findTemplate.
  induction catalog as [|pko l IH]; simpl; [reflexivity|].
  destruct (inIds (PackageOption.id pko) ids) eqn:E; simpl.
  - now rewrite IH.
  - destruct (N.eqb (PackageOption.id pko) tid) eqn:E'; [|exact IH].
    apply N.eqb_eq in E'. subst tid.
    apply inIds_In in Hin. congruence.
Qed.

Section Reduce.

Variable term : PackageOption.t -> PledgeOptionInput.t -> Z.
Variable pkos : list PackageOption.t.

Lemma fold_step_none plos :
  fold_left (reduceStep term pkos) plos None = None.
Proof. induction plos as [|plo l IH]; simpl; auto. Qed.

Lemma fold_step_some plos a s :
  fold_left (reduceStep term pkos) plos (Some a) = Some s ->
  s = a + fold_right Z.add 0 (map (foundTerm term pkos) plos) /\
  forall plo, In plo plos ->
    findTemplate pkos (PledgeOptionInput.templateId plo) <> None.
Proof.
  revert a. induction plos as [|plo l IH];
    cbn [fold_left map fold_right]; intros a H.
  - inversion H. split; [lia | simpl; tauto].
  - unfold foundTerm at 1.
    change (reduceStep term pkos (Some a) plo)
      with (match findTemplate pkos (PledgeOptionInput.templateId plo) with
            | Some pko => Some (a + term pko plo)
            | None => None
            end) in H.
    destruct (findTemplate pkos (PledgeOptionInput.templateId plo))
      as [pko|] eqn:E.
    + apply IH in H. destruct H as [-> Hall]. split; [lia|].
      intros q [<-|Hq]; [congruence | auto].
    + rewrite fold_step_none in H. discriminate.
Qed.

Lemma fold_step_found plos a :
  (forall plo, In plo plos ->
     findTemplate pkos (PledgeOptionInput.templateId plo) <> None) ->
  fold_left (reduceStep term pkos) plos (Some a)
  = Some (a + fold_right Z.add 0 (map (foundTerm term pkos) plos)).
Proof.
  revert a. induction plos as [|plo l IH];
    cbn [fold_left map fold_right]; intros a Hall.
  - f_equal. lia.
  - unfold foundTerm at 1.
    change (reduceStep term pkos (Some a) plo)
      with (match findTemplate pkos (PledgeOptionInput.templateId plo) with
            | Some pko => Some (a + term pko plo)
            | None => None
            end).
    destruct (findTemplate pkos (PledgeOptionInput.templateId plo))
      as [pko|] eqn:E.
    + rewrite IH by (intros q Hq; apply Hall; now right). f_equal. lia.
    + exfalso. apply (Hall plo); [now left | exact E].
Qed.

Lemma reduceOptions_some plos s :
  reduceOptions term pkos plos = Some s ->
  s = fold_right Z.add 0 (map (foundTerm term pkos) plos) /\
  forall plo, In plo plos ->
    findTemplate pkos (PledgeOptionInput.templateId plo) <> None.
Proof. intros H. apply fold_step_some in H. exact H. Qed.

Lemma reduceOptions_found plos :
  (forall plo, In plo plos ->
     findTemplate pkos (PledgeOptionInput.templateId plo) <> None) ->
  reduceOptions term pkos plos
  = Some (fold_right Z.add 0 (map (foundTerm term pkos) plos)).
Proof. intros H. apply (fold_step_found plos 0) in H. exact H. Qed.

End Reduce.

Lemma minTerm_unit pko plo :
  minTerm pko plo = PledgeOptionInput.amount plo * unitMinPrice pko.
Proof. unfold minTerm, unitMinPrice. destruct (PackageOption.userPrice pko); lia. Qed.

Lemma regularTerm_unit pko plo :
  regularTerm pko plo
  = PledgeOptionInput.amount plo * PackageOption.price pko.
Proof. unfold regularTerm. lia. Qed.

Lemma findTemplate_loadedTemplates db plos plo :
  In plo plos ->
  findTemplate (loadedTemplates db plos) (PledgeOptionInput.templateId plo)
  = templateOf db plo.
Proof.
  intros H. unfold loadedTemplates, packageOptions_find, templateOf.
  apply findTemplate_loaded. now apply in_map.
Qed.

(** The sum the code folds over the loaded templates is the sum of the
    specification over the catalog. *)
Lemma loaded_sum term unit db plos :
  (forall pko plo, term pko plo = PledgeOptionInput.amount plo * unit pko) ->
  fold_right Z.add 0 (map (foundTerm term (loadedTemplates db plos)) plos)
  = spec_sum unit db plos.
Proof.
  intros Hterm. unfold spec_sum. f_equal. apply map_ext_in.
  intros plo Hin. unfold foundTerm.
  rewrite findTemplate_loadedTemplates by exact Hin.
  destruct (templateOf db plo); auto.
Qed.

Lemma minTotal_loaded_some db plos m :
  minTotal (loadedTemplates db plos) plos = Some m ->
  m = spec_minTotal db plos.
Proof.
  unfold minTotal.
  destruct (reduceOptions minTerm (loadedTemplates db plos) plos)
    as [s|] eqn:E; [|discriminate].
  simpl. intros H. inversion H.
  apply reduceOptions_some in E. destruct E as [-> _].
  rewrite (loaded_sum minTerm unitMinPrice) by apply minTerm_unit.
  unfold spec_minTotal. apply Z.max_comm.
Qed.

Lemma regularTotal_loaded_some db plos r :
  regularTotal (loadedTemplates db plos) plos = Some r ->
  r = spec_regularTotal db plos.
Proof.
  unfold regularTotal.
  destruct (reduceOptions regularTerm (loadedTemplates db plos) plos)
    as [s|] eqn:E; [|discriminate].
  simpl. intros H. inversion H.
  apply reduceOptions_some in E. destruct E as [-> _].
  rewrite (loaded_sum regularTerm PackageOption.price)
    by apply regularTerm_unit.
  unfold spec_regularTotal. apply Z.max_comm.
Qed.

Lemma minTotal_loaded_found db plos :
  (forall plo, In plo plos ->
     findTemplate (loadedTemplates db plos)
                  (PledgeOptionInput.templateId plo) <> None) ->
  minTotal (loadedTemplates db plos) plos = Some (spec_minTotal db plos).
Proof.
  intros H. unfold minTotal. rewrite reduceOptions_found by exact H.
  simpl. rewrite (loaded_sum minTerm unitMinPrice) by apply minTerm_unit.
  unfold spec_minTotal. now rewrite Z.max_comm.
Qed.

Lemma regularTotal_loaded_found db plos :
  (forall plo, In plo plos ->
     findTemplate (loadedTemplates db plos)
                  (PledgeOptionInput.templateId plo) <> None) ->
  regularTotal (loadedTemplates db plos) plos
  = Some (spec_regularTotal db plos).
Proof.
  intros H. unfold regularTotal. rewrite reduceOptions_found by exact H.
  simpl. rewrite (loaded_sum regularTerm PackageOption.price)
    by apply regularTerm_unit.
  unfold spec_regularTotal. now rewrite Z.max_comm.
Qed.

(** ** The pricing checks *)

Section Pricing.

Variable t : string -> string.

Lemma checkOptions_val_inv pid pkos plos w u w' :
  checkOptions t pid pkos plos w = (Val u, w') ->
  w' = w /\
  forall plo, In plo plos ->
    exists pko,
      findTemplate pkos (PledgeOptionInput.templateId plo) = Some pko /\
      PackageOption.packageId pko = pid /\
      amountCondition pko plo = true.
Proof.
  induction plos as [|plo rest IH]; simpl; intros H.
  - inversion H. split; [reflexivity | tauto].
  - apply bind_val_inv in H. destruct H as (pko & w1 & Hd & H).
    destruct (findTemplate pkos (PledgeOptionInput.templateId plo))
      as [pko0|] eqn:E; [|discriminate].
    inversion Hd; subst pko0 w1.
    destruct (N.eqb pid (PackageOption.packageId pko)) eqn:Ep; simpl in H;
      [|discriminate].
    destruct (amountCondition pko plo) eqn:Ea; simpl in H; [|discriminate].
    apply IH in H. destruct H as [-> Hall]. split; [reflexivity|].
    intros q [<-|Hq]; [|auto].
    exists pko. apply N.eqb_eq in Ep. auto.
Qed.

(** What is known once the template checks have passed. *)
Lemma checkTemplates_val_inv pledge w cp w' :
  checkTemplates t pledge w = (Val cp, w') ->
  exists db first,
    working w = Some db /\ rejects w = false /\
    w' = tick w /\
    snd cp = loadedTemplates db (PledgeInput.options pledge) /\
    (List.length (PledgeInput.options pledge) <= List.length (snd cp))%nat /\
    nth_error (snd cp) 0 = Some first /\
    fst cp = PackageOption.packageId first /\
    forall plo, In plo (PledgeInput.options pledge) ->
      exists pko,
        findTemplate (snd cp) (PledgeOptionInput.templateId plo) = Some pko /\
        PackageOption.packageId pko = fst cp /\
        amountCondition pko plo = true.
Proof.
  unfold checkTemplates. intros H.
  apply bind_val_inv in H. destruct H as (pkos & w1 & Hq & H).
  apply queryIn_val_inv in Hq. destruct Hq as (_ & db & Hw & Hr & Hp & Hw1).
  apply bind_val_inv in H. destruct H as (u & w2 & Hlen & H).
  destruct (List.length pkos <? List.length (PledgeInput.options pledge))%nat
    eqn:El; [discriminate|].
  inversion Hlen; subst w2. clear Hlen.
  apply bind_val_inv in H. destruct H as (first & w3 & Hf & H).
  destruct (nth_error pkos 0) as [f|] eqn:En; [|discriminate].
  inversion Hf; subst f w3. clear Hf.
  apply bind_val_inv in H. destruct H as (u' & w4 & Hc & H).
  apply checkOptions_val_inv in Hc. destruct Hc as [-> Hall].
  inversion H; subst cp w'. simpl.
  exists db, first. apply Nat.ltb_ge in El.
  repeat split; auto.
  - subst w1. destruct w; simpl in *. now rewrite Hw.
Qed.

Lemma checkTotal_eval pledge pkos m r w :
  minTotal pkos (PledgeInput.options pledge) = Some m ->
  regularTotal pkos (PledgeInput.options pledge) = Some r ->
  checkTotal pledge pkos w
  = if PledgeInput.total pledge <? m
    then (Exn (mkThrown TotalBelowMinimum (ReferenceError "total")), w)
    else (Val (PledgeInput.total pledge - r), w).
Proof.
  intros Hm Hr. unfold checkTotal. rewrite Hm, Hr. simpl.
  unfold bind, ret, throw.
  now destruct (PledgeInput.total pledge <? m).
Qed.

Lemma checkTotal_val_inv pledge pkos w d w' :
  checkTotal pledge pkos w = (Val d, w') ->
  exists m r,
    minTotal pkos (PledgeInput.options pledge) = Some m /\
    regularTotal pkos (PledgeInput.options pledge) = Some r /\
    m <= PledgeInput.total pledge /\
    d = PledgeInput.total pledge - r /\ w' = w.
Proof.
  unfold checkTotal. intros H.
  destruct (minTotal pkos (PledgeInput.options pledge)) as [m|];
    [|discriminate].
  destruct (regularTotal pkos (PledgeInput.options pledge)) as [r|].
  - simpl in H. unfold bind, ret, throw in H.
    destruct (PledgeInput.total pledge <? m) eqn:E; [discriminate|].
    inversion H. exists m, r. apply Z.ltb_ge in E. auto.
  - simpl in H. unfold bind, ret, throw in H.
    destruct (PledgeInput.total pledge <? m); discriminate.
Qed.

(** What is known once pricing has been validated. *)
Lemma validatePricing_val_inv pledge w pd w' :
  validatePricing t pledge w = (Val pd, w') ->
  exists db,
    working w = Some db /\ rejects w = false /\ w' = tick w /\
    spec_minTotal db (PledgeInput.options pledge)
      <= PledgeInput.total pledge /\
    snd pd = PledgeInput.total pledge
             - spec_regularTotal db (PledgeInput.options pledge).
Proof.
  unfold validatePricing. intros H.
  apply bind_val_inv in H. destruct H as (cp & w1 & Hc & H).
  apply checkTemplates_val_inv in Hc.
  destruct Hc as (db & first & Hw & Hr & -> & Hl & _).
  apply bind_val_inv in H. destruct H as (d & w2 & Ht & H).
  apply checkTotal_val_inv in Ht.
  destruct Ht as (m & r & Hm & Hrg & Hle & -> & ->).
  inversion H; subst pd w'. simpl.
  rewrite Hl in Hm, Hrg.
  apply minTotal_loaded_some in Hm. apply regularTotal_loaded_some in Hrg.
  subst m r. exists db. auto.
Qed.

(** Once pricing has been validated, the folded regular total is that of
    the specification. *)
Lemma validatePricing_regularTotal pledge w pd w' :
  validatePricing t pledge w = (Val pd, w') ->
  exists db,
    working w = Some db /\
    regularTotal (loadedTemplates db (PledgeInput.options pledge))
                 (PledgeInput.options pledge)
    = Some (spec_regularTotal db (PledgeInput.options pledge)).
Proof.
  unfold validatePricing. intros H.
  apply bind_val_inv in H. destruct H as (cp & w1 & Hc & H).
  apply checkTemplates_val_inv in Hc.
  destruct Hc as (db & first & Hw & _ & _ & Hl & _ & _ & _ & Hall).
  exists db. split; [exact Hw|].
  apply regularTotal_loaded_found. intros plo Hin.
  destruct (Hall plo Hin) as (pko & E & _). rewrite <- Hl. congruence.
Qed.

End Pricing.

(** ** The values each step throws *)

Lemma raises_weaken {A} (P Q : Thrown -> Prop) (m : M A) :
  (forall e, P e -> Q e) -> raises P m -> raises Q m.
Proof. intros HPQ Hm w e w' H. eapply HPQ, Hm, H. Qed.

Lemma raises_promiseAll {A B} P (f : A -> M B) l :
  (forall a, raises P (f a)) -> raises P (promiseAll f l).
Proof.
  intros Hf. induction l as [|a l IH]; simpl.
  - apply raises_ret.
  - intros w e w'.
    destruct (f a w) as [[b|r|e1] w1] eqn:E1.
    + destruct (promiseAll f l w1) as [[bs|r|e2] w2] eqn:E2;
        intros H; inversion H; subst. eapply IH; eauto.
    + discriminate.
    + intros H. inversion H; subst. eapply Hf; eauto.
Qed.

Ltac raises_tac :=
  repeat first
    [ assumption
    | raises_step
    | match goal with
      | |- raises _ _ => fail 1
      | _ => solve [ simpl; auto 12 ]
      end ].

Section Thrown.

Variable t : string -> string.
Variable postfinanceSHA : uuid -> Z -> uuid -> uuid -> string.

Lemma checkOptions_raises pid pkos plos :
  raises (fun e => In e (thrownByCheckOptions t))
         (checkOptions t pid pkos plos).
Proof.
  induction plos as [|plo rest IH]; simpl; unfold thrownByCheckOptions;
    raises_tac.
Qed.

Lemma checkTemplates_raises pledge :
  raises (fun e => In e (thrownByCheckTemplates t)) (checkTemplates t pledge).
Proof.
  unfold checkTemplates, thrownByCheckTemplates, thrownByCheckOptions.
  raises_tac.
  eapply raises_weaken; [|apply checkOptions_raises].
  intros e H. now do 2 right.
Qed.

Lemma checkTotal_raises pledge pkos :
  raises (fun e => In e thrownByCheckTotal) (checkTotal pledge pkos).
Proof. unfold checkTotal, thrownByCheckTotal. raises_tac. Qed.

Lemma settle_raises req pledge pd :
  raises (fun e => In e (thrownBySettle t)) (settle t req pledge pd).
Proof.
  unfold settle, checkReason, resolveUser, syncUserProfile, resolveAlias,
    thrownBySettle.
  raises_tac.
Qed.

Lemma reducedPledgeGuard_raises d u :
  raises (fun e => In e (thrownByGuard t)) (reducedPledgeGuard t d u).
Proof.
  unfold reducedPledgeGuard, rewardsOf, thrownByGuard. raises_tac.
Qed.

Lemma afterGuard_raises pledge s :
  raises (fun e => In e thrownByAfterGuard)
         (afterGuard postfinanceSHA pledge s).
Proof.
  unfold afterGuard, insertPledge, thrownByAfterGuard. raises_tac.
  apply raises_promiseAll. intros plo. raises_tac.
Qed.

(** Every value the mutation throws, with the site it is thrown at. *)
Lemma body_raises req pledge :
  raises (fun e => In e (thrownByCheckTemplates t ++ thrownByCheckTotal
                         ++ thrownBySettle t ++ thrownByGuard t
                         ++ thrownByAfterGuard))
         (body t postfinanceSHA req pledge).
Proof.
  unfold body.
  apply raises_bind;
    [ unfold beforeGuard; apply raises_bind;
      [ unfold validatePricing; apply raises_bind;
        [ | intros cp; apply raises_bind;
            [ | intros d; apply raises_ret ] ]
      | intros pd ]
    | intros s; apply raises_bind; [ | intros u ] ].
  - eapply raises_weaken; [|apply checkTemplates_raises].
    intros e H. apply in_or_app. now left.
  - eapply raises_weaken; [|apply checkTotal_raises].
    intros e H. apply in_or_app. right. apply in_or_app. now left.
  - eapply raises_weaken; [|apply settle_raises].
    intros e H. do 2 (apply in_or_app; right). apply in_or_app. now left.
  - eapply raises_weaken; [|apply reducedPledgeGuard_raises].
    intros e H. do 3 (apply in_or_app; right). apply in_or_app. now left.
  - eapply raises_weaken; [|apply afterGuard_raises].
    intros e H. do 4 (apply in_or_app; right). exact H.
Qed.

End Thrown.

(** ** The total check *)

Ltac not_thrown H Hc :=
  simpl in H;
  repeat (destruct H as [H|H]; [subst; simpl in Hc; discriminate Hc|]);
  contradiction.

(** C3. Once the template and amount checks have passed, the minimum total
    the code computes from the loaded templates is
    [max(100, sum of amount_i * (minUserPrice_i if userPrice_i else price_i))]
    taken over the catalog, and the mutation fails at the total check
    exactly when the submitted total is strictly below it (the store
    performing the begin and the rollback). *)
Theorem total_below_minimum :
  forall t postfinanceSHA req pledge w cp w1,
    checkTemplates t pledge (begun w) = (Val cp, w1) ->
    minTotal (snd cp) (PledgeInput.options pledge)
    = Some (spec_minTotal (committed w) (PledgeInput.options pledge)) /\
    (refusesBegin w = false -> refusesRollback w = false ->
     ((exists e w',
         submitPledge t postfinanceSHA req pledge w = (Threw e, w') /\
         cause e = TotalBelowMinimum)
      <-> PledgeInput.total pledge
          < spec_minTotal (committed w) (PledgeInput.options pledge))).
Proof.
  intros t sha req pledge w cp w1 H.
  pose proof (checkTemplates_val_inv t pledge _ cp w1 H)
    as (db & first & Hw & _ & _ & Hl & _ & _ & _ & Hall).
  simpl in Hw. inversion Hw; subst db. clear Hw.
  assert (Hfound : forall plo, In plo (PledgeInput.options pledge) ->
            findTemplate (loadedTemplates (committed w)
                                          (PledgeInput.options pledge))
                         (PledgeOptionInput.templateId plo) <> None).
  { intros plo Hin. destruct (Hall plo Hin) as (pko & E & _).
    rewrite <- Hl. congruence. }
  pose proof (minTotal_loaded_found _ _ Hfound) as Hm.
  pose proof (regularTotal_loaded_found _ _ Hfound) as Hr.
  rewrite <- Hl in Hm, Hr. split; [exact Hm|]. intros Hbegin Hroll.
  set (m := spec_minTotal (committed w) (PledgeInput.options pledge)) in *.
  set (r := spec_regularTotal (committed w) (PledgeInput.options pledge)) in *.
  assert (Hvp : validatePricing t pledge (begun w)
                = if PledgeInput.total pledge <? m
                  then (Exn totalUndeclared, w1)
                  else (Val (fst cp, PledgeInput.total pledge - r), w1)).
  { unfold validatePricing. rewrite (bind_val _ _ _ _ _ H).
    unfold bind. rewrite (checkTotal_eval pledge _ m r w1 Hm Hr).
    now destruct (PledgeInput.total pledge <? m). }
  split.
  - intros (e & w' & Hs & Hc).
    destruct (Z.ltb_spec (PledgeInput.total pledge) m) as [Hlt|Hge];
      [exact Hlt|exfalso].
    apply submitPledge_threw_cause in Hs; [|rewrite Hc; discriminate].
    destruct Hs as (w2 & Hb).
    unfold body in Hb. apply bind_exn_inv in Hb.
    destruct Hb as [Hb | (s & w3 & _ & Hb)].
    + unfold beforeGuard in Hb. apply bind_exn_inv in Hb.
      destruct Hb as [Hb | (pd & w4 & _ & Hb)].
      * rewrite Hvp in Hb. discriminate.
      * apply settle_raises in Hb. not_thrown Hb Hc.
    + apply bind_exn_inv in Hb. destruct Hb as [Hb | (u & w4 & _ & Hb)].
      * apply reducedPledgeGuard_raises in Hb. not_thrown Hb Hc.
      * apply afterGuard_raises in Hb. not_thrown Hb Hc.
  - intros Hlt. apply Z.ltb_lt in Hlt. rewrite Hlt in Hvp.
    assert (Hb : body t sha req pledge (begun w)
                 = (Exn totalUndeclared, w1)).
    { unfold body, beforeGuard.
      erewrite bind_exn; [reflexivity|].
      erewrite bind_exn; [reflexivity|]. exact Hvp. }
    destruct (submitPledge_of_throw t sha req pledge w _ _ Hbegin Hroll Hb)
      as (w' & Hs & _).
    exists totalUndeclared, w'. split; [exact Hs | reflexivity].
Qed.

Lemma total_below_minimum_witness :
  minTotal [Fixture.tplA; Fixture.tplB]
           (PledgeInput.options (Fixture.cart 2000 None Fixture.bob))
  = Some (spec_minTotal Fixture.store
            (PledgeInput.options (Fixture.cart 2000 None Fixture.bob))) /\
  ((exists e w',
      submitPledge Fixture.t Fixture.postfinanceSHA Fixture.anonymous
                   (Fixture.cart 2000 None Fixture.bob) Fixture.world
      = (Threw e, w') /\
      cause e = TotalBelowMinimum)
   <-> 2000 < spec_minTotal Fixture.store
                (PledgeInput.options (Fixture.cart 2000 None Fixture.bob))).
Proof.
  destruct (total_below_minimum Fixture.t Fixture.postfinanceSHA
              Fixture.anonymous (Fixture.cart 2000 None Fixture.bob)
              Fixture.world (10%N, [Fixture.tplA; Fixture.tplB])
              (tick (begun Fixture.world))) as [Hm Hiff].
  - vm_compute. reflexivity.
  - split; [exact Hm | exact (Hiff eq_refl eq_refl)].
Defined.

(** The example of the specification: three of A and one of B, with A's
    minimum user price of 800, have a minimum total of 2900 and a regular
    total of 3500. *)
Example spec_example_totals :
  spec_minTotal Fixture.store [Fixture.optA 3; Fixture.optB 1] = 2900 /\
  spec_regularTotal Fixture.store [Fixture.optA 3; Fixture.optB 1] = 3500.
Proof. split; reflexivity. Qed.

(** ** Witnesses of the rollback *)

(** In that run the sixth store call, the insert of the second option, is
    rejected: the working copy then holds the new user, the new pledge and
    its first option, and none of them is in the store afterwards. *)
Example rollback_discards_rows :
  let run := body Fixture.t Fixture.postfinanceSHA Fixture.anonymous
                  (Fixture.cart 3500 None Fixture.bob)
                  (begun (Fixture.worldFailing 5)) in
  let after := submitPledge Fixture.t Fixture.postfinanceSHA Fixture.anonymous
                 (Fixture.cart 3500 None Fixture.bob)
                 (Fixture.worldFailing 5) in
  option_map (fun db => (List.length (users db), List.length (pledges db),
                         List.length (pledgeOptions db)))
             (working (snd run)) = Some (3, 3, 2)%nat /\
  committed (snd after) = Fixture.store.
Proof. vm_compute. split; reflexivity. Qed.

(** Alice submits in her session under another first name, a reduced
    pledge with a reason: her row is renamed inside the transaction, then
    the guard throws. The store performing the rollback, that throw reaches
    the caller and the renamed row is dropped. *)
Lemma failure_rolls_back_witness :
  option_map users
    (working (snd (body Fixture.t Fixture.postfinanceSHA Fixture.asAlice
                     (Fixture.cart 3000 (Some "student") Fixture.aliciaInput)
                     (begun Fixture.world))))
  <> Some (users Fixture.store) /\
  exists e' w',
    submitPledge Fixture.t Fixture.postfinanceSHA Fixture.asAlice
                 (Fixture.cart 3000 (Some "student") Fixture.aliciaInput)
                 Fixture.world
    = (Threw e', w') /\
    committed w' = Fixture.store /\
    e' = alreadyHas Fixture.t /\ working w' = None /\
    trace w' = [TxBegin; TxRollback].
Proof.
  split; [vm_compute; discriminate|].
  refine (proj2 (failure_rolls_back Fixture.t Fixture.postfinanceSHA
                   Fixture.asAlice
                   (Fixture.cart 3000 (Some "student") Fixture.aliciaInput)
                   Fixture.world)
                (alreadyHas Fixture.t)
                (snd (body Fixture.t Fixture.postfinanceSHA Fixture.asAlice
                        (Fixture.cart 3000 (Some "student")
                                      Fixture.aliciaInput)
                        (begun Fixture.world)))
                eq_refl _).
  vm_compute. reflexivity.
Defined.

(** The same submission when the store refuses the rollback: the guard's
    throw is replaced by the store's rejection, and the transaction stays
    open with the renamed row in it; nothing is committed. *)
Lemma failure_rolls_back_counterexample :
  let run := body Fixture.t Fixture.postfinanceSHA Fixture.asAlice
                  (Fixture.cart 3000 (Some "student") Fixture.aliciaInput)
                  (begun Fixture.worldRefusingRollback) in
  let after := submitPledge Fixture.t Fixture.postfinanceSHA Fixture.asAlice
                 (Fixture.cart 3000 (Some "student") Fixture.aliciaInput)
                 Fixture.worldRefusingRollback in
  fst run = Exn (alreadyHas Fixture.t) /\
  fst after = Threw storeError /\
  storeError <> alreadyHas Fixture.t /\
  working (snd after) <> None /\
  option_map users (working (snd after))
  = Some [renameUser 50 "Alicia" "A" Fixture.alice; Fixture.carol] /\
  trace (snd after) = [TxBegin] /\
  committed (snd after) = Fixture.store.
Proof. vm_compute. repeat split; try reflexivity; discriminate. Qed.

Lemma empty_options_fail_witness :
  exists e w',
    submitPledge Fixture.t Fixture.postfinanceSHA Fixture.anonymous
                 (PledgeInput.mk 100 None Fixture.bob []) Fixture.world
    = (Threw e, w') /\
    cause e = StoreFailure /\
    committed w' = committed Fixture.world /\
    (refusesBegin Fixture.world = false ->
     refusesRollback Fixture.world = false -> working w' = None).
Proof.
  apply (empty_options_fail Fixture.t Fixture.postfinanceSHA
           Fixture.anonymous (PledgeInput.mk 100 None Fixture.bob [])
           Fixture.world).
  reflexivity.
Defined.

(** ** Early returns *)

Lemma returns_ret {A} P (a : A) : returns P (ret a).
Proof. intros w r w' H. discriminate. Qed.

Lemma returns_throw {A} P c v : returns P (@throw A c v).
Proof. intros w r w' H. discriminate. Qed.

Lemma returns_logger P l s : returns P (logger l s).
Proof. intros w r w' H. discriminate. Qed.

Lemma returns_genId P : returns P genId.
Proof. intros w r w' H. discriminate. Qed.

Lemma returns_deref {A} P (o : option A) : returns P (deref o).
Proof. destruct o; [apply returns_ret | apply returns_throw]. Qed.

Lemma returns_returnWith {A} (P : Response -> Prop) r :
  P r -> returns P (@returnWith A r).
Proof. intros HP w r0 w' H. inversion H. now subst. Qed.

Lemma returns_query {A} P (q : DB -> A * DB) : returns P (query q).
Proof. intros w r w' H. now apply query_not_ret in H. Qed.

Lemma returns_poolQuery {A} P (q : DB -> A) : returns P (poolQuery q).
Proof.
  intros w r w'. unfold poolQuery. destruct (rejects w); discriminate.
Qed.

Lemma returns_queryIn {I A} P (ids : list I) (q : DB -> A) :
  returns P (queryIn ids q).
Proof. intros w r w' H. now apply queryIn_not_ret in H. Qed.

Lemma returns_poolQueryIn {I A} P (ids : list I) (q : DB -> A) :
  returns P (poolQueryIn ids q).
Proof.
  intros w r w'. unfold poolQueryIn. destruct ids as [|i ids]; [discriminate|].
  apply returns_poolQuery.
Qed.

Lemma returns_commit P : returns P transactionCommit.
Proof.
  intros w r w'. unfold transactionCommit.
  destruct (working w); [destruct (rejects w)|]; discriminate.
Qed.

Lemma returns_bind {A B} P (m : M A) (f : A -> M B) :
  returns P m -> (forall a, returns P (f a)) -> returns P (bind m f).
Proof.
  intros Hm Hf w r w' H. apply bind_ret_inv in H.
  destruct H as [H | (a & w1 & _ & H)]; [eapply Hm | eapply Hf]; eauto.
Qed.

Lemma returns_promiseAll {A B} P (f : A -> M B) l :
  (forall a, returns P (f a)) -> returns P (promiseAll f l).
Proof.
  intros Hf. induction l as [|a l IH]; simpl.
  - apply returns_ret.
  - intros w r w'.
    destruct (f a w) as [[b|r1|e1] w1] eqn:E1.
    + destruct (promiseAll f l w1) as [[bs|r2|e2] w2] eqn:E2;
        intros H; inversion H; subst. eapply IH; eauto.
    + intros H. inversion H; subst. eapply Hf; eauto.
    + discriminate.
Qed.

Ltac returns_step :=
  first
    [ assumption
    | apply returns_bind; [| intros ]
    | apply returns_ret | apply returns_throw | apply returns_logger
    | apply returns_genId | apply returns_deref | apply returns_query
    | apply returns_poolQuery | apply returns_commit
    | apply returns_queryIn | apply returns_poolQueryIn
    | apply returns_returnWith; reflexivity
    | match goal with
      | |- returns _ (if ?b then _ else _) => destruct b
      | |- returns _ (match ?x with _ => _ end) => destruct x
      end ].

Ltac returns_tac := repeat returns_step.

Section Returns.

Variable t : string -> string.
Variable postfinanceSHA : uuid -> Z -> uuid -> uuid -> string.

Lemma checkOptions_returns P pid pkos plos :
  returns P (checkOptions t pid pkos plos).
Proof. induction plos as [|plo rest IH]; simpl; returns_tac. Qed.

Lemma validatePricing_returns P pledge :
  returns P (validatePricing t pledge).
Proof.
  pose proof (checkOptions_returns P) as Hc.
  unfold validatePricing, checkTemplates, checkTotal.
  returns_tac; apply Hc.
Qed.

Lemma reducedPledgeGuard_returns P d user :
  returns P (reducedPledgeGuard t d user).
Proof. unfold reducedPledgeGuard, rewardsOf. returns_tac. Qed.

Lemma afterGuard_returns P pledge s :
  returns P (afterGuard postfinanceSHA pledge s).
Proof.
  unfold afterGuard, insertPledge. returns_tac.
  apply returns_promiseAll. intros plo. returns_tac.
Qed.

(** The only early [return] of the mutation is [{emailVerify: true}]. *)
Lemma body_returns req pledge :
  returns (fun r => r = EmailVerify) (body t postfinanceSHA req pledge).
Proof.
  unfold body.
  apply returns_bind;
    [ unfold beforeGuard; apply returns_bind;
      [ apply validatePricing_returns | intros pd ]
    | intros s; apply returns_bind;
      [ apply reducedPledgeGuard_returns
      | intros u; apply afterGuard_returns ] ].
  unfold settle, checkReason, resolveUser, syncUserProfile, resolveAlias.
  returns_tac.
Qed.

(** An early return happens before the guard, with at most [users]
    written in the transaction. *)
Lemma body_ret_framed req pledge w r w' :
  body t postfinanceSHA req pledge w = (Ret r, w') -> framed w w'.
Proof.
  unfold body. intros H. apply bind_ret_inv in H.
  destruct H as [H | (s & w1 & _ & H)].
  - eapply beforeGuard_framed; eauto.
  - exfalso. apply bind_ret_inv in H.
    destruct H as [H | (u & w2 & _ & H)].
    + now apply (reducedPledgeGuard_returns (fun _ => False)) in H.
    + now apply (afterGuard_returns (fun _ => False)) in H.
Qed.

(** A call that returns went through the begin and did not throw. *)
Lemma submitPledge_returned_inv req pledge w r w' :
  submitPledge t postfinanceSHA req pledge w = (Returned r, w') ->
  refusesBegin w = false /\
  (body t postfinanceSHA req pledge (begun w) = (Val r, w') \/
   (r = EmailVerify /\
    body t postfinanceSHA req pledge (begun w) = (Ret r, w'))).
Proof.
  intros H. apply submitPledge_inv in H.
  destruct H as [(_ & H & _) | (Hb & [(r0 & H & E) | (e & w1 & _ & H)])].
  - discriminate.
  - inversion H; subst r0. split; [exact Hb|].
    destruct E as [E|E]; [now left|right].
    split; [|exact E]. now apply body_returns in E.
  - destruct H as [(_ & H & _) | (_ & H & _)]; discriminate.
Qed.

(** A call that returns a pledge ran the body to its end. *)
Lemma submitPledge_submitted_inv req pledge w pid uid sig alias w' :
  submitPledge t postfinanceSHA req pledge w
  = (Returned (Submitted pid uid sig alias), w') ->
  refusesBegin w = false /\
  body t postfinanceSHA req pledge (begun w)
  = (Val (Submitted pid uid sig alias), w').
Proof.
  intros H. apply submitPledge_returned_inv in H.
  destruct H as (Hb & [E | (E & _)]); [now split | discriminate].
Qed.

End Returns.

(** ** The committed pledge *)

Section Commit.

Variable t : string -> string.
Variable postfinanceSHA : uuid -> Z -> uuid -> uuid -> string.

Lemma settle_val_inv req pledge pd w s w' :
  settle t req pledge pd w = (Val s, w') ->
  s_packageId s = fst pd /\ s_donation s = snd pd.
Proof.
  unfold settle. intros H.
  apply bind_val_inv in H. destruct H as (u & w1 & _ & H).
  apply bind_val_inv in H. destruct H as (ua & w2 & _ & H).
  apply bind_val_inv in H. destruct H as (user & w3 & _ & H).
  apply bind_val_inv in H. destruct H as (a & w4 & _ & H).
  inversion H. now split.
Qed.

Lemma insertOptions_val_inv pid plos w rows w' db :
  promiseAll (fun plo => query (pledgeOptions_insertAndGet (optionRow pid plo)))
       plos w = (Val rows, w') ->
  working w = Some db ->
  exists db',
    working w' = Some db' /\ pledges db' = pledges db /\
    pledgeOptions db'
    = (pledgeOptions db ++ map (optionRow pid) plos)%list.
Proof.
  revert w rows db. induction plos as [|plo l IH]; intros w rows db H Hw.
  - inversion H; subst. exists db. simpl. now rewrite app_nil_r.
  - apply promiseAll_val_inv in H.
    destruct H as (row & w1 & rest & Hq & Hm & _). simpl.
    apply query_val_inv in Hq.
    destruct Hq as (db0 & Hw0 & _ & _ & ->).
    rewrite Hw in Hw0. inversion Hw0; subst db0.
    eapply IH in Hm; [|reflexivity].
    destruct Hm as (db' & Hw' & Hp & Ho). simpl in Hp, Ho.
    exists db'. repeat split; auto.
    rewrite Ho, <- app_assoc. reflexivity.
Qed.

Lemma insertPledge_val_inv pid d pledge user w pu w' db :
  insertPledge pid d pledge user w = (Val pu, w') ->
  working w = Some db ->
  user = Some (snd pu) /\
  fst pu = Pledge.mk (nextId w) (User.id (snd pu)) pid
                     (PledgeInput.total pledge) d
                     (PledgeInput.reason pledge) "DRAFT" /\
  exists db',
    working w' = Some db' /\
    pledges db' = (pledges db ++ [fst pu])%list /\
    pledgeOptions db'
    = (pledgeOptions db
       ++ map (optionRow (Pledge.id (fst pu))) (PledgeInput.options pledge))%list.
Proof.
  unfold insertPledge. intros H Hw.
  apply bind_val_inv in H. destruct H as (u & w1 & Hu & H).
  destruct user as [u0|]; [|discriminate].
  inversion Hu; subst u0 w1. clear Hu.
  apply bind_val_inv in H. destruct H as (i & w2 & Hi & H).
  inversion Hi; subst i w2. clear Hi.
  apply bind_val_inv in H. destruct H as (newPledge & w3 & Hq & H).
  apply query_val_inv in Hq. destruct Hq as (db0 & Hw0 & _ & -> & ->).
  simpl in Hw0. rewrite Hw in Hw0. inversion Hw0; subst db0. clear Hw0.
  apply bind_val_inv in H. destruct H as (rows & w4 & Hm & H).
  inversion H; subst pu w'. clear H. simpl.
  eapply insertOptions_val_inv in Hm; [|reflexivity].
  destruct Hm as (db' & Hw' & Hp & Ho). simpl in Hp, Ho.
  repeat split. exists db'. auto.
Qed.

Lemma transactionCommit_val_inv w u w' :
  transactionCommit w = (Val u, w') ->
  exists db,
    working w = Some db /\ committed w' = db /\ working w' = None /\
    trace w' = (trace w ++ [TxCommit])%list.
Proof.
  unfold transactionCommit. destruct (working w) as [db|]; [|discriminate].
  destruct (rejects w); [discriminate|].
  intros H. inversion H. exists db. auto.
Qed.

(** A run of the body that reaches its end. *)
Lemma body_val_inv req pledge w r w' :
  body t postfinanceSHA req pledge (begun w) = (Val r, w') ->
  exists row u alias,
    r = Submitted (Pledge.id row) (User.id u)
                  (postfinanceSHA (Pledge.id row) (Pledge.total row) alias
                                  (User.id u))
                  alias /\
    Pledge.userId row = User.id u /\
    Pledge.total row = PledgeInput.total pledge /\
    Pledge.donation row
    = PledgeInput.total pledge
      - spec_regularTotal (committed w) (PledgeInput.options pledge) /\
    Pledge.reason row = PledgeInput.reason pledge /\
    Pledge.status row = "DRAFT" /\
    spec_minTotal (committed w) (PledgeInput.options pledge)
    <= PledgeInput.total pledge /\
    pledges (committed w') = (pledges (committed w) ++ [row])%list /\
    pledgeOptions (committed w')
    = (pledgeOptions (committed w)
       ++ map (optionRow (Pledge.id row)) (PledgeInput.options pledge))%list /\
    working w' = None /\
    trace w' = (trace w ++ [TxBegin; TxCommit])%list.
Proof.
  unfold body. intros H.
  apply bind_val_inv in H. destruct H as (s & w1 & Hb & H).
  apply bind_val_inv in H. destruct H as (u0 & w2 & Hg & H).
  pose proof (beforeGuard_framed t req pledge _ _ _ Hb) as Hf1.
  pose proof (reducedPledgeGuard_untouched t _ _ _ _ _ Hg) as Hu2.
  unfold beforeGuard in Hb.
  apply bind_val_inv in Hb. destruct Hb as (pd & wa & Hv & Hs).
  apply validatePricing_val_inv in Hv.
  destruct Hv as (db & Hw & _ & _ & Hmin & Hd).
  simpl in Hw. inversion Hw; subst db. clear Hw.
  apply settle_val_inv in Hs. destruct Hs as [Hpk Hdn].
  destruct Hf1 as [Hc1 _ Ht1 Hw1].
  destruct (Hw1 (committed w) eq_refl) as (db1 & Hdb1 & Hp1 & Ho1 & _).
  destruct Hu2 as [Hc2 Hw2 _ _ Ht2].
  unfold afterGuard in H.
  apply bind_val_inv in H. destruct H as (pu & w3 & Hi & H).
  apply bind_val_inv in H. destruct H as (u1 & w4 & Hcm & H).
  inversion H; subst r w'. clear H.
  pose proof (insertPledge_kept _ _ _ _ _ _ _ Hi) as [_ _ Ht3].
  eapply insertPledge_val_inv in Hi; [|rewrite Hw2; exact Hdb1].
  destruct Hi as (_ & Hrow & db3 & Hdb3 & Hp3 & Ho3).
  apply transactionCommit_val_inv in Hcm.
  destruct Hcm as (db4 & Hdb4 & Hc4 & Hw4 & Ht4).
  rewrite Hdb3 in Hdb4. inversion Hdb4 as [Hdb]. clear Hdb4.
  subst db3. rewrite Hp1 in Hp3. rewrite Ho1 in Ho3.
  exists (fst pu), (snd pu), (s_alias s).
  split; [reflexivity|].
  split; [now rewrite Hrow|].
  split; [now rewrite Hrow|].
  split; [rewrite Hrow; simpl; congruence|].
  split; [now rewrite Hrow|].
  split; [now rewrite Hrow|].
  split; [exact Hmin|].
  split; [now rewrite Hc4|].
  split; [now rewrite Hc4|].
  split; [exact Hw4|].
  rewrite Ht4, Ht3, Ht2, Ht1. simpl. now rewrite <- app_assoc.
Qed.

End Commit.

(** C5. When pricing validation passes, the regular total the code folds
    over the loaded templates is
    [max(100, sum of amount_i * price_i)] over the catalog, the donation it
    computes is the submitted total minus that regular total, and the
    submitted total is at least the minimum total. When the mutation
    returns a pledge id, the committed store has exactly one more Pledge
    row, carrying that id, the submitted total, that same donation and the
    status DRAFT, and the row's options are the submitted ones. *)
Theorem committed_donation :
  forall t postfinanceSHA req pledge w,
    (forall pd w1,
       validatePricing t pledge (begun w) = (Val pd, w1) ->
       regularTotal (loadedTemplates (committed w) (PledgeInput.options pledge))
                    (PledgeInput.options pledge)
       = Some (spec_regularTotal (committed w) (PledgeInput.options pledge)) /\
       snd pd
       = PledgeInput.total pledge
         - spec_regularTotal (committed w) (PledgeInput.options pledge) /\
       spec_minTotal (committed w) (PledgeInput.options pledge)
       <= PledgeInput.total pledge) /\
    (forall pledgeId userId pfSHA pfAliasId w',
       submitPledge t postfinanceSHA req pledge w
       = (Returned (Submitted pledgeId userId pfSHA pfAliasId), w') ->
       exists row,
         pledges (committed w') = (pledges (committed w) ++ [row])%list /\
         Pledge.id row = pledgeId /\
         Pledge.userId row = userId /\
         Pledge.total row = PledgeInput.total pledge /\
         Pledge.donation row
         = PledgeInput.total pledge
           - spec_regularTotal (committed w) (PledgeInput.options pledge) /\
         Pledge.status row = "DRAFT" /\
         pledgeOptions (committed w')
         = (pledgeOptions (committed w)
            ++ map (optionRow pledgeId) (PledgeInput.options pledge))%list).
Proof.
  intros t sha req pledge w. split.
  - intros pd w1 Hv.
    pose proof (validatePricing_regularTotal t pledge _ _ _ Hv)
      as (db & Hw & Hreg).
    pose proof (validatePricing_val_inv t pledge _ _ _ Hv)
      as (db' & Hw' & _ & _ & Hmin & Hd).
    simpl in Hw, Hw'. inversion Hw; subst db. inversion Hw'; subst db'.
    auto.
  - intros pid uid sig alias w' H.
    apply submitPledge_submitted_inv in H. destruct H as [_ E].
    apply body_val_inv in E.
    destruct E
      as (row & u & a & Hr & Hu & Ht & Hd & _ & Hs & _ & Hp & Ho & _).
    inversion Hr; subst. exists row. repeat split; auto.
Qed.

(** Dave, who holds a pledge of template B, submits the cart in his
    session at 3000, which is 500 below its regular total, and says why. *)
Lemma committed_donation_witness :
  (regularTotal (loadedTemplates Fixture.storeWithDave
                                 [Fixture.optA 3; Fixture.optB 1])
                [Fixture.optA 3; Fixture.optB 1]
   = Some (spec_regularTotal Fixture.storeWithDave
                             [Fixture.optA 3; Fixture.optB 1]) /\
   -500 = 3000 - spec_regularTotal Fixture.storeWithDave
                   [Fixture.optA 3; Fixture.optB 1] /\
   spec_minTotal Fixture.storeWithDave [Fixture.optA 3; Fixture.optB 1]
   <= 3000) /\
  (exists row,
     pledges (committed
                (snd (submitPledge Fixture.t Fixture.postfinanceSHA
                        Fixture.asDave
                        (Fixture.cart 3000 (Some "student") Fixture.daveInput)
                        Fixture.worldWithDave)))
     = (pledges Fixture.storeWithDave ++ [row])%list /\
     Pledge.id row = 1000%N /\
     Pledge.userId row = 52%N /\
     Pledge.total row = 3000 /\
     Pledge.donation row
     = 3000 - spec_regularTotal Fixture.storeWithDave
                [Fixture.optA 3; Fixture.optB 1] /\
     Pledge.status row = "DRAFT" /\
     pledgeOptions (committed
                (snd (submitPledge Fixture.t Fixture.postfinanceSHA
                        Fixture.asDave
                        (Fixture.cart 3000 (Some "student") Fixture.daveInput)
                        Fixture.worldWithDave)))
     = (pledgeOptions Fixture.storeWithDave
        ++ map (optionRow 1000) [Fixture.optA 3; Fixture.optB 1])%list).
Proof.
  split.
  - apply (proj1 (committed_donation Fixture.t Fixture.postfinanceSHA
                    Fixture.asDave
                    (Fixture.cart 3000 (Some "student") Fixture.daveInput)
                    Fixture.worldWithDave)
                 (10%N, -500) (tick (begun Fixture.worldWithDave))).
    vm_compute. reflexivity.
  - apply (proj2 (committed_donation Fixture.t Fixture.postfinanceSHA
                    Fixture.asDave
                    (Fixture.cart 3000 (Some "student") Fixture.daveInput)
                    Fixture.worldWithDave)
                 1000%N 52%N "sha" 900%N).
    vm_compute. reflexivity.
Defined.

(** ** The reduced-pledge guard *)

Lemma rewardsChain_In db pool uid r :
  In r (rewardsChain db pool uid) <->
  exists p o pko,
    (In p (pledges db) /\ Pledge.userId p = uid) /\
    (In o (pledgeOptions db) /\ PledgeOption.pledgeId o = Pledge.id p) /\
    (In pko (packageOptions db) /\
     PackageOption.id pko = PledgeOption.templateId o) /\
    (In r (rewards pool) /\ PackageOption.rewardId pko = Some (Reward.id r)).
Proof.
  unfold rewardsChain, rewards_find, packageOptions_find, pledgeOptions_find,
    pledges_find.
  rewrite filter_In, inOptIds_In, in_map_iff. split.
  - intros (Hr & pko & Hrid & Hpko).
    apply filter_In in Hpko. destruct Hpko as (Hpko & Hid).
    apply inIds_In, in_map_iff in Hid. destruct Hid as (o & Ho & Hin).
    apply filter_In in Hin. destruct Hin as (Hino & Hpid).
    apply inIds_In, in_map_iff in Hpid. destruct Hpid as (p & Hp & Hinp).
    apply filter_In in Hinp. destruct Hinp as (Hinp & Hu).
    apply N.eqb_eq in Hu.
    exists p, o, pko. repeat split; auto.
  - intros (p & o & pko & (Hp & Hu) & (Ho & Hpid) & (Hpko & Hid) & (Hr & Hrid)).
    split; [exact Hr|].
    exists pko. split; [exact Hrid|].
    apply filter_In. split; [exact Hpko|].
    apply inIds_In, in_map_iff. exists o. split; [auto|].
    apply filter_In. split; [exact Ho|].
    apply inIds_In, in_map_iff. exists p. split; [auto|].
    apply filter_In. split; [exact Hp|]. now apply N.eqb_eq.
Qed.

(** The guard's lookups find a row exactly when a reward is reachable. *)
Lemma rewardsChain_reachable db pool uid :
  sameOrders pool db ->
  (rewardsChain db pool uid <> [] <-> rewardReachable pool uid).
Proof.
  intros (Hp & Ho & Hk). unfold rewardReachable. split.
  - destruct (rewardsChain db pool uid) as [|r l] eqn:E; [congruence|].
    intros _. assert (Hin : In r (rewardsChain db pool uid))
      by (rewrite E; now left).
    apply rewardsChain_In in Hin. destruct Hin as (p & o & pko & H).
    rewrite Hp, Ho, Hk in H. now exists p, o, pko, r.
  - intros (p & o & pko & r & H). rewrite <- Hp, <- Ho, <- Hk in H.
    assert (Hin : In r (rewardsChain db pool uid)).
    { apply rewardsChain_In. now exists p, o, pko. }
    intros E. rewrite E in Hin. contradiction.
Qed.

Lemma length_zero_nil {A} (l : list A) :
  Nat.eqb (List.length l) 0 = true <-> l = [].
Proof. destruct l; simpl; split; congruence. Qed.

Lemma packageOptions_find_nil db : packageOptions_find [] db = [].
Proof.
  unfold packageOptions_find.
  induction (packageOptions db) as [|p l IH]; simpl; auto.
Qed.

Lemma pledgeOptions_find_nil db : pledgeOptions_find [] db = [].
Proof.
  unfold pledgeOptions_find.
  induction (pledgeOptions db) as [|p l IH]; simpl; auto.
Qed.

(** The guard finds the rewards among those of the templates held. *)
Lemma rewardsChain_held db pool uid :
  rewardsChain db pool uid
  = rewards_find (map PackageOption.rewardId (templatesHeld db uid)) pool.
Proof. reflexivity. Qed.

(** Without a template held no reward is reachable. *)
Lemma rewardsChain_none_held db pool uid :
  templatesHeld db uid = [] -> rewardsChain db pool uid = [].
Proof.
  intros H. rewrite rewardsChain_held, H. unfold rewards_find. simpl.
  induction (rewards pool) as [|r l IH]; simpl; auto.
Qed.

Section Guard.

Variable t : string -> string.
Variable postfinanceSHA : uuid -> Z -> uuid -> uuid -> string.

(** The three lookups by id lists, on a store that answers every call:
    they are rejected exactly when no template is held. *)
Lemma rewardsOf_eval uid w db :
  working w = Some db -> failAt w = [] ->
  exists w2,
    rewardsOf uid w
    = (match templatesHeld db uid with
       | [] => Exn storeError
       | _ :: _ => Val (rewardsChain db (committed w) uid)
       end, w2).
Proof.
  intros Hw Hf. unfold rewardsOf.
  pose proof (query_val (readOnly (pledges_find uid)) w db Hw
                (no_fault_rejects w Hf)) as H1.
  unfold readOnly in H1 at 2 3. simpl in H1.
  rewrite (bind_val _ _ _ _ _ H1). clear H1.
  set (w1 := tick (setWorking (Some db) w)).
  assert (Hf1 : failAt w1 = []) by exact Hf.
  unfold templatesHeld, rewardsChain.
  destruct (pledges_find uid db) as [|p ps].
  { simpl map. rewrite pledgeOptions_find_nil. simpl map.
    rewrite packageOptions_find_nil.
    eexists. erewrite bind_exn; reflexivity. }
  pose proof (queryIn_val (map Pledge.id (p :: ps))
                (pledgeOptions_find (map Pledge.id (p :: ps))) w1 db
                ltac:(discriminate) eq_refl (no_fault_rejects w1 Hf1)) as H2.
  rewrite (bind_val _ _ _ _ _ H2). clear H2.
  set (w2 := tick (setWorking (Some db) w1)).
  assert (Hf2 : failAt w2 = []) by exact Hf.
  destruct (pledgeOptions_find (map Pledge.id (p :: ps)) db) as [|o os].
  { simpl map. rewrite packageOptions_find_nil.
    eexists. erewrite bind_exn; reflexivity. }
  pose proof (queryIn_val (map PledgeOption.templateId (o :: os))
                (packageOptions_find (map PledgeOption.templateId (o :: os)))
                w2 db ltac:(discriminate) eq_refl (no_fault_rejects w2 Hf2))
    as H3.
  rewrite (bind_val _ _ _ _ _ H3). clear H3.
  set (w3 := tick (setWorking (Some db) w2)).
  assert (Hf3 : failAt w3 = []) by exact Hf.
  destruct (packageOptions_find (map PledgeOption.templateId (o :: os)) db)
    as [|pko pkos].
  { eexists. reflexivity. }
  rewrite (poolQueryIn_val (map PackageOption.rewardId (pko :: pkos)) _ w3
             ltac:(discriminate) (no_fault_rejects w3 Hf3)).
  eexists. reflexivity.
Qed.

(** The guard on a store that answers every call. *)
Lemma reducedPledgeGuard_eval d u w db :
  working w = Some db -> failAt w = [] -> d < 0 ->
  exists w2,
    reducedPledgeGuard t d (Some u) w
    = (if Nat.eqb (pledges_count (User.id u) db) 0 then Val tt
       else match templatesHeld db (User.id u) with
            | [] => Exn storeError
            | _ :: _ =>
                if negb (Nat.eqb
                           (List.length
                              (rewardsChain db (committed w) (User.id u)))
                           0)
                then Exn (alreadyHas t) else Val tt
            end, w2).
Proof.
  intros Hw Hf Hd. apply Z.ltb_lt in Hd.
  unfold reducedPledgeGuard. rewrite Hd. simpl.
  unfold bind at 1. unfold ret at 1.
  pose proof (query_val (readOnly (pledges_count (User.id u))) w db Hw
                (no_fault_rejects w Hf)) as Hq.
  unfold readOnly in Hq at 2 3. simpl in Hq.
  rewrite (bind_val _ _ _ _ _ Hq).
  destruct (Nat.eqb (pledges_count (User.id u) db) 0); simpl;
    [eexists; reflexivity|].
  destruct (rewardsOf_eval (User.id u)
              (tick (setWorking (Some db) w)) db eq_refl Hf) as (w2 & Hr).
  simpl in Hr.
  destruct (templatesHeld db (User.id u)) as [|pko pkos].
  - rewrite (bind_exn _ _ _ _ _ Hr). eexists. reflexivity.
  - rewrite (bind_val _ _ _ _ _ Hr).
    destruct (Nat.eqb
                (List.length (rewardsChain db (committed w) (User.id u))) 0);
      simpl; eexists; reflexivity.
Qed.

(** Without a negative donation the guard does nothing at all. *)
Lemma reducedPledgeGuard_skip d user w :
  0 <= d -> reducedPledgeGuard t d user w = (Val tt, w).
Proof.
  intros Hd. apply Z.ltb_ge in Hd. unfold reducedPledgeGuard.
  now rewrite Hd.
Qed.

(** What the lookups of the guard return when they all go through. *)
Lemma rewardsOf_val_inv uid w rs w' db :
  rewardsOf uid w = (Val rs, w') ->
  working w = Some db ->
  rs = rewardsChain db (committed w) uid /\ templatesHeld db uid <> [].
Proof.
  unfold rewardsOf. intros H Hw.
  apply bind_val_inv in H. destruct H as (ps & wa & Ha & H).
  pose proof (untouched_read _ _ _ _ Ha) as [Hca Hwa _ _ _].
  apply query_val_inv in Ha. destruct Ha as (dba & Hdba & _ & -> & _).
  apply bind_val_inv in H. destruct H as (os & wb & Hb & H).
  pose proof (untouched_readIn _ _ _ _ _ Hb) as [Hcb Hwb _ _ _].
  apply queryIn_val_inv in Hb. destruct Hb as (_ & dbb & Hdbb & _ & -> & _).
  apply bind_val_inv in H. destruct H as (pkos & wc & Hc & H).
  pose proof (untouched_readIn _ _ _ _ _ Hc) as [Hcc Hwc _ _ _].
  apply queryIn_val_inv in Hc. destruct Hc as (_ & dbc & Hdbc & _ & -> & _).
  apply poolQueryIn_val_inv in H. destruct H as (Hne & _ & -> & _).
  unfold readOnly in *. simpl in *.
  assert (dba = db) by congruence.
  assert (dbb = db) by congruence.
  assert (dbc = db) by congruence.
  subst dba dbb dbc.
  assert (Hcw : committed wc = committed w) by congruence.
  rewrite Hcw. split; [reflexivity|].
  unfold templatesHeld. intros Hnil. apply Hne. now rewrite Hnil.
Qed.

(** When the guard throws its own error, its lookups found a reward. *)
Lemma reducedPledgeGuard_fired d user w db e w' :
  reducedPledgeGuard t d user w = (Exn e, w') ->
  cause e = ReducedPledgeAlreadyUsed ->
  working w = Some db ->
  exists u,
    user = Some u /\ d < 0 /\
    rewardsChain db (committed w) (User.id u) <> [].
Proof.
  unfold reducedPledgeGuard. intros H Hc Hw.
  destruct (d <? 0) eqn:Ed; [|discriminate].
  apply Z.ltb_lt in Ed.
  destruct user as [u|]; simpl in H.
  2:{ unfold bind, throw in H. inversion H; subst e. discriminate. }
  exists u. split; [reflexivity|]. split; [exact Ed|].
  apply bind_exn_inv in H. destruct H as [H | (u0 & w0 & Hu & H)];
    [discriminate|].
  inversion Hu; subst u0 w0. clear Hu.
  apply bind_exn_inv in H. destruct H as [H | (n & w1 & Hq & H)].
  { apply query_exn_inv in H. destruct H as [-> _]. discriminate. }
  pose proof (untouched_read _ _ _ _ Hq) as [Hc1 Hw1 _ _ _].
  destruct (negb (Nat.eqb n 0)); [|discriminate].
  apply bind_exn_inv in H. destruct H as [H | (rs & w2 & Hrs & H)].
  { unfold rewardsOf in H.
    assert (He : e = storeError).
    { revert H. apply (raises_bind (fun e => e = storeError));
        [apply raises_query; reflexivity | intros ps].
      apply raises_bind; [apply raises_queryIn; reflexivity | intros os].
      apply raises_bind; [apply raises_queryIn; reflexivity | intros pkos].
      apply raises_poolQueryIn; reflexivity. }
    subst e. discriminate. }
  eapply rewardsOf_val_inv in Hrs; [|rewrite Hw1; exact Hw].
  destruct Hrs as [-> _]. rewrite Hc1 in H.
  destruct (rewardsChain db (committed w) (User.id u)); [|congruence].
  simpl in H. discriminate.
Qed.

(** When the guard lets a negative donation through, the user has no
    pledge, or holds a template and the lookups found no reward. *)
Lemma reducedPledgeGuard_passed d user w db u0 w' :
  reducedPledgeGuard t d user w = (Val u0, w') ->
  d < 0 ->
  working w = Some db ->
  exists u,
    user = Some u /\
    (pledges_count (User.id u) db = 0%nat \/
     (templatesHeld db (User.id u) <> [] /\
      rewardsChain db (committed w) (User.id u) = [])).
Proof.
  unfold reducedPledgeGuard. intros H Hd Hw.
  apply Z.ltb_lt in Hd. rewrite Hd in H.
  destruct user as [u|]; [|discriminate].
  exists u. split; [reflexivity|].
  apply bind_val_inv in H. destruct H as (u1 & w0 & Hu & H).
  inversion Hu; subst u1 w0. clear Hu.
  apply bind_val_inv in H. destruct H as (n & w1 & Hq & H).
  pose proof (untouched_read _ _ _ _ Hq) as [Hc1 Hw1 _ _ _].
  apply query_val_inv in Hq. destruct Hq as (db0 & Hdb0 & _ & -> & _).
  rewrite Hw in Hdb0. inversion Hdb0; subst db0. clear Hdb0.
  unfold readOnly in H. simpl in H.
  destruct (Nat.eqb (pledges_count (User.id u) db) 0) eqn:En; simpl in H.
  - left. now apply Nat.eqb_eq in En.
  - right.
    apply bind_val_inv in H. destruct H as (rs & w2 & Hrs & H).
    eapply rewardsOf_val_inv in Hrs; [|rewrite Hw1; exact Hw].
    destruct Hrs as [Hrs Hheld]. rewrite Hc1 in Hrs. subst rs.
    split; [exact Hheld|].
    destruct (rewardsChain db (committed w) (User.id u)); [reflexivity|].
    simpl in H. discriminate.
Qed.

End Guard.

(** ** The early return *)

Section EarlyReturn.

Variable t : string -> string.
Variable postfinanceSHA : uuid -> Z -> uuid -> uuid -> string.

(** Without a session, a stored user with pledges under the submitted
    email stops the user lookup: it never yields a user. *)
Lemma resolveUser_known_email req pledge w db u ua w' :
  Request.user req = None ->
  working w = Some db ->
  users_findOne (UserInput.email (PledgeInput.user pledge)) db = Some u ->
  pledges_count (User.id u) db <> 0%nat ->
  resolveUser t req pledge w <> (Val ua, w').
Proof.
  intros Hreq Hw Hfind Hcount H. unfold resolveUser in H. rewrite Hreq in H.
  apply bind_val_inv in H. destruct H as (found & w1 & Hq & H).
  pose proof (untouched_read _ _ _ _ Hq) as [_ Hw1 _ _ _].
  apply query_val_inv in Hq. destruct Hq as (db0 & Hw0 & _ & -> & _).
  rewrite Hw in Hw0. inversion Hw0; subst db0. clear Hw0.
  unfold readOnly in H. simpl in H. rewrite Hfind in H.
  apply bind_val_inv in H. destruct H as (n & w2 & Hq & H).
  apply query_val_inv in Hq. destruct Hq as (db1 & Hdb1 & _ & -> & _).
  rewrite Hw1, Hw in Hdb1. inversion Hdb1; subst db1.
  unfold readOnly in H. simpl in H.
  apply Nat.eqb_neq in Hcount. rewrite Hcount in H. discriminate.
Qed.

Lemma body_known_email req pledge w u r w' :
  Request.user req = None ->
  users_findOne (UserInput.email (PledgeInput.user pledge)) (committed w)
  = Some u ->
  pledges_count (User.id u) (committed w) <> 0%nat ->
  body t postfinanceSHA req pledge (begun w) <> (Val r, w').
Proof.
  intros Hreq Hfind Hcount H. unfold body in H.
  apply bind_val_inv in H. destruct H as (s & w1 & Hb & _).
  unfold beforeGuard in Hb.
  apply bind_val_inv in Hb. destruct Hb as (pd & wa & Hv & Hs).
  apply validatePricing_untouched in Hv. destruct Hv as [_ Hwa _ _ _].
  unfold settle in Hs.
  apply bind_val_inv in Hs. destruct Hs as (u0 & wb & Hr & Hs).
  apply checkReason_untouched in Hr. destruct Hr as [_ Hwb _ _ _].
  apply bind_val_inv in Hs. destruct Hs as (ua & wc & Hru & _).
  revert Hru.
  apply (resolveUser_known_email req pledge wb (committed w) u); auto.
  now rewrite Hwb, Hwa.
Qed.

End EarlyReturn.

(** C7. Take a submission without a session whose email is that of a stored
    user with at least one pledge. However the mutation ends, it returns no
    pledge, the committed store is unchanged and no commit takes place: the
    only transaction events are the begin, unless the store refused it,
    and, after a throw, the rollback, unless the store refused it. When
    pricing validation and the reason check pass (and the store answers
    every call), the mutation returns [{emailVerify: true}] with the
    transaction's working copy still equal to the committed store, so that
    no User, Pledge or PledgeOption row was written. *)
Theorem email_verification_required :
  forall t postfinanceSHA req pledge w u,
    Request.user req = None ->
    users_findOne (UserInput.email (PledgeInput.user pledge)) (committed w)
    = Some u ->
    pledges_count (User.id u) (committed w) <> 0%nat ->
    (forall o w',
       submitPledge t postfinanceSHA req pledge w = (o, w') ->
       (o = Returned EmailVerify \/ exists e, o = Threw e) /\
       committed w' = committed w /\
       (trace w' = trace w \/
        trace w' = (trace w ++ [TxBegin])%list \/
        trace w' = (trace w ++ [TxBegin; TxRollback])%list)) /\
    (failAt w = [] -> refusesBegin w = false ->
     forall pd w1,
       validatePricing t pledge (begun w) = (Val pd, w1) ->
       (snd pd < 0 -> noReason (PledgeInput.reason pledge) = false) ->
       exists w',
         submitPledge t postfinanceSHA req pledge w
         = (Returned EmailVerify, w') /\
         committed w' = committed w /\
         working w' = Some (committed w) /\
         trace w' = (trace w ++ [TxBegin])%list).
Proof.
  intros t sha req pledge w u Hreq Hfind Hcount. split.
  - intros o w' H. apply submitPledge_inv in H.
    destruct H as [(_ & -> & ->)
                  | (_ & [(r & -> & [E|E]) | (e & w1 & E & H)])].
    + split; [right; now exists storeError|]. split; [reflexivity|now left].
    + exfalso. revert E. now apply (body_known_email t sha req pledge w u).
    + pose proof (body_returns t sha req pledge _ _ _ E) as ->.
      apply body_ret_framed in E. destruct E as [Hc _ Ht _].
      split; [now left|]. split; [exact Hc|]. right. left. exact Ht.
    + apply body_exn_kept in E. destruct E as [Hc _ Ht].
      destruct H as [(_ & -> & ->) | (_ & -> & ->)].
      * split; [right; now exists e|]. split; [exact Hc|]. right. right.
        simpl. rewrite Ht. simpl. now rewrite <- app_assoc.
      * split; [right; now exists storeError|]. split; [exact Hc|].
        right. left. exact Ht.
  - intros Hf Hbegin pd w1 Hv Hreason.
    pose proof (validatePricing_val_inv t pledge _ _ _ Hv)
      as (db & _ & _ & Hw1 & _).
    assert (Hcr : checkReason t pledge (snd pd) w1 = (Val tt, w1)).
    { unfold checkReason. destruct (snd pd <? 0) eqn:E; [|reflexivity].
      apply Z.ltb_lt in E. now rewrite (Hreason E). }
    assert (Hru : exists w2,
               resolveUser t req pledge w1 = (Ret EmailVerify, w2) /\
               committed w2 = committed w /\
               working w2 = Some (committed w) /\
               trace w2 = (trace w ++ [TxBegin])%list).
    { subst w1. unfold resolveUser. rewrite Hreq.
      destruct w as [c wk n k f rb rr l tr]. simpl in Hf, Hfind, Hcount. subst f.
      unfold bind, query, readOnly, rejects, returnWith, begun.
      simpl. rewrite Hfind. simpl.
      apply Nat.eqb_neq in Hcount. rewrite Hcount. simpl.
      eexists. split; [reflexivity|]. simpl. auto. }
    destruct Hru as (w2 & Hru & Hc & Hw & Ht).
    exists w2. split; [|auto].
    assert (Hs : settle t req pledge pd w1 = (Ret EmailVerify, w2)).
    { unfold settle. rewrite (bind_val _ _ _ _ _ Hcr).
      now rewrite (bind_ret _ _ _ _ _ Hru). }
    assert (Hb : beforeGuard t req pledge (begun w)
                 = (Ret EmailVerify, w2)).
    { unfold beforeGuard. now rewrite (bind_val _ _ _ _ _ Hv). }
    apply submitPledge_of_ret; [exact Hbegin|].
    unfold body. now rewrite (bind_ret _ _ _ _ _ Hb).
Qed.

Lemma email_verification_required_witness :
  exists w',
    submitPledge Fixture.t Fixture.postfinanceSHA Fixture.anonymous
                 (Fixture.cart 3500 None Fixture.aliceInput) Fixture.world
    = (Returned EmailVerify, w') /\
    committed w' = committed Fixture.world /\
    working w' = Some (committed Fixture.world) /\
    trace w' = (trace Fixture.world ++ [TxBegin])%list.
Proof.
  refine (proj2 (email_verification_required Fixture.t Fixture.postfinanceSHA
                   Fixture.anonymous
                   (Fixture.cart 3500 None Fixture.aliceInput)
                   Fixture.world Fixture.alice eq_refl eq_refl _)
                eq_refl eq_refl (10%N, 0) (tick (begun Fixture.world)) _ _).
  - vm_compute. discriminate.
  - vm_compute. reflexivity.
  - simpl. lia.
Defined.

(** The same email with a cart that mixes two packages: the cart is
    refused before the user is looked up, so the mutation throws instead of
    returning [{emailVerify: true}]. *)
Lemma email_verification_counterexample :
  Request.user Fixture.anonymous = None /\
  users_findOne (UserInput.email Fixture.aliceInput) Fixture.store
  = Some Fixture.alice /\
  pledges_count (User.id Fixture.alice) Fixture.store = 1%nat /\
  fst (submitPledge Fixture.t Fixture.postfinanceSHA Fixture.anonymous
         (PledgeInput.mk 1500 None Fixture.aliceInput
                         [Fixture.optA 1; Fixture.optC 1])
         Fixture.world)
  = Threw (unexpected Fixture.t CrossPackageSelection) /\
  fst (submitPledge Fixture.t Fixture.postfinanceSHA Fixture.anonymous
         (PledgeInput.mk 1500 None Fixture.aliceInput
                         [Fixture.optA 1; Fixture.optC 1])
         Fixture.world)
  <> Returned EmailVerify.
Proof. vm_compute. repeat split; try reflexivity. discriminate. Qed.

(** ** The reason check and the acting user *)

Ltac causes_differ H :=
  simpl in H;
  repeat (destruct H as [H|H]; [subst; split; discriminate|]);
  contradiction.

Section Reason.

Variable t : string -> string.
Variable postfinanceSHA : uuid -> Z -> uuid -> uuid -> string.

Lemma checkReason_missing pledge d w :
  d < 0 -> noReason (PledgeInput.reason pledge) = true ->
  exists w',
    checkReason t pledge d w = (Exn (unexpected t MissingReductionReason), w').
Proof.
  intros Hd Hn. apply Z.ltb_lt in Hd. unfold checkReason.
  rewrite Hd, Hn. simpl. eexists. reflexivity.
Qed.

Lemma settle_raises_reasoned req pledge pd :
  noReason (PledgeInput.reason pledge) = false ->
  raises (fun e => In e [storeError; unexpected t IdentityMismatch])
         (settle t req pledge pd).
Proof.
  intros Hn.
  unfold settle, checkReason, resolveUser, syncUserProfile, resolveAlias.
  rewrite Hn, andb_false_r. raises_tac.
Qed.

Lemma resolveUser_val_inv req pledge w ua w' db :
  resolveUser t req pledge w = (Val ua, w') ->
  working w = Some db ->
  User.id (fst ua)
  = match Request.user req with
    | Some sessionUser => User.id sessionUser
    | None =>
        match users_findOne (UserInput.email (PledgeInput.user pledge)) db
        with
        | Some u => User.id u
        | None => nextId w
        end
    end.
Proof.
  unfold resolveUser. intros H Hw.
  destruct (Request.user req) as [su|].
  - destruct (negb (String.eqb (User.email su)
                      (UserInput.email (PledgeInput.user pledge))));
      [discriminate|].
    apply bind_val_inv in H. destruct H as (a & w1 & _ & H).
    now inversion H.
  - apply bind_val_inv in H. destruct H as (found & w1 & Hq & H).
    apply query_val_inv in Hq. destruct Hq as (db0 & Hw0 & _ & -> & ->).
    rewrite Hw in Hw0. inversion Hw0; subst db0. clear Hw0.
    unfold readOnly in H. simpl in H.
    destruct (users_findOne (UserInput.email (PledgeInput.user pledge)) db)
      as [u|].
    + apply bind_val_inv in H. destruct H as (n & w2 & _ & H).
      destruct (negb (Nat.eqb n 0)); [discriminate|].
      now inversion H.
    + apply bind_val_inv in H. destruct H as (i & w2 & Hi & H).
      inversion Hi; subst i w2. clear Hi.
      apply bind_val_inv in H. destruct H as (u & w3 & Hq & H).
      apply query_val_inv in Hq. destruct Hq as (db1 & _ & _ & -> & _).
      inversion H. reflexivity.
Qed.

Lemma syncUserProfile_val_inv pledge u0 w user w' u :
  syncUserProfile pledge u0 w = (Val user, w') ->
  user = Some u -> User.id u = User.id u0.
Proof.
  unfold syncUserProfile. intros H Hu.
  destruct (negb (sameName (User.firstName u0)
                    (UserInput.firstName (PledgeInput.user pledge)))
            || negb (sameName (User.lastName u0)
                       (UserInput.lastName (PledgeInput.user pledge)))).
  - apply query_val_inv in H. destruct H as (db & _ & _ & -> & _).
    unfold users_updateAndGetOne in Hu. simpl in Hu.
    apply find_some in Hu. destruct Hu as [_ Hu]. now apply N.eqb_eq in Hu.
  - inversion H; subst. now inversion H1.
Qed.

(** The user the guard sees is the acting user. *)
Lemma beforeGuard_user req pledge w s w1 u :
  beforeGuard t req pledge (begun w) = (Val s, w1) ->
  s_user s = Some u ->
  User.id u = actingUserId req pledge w.
Proof.
  unfold beforeGuard. intros H Hu.
  apply bind_val_inv in H. destruct H as (pd & wa & Hv & H).
  apply validatePricing_untouched in Hv. destruct Hv as [Hca Hwa Hna _ _].
  unfold settle in H.
  apply bind_val_inv in H. destruct H as (u0 & wb & Hr & H).
  apply checkReason_untouched in Hr. destruct Hr as [Hcb Hwb Hnb _ _].
  apply bind_val_inv in H. destruct H as (ua & wc & Hru & H).
  eapply resolveUser_val_inv in Hru;
    [|rewrite Hwb, Hwa; reflexivity].
  apply bind_val_inv in H. destruct H as (user & wd & Hsy & H).
  apply bind_val_inv in H. destruct H as (a & we & _ & H).
  inversion H; subst s we. clear H. simpl in Hu.
  rewrite (syncUserProfile_val_inv _ _ _ _ _ _ Hsy Hu), Hru.
  unfold actingUserId. now rewrite Hnb, Hna.
Qed.

End Reason.

(** ** The reduced-pledge rule *)

Lemma templatesHeld_sameOrders db db' uid :
  sameOrders db db' -> templatesHeld db' uid = templatesHeld db uid.
Proof.
  intros (Hp & Ho & Hk).
  unfold templatesHeld, packageOptions_find, pledgeOptions_find, pledges_find.
  now rewrite Hp, Ho, Hk.
Qed.

(** C6. Take a donation-negative submission acting for a user who has at
    least one pledge from which a reward is reachable: however the mutation
    ends, it returns no pledge and the committed store is unchanged. Take a
    submission that reaches the guard with donation [s_donation s] and
    acting user [u], on a store that answers every call: if the donation is
    negative and the user has at least one pledge, the mutation fails with
    the reduced-pledge error (and its specific message) when a reward is
    reachable from the user's pledges, and the guard lets the submission
    through when none is and the user's pledges hold a template of the
    catalog; if the donation is not negative the guard issues no lookup and
    changes nothing. *)
Theorem reduced_pledge_guard :
  forall t postfinanceSHA req pledge w,
    (PledgeInput.total pledge
       - spec_regularTotal (committed w) (PledgeInput.options pledge) < 0 ->
     pledges_count (actingUserId req pledge w) (committed w) <> 0%nat ->
     rewardReachable (committed w) (actingUserId req pledge w) ->
     forall o w',
       submitPledge t postfinanceSHA req pledge w = (o, w') ->
       (o = Returned EmailVerify \/ exists e, o = Threw e) /\
       committed w' = committed w) /\
    (forall s w1 u,
       failAt w = [] -> refusesBegin w = false -> refusesRollback w = false ->
       beforeGuard t req pledge (begun w) = (Val s, w1) ->
       s_user s = Some u ->
       (s_donation s < 0 ->
        pledges_count (User.id u) (committed w) <> 0%nat ->
        (rewardReachable (committed w) (User.id u) ->
         exists w',
           submitPledge t postfinanceSHA req pledge w
           = (Threw (alreadyHas t), w') /\
           committed w' = committed w) /\
        (~ rewardReachable (committed w) (User.id u) ->
         templatesHeld (committed w) (User.id u) <> [] ->
         exists w2,
           reducedPledgeGuard t (s_donation s) (s_user s) w1 = (Val tt, w2))) /\
       (0 <= s_donation s ->
        reducedPledgeGuard t (s_donation s) (s_user s) w1 = (Val tt, w1))).
Proof.
  intros t sha req pledge w. split.
  - intros Hd Hcount Hreach o w' H. apply submitPledge_inv in H.
    destruct H as [(_ & -> & ->)
                  | (_ & [(r & -> & [E|E]) | (e & w1 & E & H)])].
    + split; [right; now exists storeError | reflexivity].
    + exfalso. unfold body in E.
      apply bind_val_inv in E. destruct E as (s & wa & Hb & E).
      apply bind_val_inv in E. destruct E as (u0 & wb & Hg & _).
      pose proof (beforeGuard_framed t req pledge _ _ _ Hb) as [Hca _ _ Hwa].
      destruct (Hwa (committed w) eq_refl) as (db1 & Hdb1 & Hso).
      simpl in Hca.
      assert (Hdon : s_donation s
                     = PledgeInput.total pledge
                       - spec_regularTotal (committed w)
                                           (PledgeInput.options pledge)).
      { pose proof Hb as Hb'. unfold beforeGuard in Hb'.
        apply bind_val_inv in Hb'. destruct Hb' as (pd & wv & Hv & Hs).
        apply validatePricing_val_inv in Hv.
        destruct Hv as (db & Hw & _ & _ & _ & Hpd).
        simpl in Hw. inversion Hw; subst db.
        apply settle_val_inv in Hs. destruct Hs as [_ Hs]. congruence. }
      rewrite <- Hdon in Hd.
      destruct (reducedPledgeGuard_passed t _ _ _ db1 _ _ Hg Hd Hdb1)
        as (u & Hu & Hor).
      pose proof (beforeGuard_user t req pledge w s wa u Hb Hu) as Hid.
      rewrite Hid, Hca in Hor. destruct Hor as [Hz | [_ Hnil]].
      * apply Hcount. destruct Hso as (Hp & _).
        unfold pledges_count, pledges_find in *. now rewrite <- Hp.
      * apply (rewardsChain_reachable db1 (committed w) _ Hso) in Hreach.
        contradiction.
    + pose proof (body_returns t sha req pledge _ _ _ E) as ->.
      apply body_ret_framed in E. destruct E as [Hc _ _ _].
      split; [now left | exact Hc].
    + apply body_exn_kept in E. destruct E as [Hc _ _].
      destruct H as [(_ & -> & ->) | (_ & -> & ->)].
      * split; [right; now exists e | exact Hc].
      * split; [right; now exists storeError | exact Hc].
  - intros s w1 u Hf Hbegin Hroll Hb Hu.
    split; [|apply reducedPledgeGuard_skip].
    intros Hd Hcount.
    pose proof (beforeGuard_framed t req pledge _ _ _ Hb) as [Hc1 Hf1 _ Hw1].
    destruct (Hw1 (committed w) eq_refl) as (db1 & Hdb1 & Hso).
    simpl in Hc1, Hf1. rewrite Hf in Hf1.
    destruct (reducedPledgeGuard_eval t (s_donation s) u w1 db1 Hdb1 Hf1 Hd)
      as (w2 & Hg).
    rewrite <- Hu in Hg. rewrite Hc1 in Hg.
    assert (Hn : Nat.eqb (pledges_count (User.id u) db1) 0 = false).
    { apply Nat.eqb_neq. destruct Hso as (Hp & _).
      unfold pledges_count, pledges_find in *. now rewrite Hp. }
    rewrite Hn in Hg.
    rewrite (templatesHeld_sameOrders _ _ _ Hso) in Hg.
    pose proof (rewardsChain_reachable db1 (committed w) (User.id u) Hso)
      as Hreach.
    split.
    + intros Hr. apply Hreach in Hr.
      destruct (templatesHeld (committed w) (User.id u)) as [|pko pkos] eqn:Eh.
      { exfalso. apply Hr. apply rewardsChain_none_held.
        now rewrite (templatesHeld_sameOrders _ _ _ Hso). }
      destruct (Nat.eqb
                  (List.length (rewardsChain db1 (committed w) (User.id u)))
                  0) eqn:E.
      * apply length_zero_nil in E. contradiction.
      * simpl in Hg.
        assert (Hbody : body t sha req pledge (begun w)
                        = (Exn (alreadyHas t), w2)).
        { unfold body. rewrite (bind_val _ _ _ _ _ Hb).
          now rewrite (bind_exn _ _ _ _ _ Hg). }
        destruct (submitPledge_of_throw t sha req pledge w _ _ Hbegin Hroll
                    Hbody) as (w' & Hs & Hc & _).
        now exists w'.
    + intros Hr Hheld.
      destruct (templatesHeld (committed w) (User.id u)) as [|pko pkos];
        [now contradiction Hheld|].
      destruct (Nat.eqb
                  (List.length (rewardsChain db1 (committed w) (User.id u)))
                  0) eqn:E.
      * simpl in Hg. now exists w2.
      * exfalso. apply Hr, Hreach. intros Hnil. rewrite Hnil in E.
        discriminate.
Qed.

Lemma alice_reward_reachable :
  rewardReachable Fixture.store (User.id Fixture.alice).
Proof.
  exists (Pledge.mk 70 50 10 1000 0 None "SUCCESSFUL"),
         (PledgeOption.mk 70 1 1 1000), Fixture.tplA,
         (Reward.mk 100 "MembershipType").
  simpl. repeat split; auto.
Defined.

(** No reward is reachable from Dave's pledge of template B. *)
Lemma dave_no_reward :
  ~ rewardReachable Fixture.storeWithDave (User.id Fixture.dave).
Proof.
  intros Hr.
  apply (rewardsChain_reachable Fixture.storeWithDave Fixture.storeWithDave)
    in Hr.
  - apply Hr. reflexivity.
  - repeat split.
Defined.

(** Alice, whose pledge carries a reward, is stopped; Dave, whose pledge
    holds template B and no reward, is let through. *)
Lemma reduced_pledge_guard_witness :
  (forall o w',
     submitPledge Fixture.t Fixture.postfinanceSHA Fixture.asAlice
                  (Fixture.cart 3000 (Some "student") Fixture.aliceInput)
                  Fixture.world = (o, w') ->
     (o = Returned EmailVerify \/ exists e, o = Threw e) /\
     committed w' = committed Fixture.world) /\
  (exists w',
     submitPledge Fixture.t Fixture.postfinanceSHA Fixture.asAlice
                  (Fixture.cart 3000 (Some "student") Fixture.aliceInput)
                  Fixture.world
     = (Threw (alreadyHas Fixture.t), w') /\
     committed w' = committed Fixture.world) /\
  (exists w2,
     reducedPledgeGuard Fixture.t (-500) (Some Fixture.dave)
       (snd (beforeGuard Fixture.t Fixture.asDave
               (Fixture.cart 3000 (Some "student") Fixture.daveInput)
               (begun Fixture.worldWithDave)))
     = (Val tt, w2)).
Proof.
  split; [|split].
  - refine (proj1 (reduced_pledge_guard Fixture.t Fixture.postfinanceSHA
                     Fixture.asAlice
                     (Fixture.cart 3000 (Some "student") Fixture.aliceInput)
                     Fixture.world) _ _ _).
    + reflexivity.
    + vm_compute. discriminate.
    + exact alice_reward_reachable.
  - refine (proj1 (proj1 (proj2 (reduced_pledge_guard
                                   Fixture.t Fixture.postfinanceSHA
                                   Fixture.asAlice
                                   (Fixture.cart 3000 (Some "student")
                                                 Fixture.aliceInput)
                                   Fixture.world)
                            (mkSettled 10 (-500) (Some Fixture.alice) 1000)
                            (snd (beforeGuard Fixture.t Fixture.asAlice
                                    (Fixture.cart 3000 (Some "student")
                                                  Fixture.aliceInput)
                                    (begun Fixture.world)))
                            Fixture.alice eq_refl eq_refl eq_refl _ eq_refl)
                         _ _) _).
    + vm_compute. reflexivity.
    + reflexivity.
    + vm_compute. discriminate.
    + exact alice_reward_reachable.
  - refine (proj2 (proj1 (proj2 (reduced_pledge_guard
                                   Fixture.t Fixture.postfinanceSHA
                                   Fixture.asDave
                                   (Fixture.cart 3000 (Some "student")
                                                 Fixture.daveInput)
                                   Fixture.worldWithDave)
                            (mkSettled 10 (-500) (Some Fixture.dave) 900)
                            (snd (beforeGuard Fixture.t Fixture.asDave
                                    (Fixture.cart 3000 (Some "student")
                                                  Fixture.daveInput)
                                    (begun Fixture.worldWithDave)))
                            Fixture.dave eq_refl eq_refl eq_refl _ eq_refl)
                         _ _) _ _).
    + vm_compute. reflexivity.
    + reflexivity.
    + vm_compute. discriminate.
    + exact dave_no_reward.
    + vm_compute. discriminate.
Defined.

(** Alice has a pledge with a reachable reward. Her donation-negative
    submission without a reason fails at the reason check, before the guard
    is reached; the same submission with a reason but without a session
    does not fail at all: it returns [{emailVerify: true}]. *)
Lemma reduced_pledge_guard_counterexample :
  3000 - spec_regularTotal Fixture.store [Fixture.optA 3; Fixture.optB 1] < 0 /\
  pledges_count (User.id Fixture.alice) Fixture.store = 1%nat /\
  rewardReachable Fixture.store (User.id Fixture.alice) /\
  fst (submitPledge Fixture.t Fixture.postfinanceSHA Fixture.asAlice
         (Fixture.cart 3000 None Fixture.aliceInput) Fixture.world)
  = Threw (unexpected Fixture.t MissingReductionReason) /\
  fst (submitPledge Fixture.t Fixture.postfinanceSHA Fixture.asAlice
         (Fixture.cart 3000 None Fixture.aliceInput) Fixture.world)
  <> Threw (alreadyHas Fixture.t) /\
  fst (submitPledge Fixture.t Fixture.postfinanceSHA Fixture.anonymous
         (Fixture.cart 3000 (Some "student") Fixture.aliceInput)
         Fixture.world)
  = Returned EmailVerify.
Proof.
  simpl. split; [reflexivity|]. split; [reflexivity|].
  split; [exact alice_reward_reachable|].
  vm_compute. repeat split; try reflexivity. discriminate.
Qed.

(** A submission whose donation is negative and whose reason is absent or
    empty never gets past the reason check. *)
Lemma body_without_reason t postfinanceSHA req pledge w :
  PledgeInput.total pledge
    - spec_regularTotal (committed w) (PledgeInput.options pledge) < 0 ->
  noReason (PledgeInput.reason pledge) = true ->
  exists e w1, body t postfinanceSHA req pledge (begun w) = (Exn e, w1).
Proof.
  intros Hd Hn. unfold body, beforeGuard.
  destruct (validatePricing t pledge (begun w)) as [[pd|r|e] w1] eqn:Hv.
  - pose proof (validatePricing_val_inv t pledge _ _ _ Hv)
      as (db & Hw & _ & _ & _ & Hpd).
    simpl in Hw. inversion Hw; subst db. rewrite <- Hpd in Hd.
    destruct (checkReason_missing t pledge (snd pd) w1 Hd Hn) as (w2 & Hcr).
    exists (unexpected t MissingReductionReason), w2.
    erewrite bind_exn; [reflexivity|].
    rewrite (bind_val _ _ _ _ _ Hv). unfold settle.
    now rewrite (bind_exn _ _ _ _ _ Hcr).
  - now apply (validatePricing_returns t (fun _ => False)) in Hv.
  - exists e, w1.
    erewrite bind_exn; [reflexivity|].
    now rewrite (bind_exn _ _ _ _ _ Hv).
Qed.


(** ** The amount check *)

(** What the condition of the amount check decides. *)
Lemma amountCondition_spec pko plo :
  amountCondition pko plo = true <->
  (PackageOption.minAmount pko <= PledgeOptionInput.amount plo /\
   1 <= PackageOption.maxAmount pko) \/
  (PledgeOptionInput.amount plo < PackageOption.minAmount pko /\
   0 <= PackageOption.maxAmount pko).
Proof.
  unfold amountCondition. rewrite Z.leb_le.
  destruct (Z.leb_spec (PackageOption.minAmount pko)
                       (PledgeOptionInput.amount plo)); simpl; lia.
Qed.

(** With a maximum of at least one, every amount is let through. *)
Lemma amountCondition_any_amount pko plo :
  1 <= PackageOption.maxAmount pko -> amountCondition pko plo = true.
Proof. intros H. apply amountCondition_spec. lia. Qed.

(** C1. Template A allows amounts from 1 to 5. A submission of six of A
    is not failed by the amount check and is committed; so is a submission
    of none of A. The condition even fails at the boundary of a template
    whose minimum and maximum are both zero. *)
Theorem amount_check_lets_out_of_range_pass :
  PackageOption.minAmount Fixture.tplA = 1 /\
  PackageOption.maxAmount Fixture.tplA = 5 /\
  amountCondition Fixture.tplA (Fixture.optA 6) = true /\
  amountCondition Fixture.tplA (Fixture.optA 0) = true /\
  fst (submitPledge Fixture.t Fixture.postfinanceSHA Fixture.anonymous
         (PledgeInput.mk 6000 None Fixture.bob [Fixture.optA 6])
         Fixture.world)
  = Returned (Submitted 1002 1000 "sha" 1001) /\
  fst (submitPledge Fixture.t Fixture.postfinanceSHA Fixture.anonymous
         (PledgeInput.mk 100 None Fixture.bob [Fixture.optA 0])
         Fixture.world)
  = Returned (Submitted 1002 1000 "sha" 1001) /\
  amountCondition (PackageOption.mk 4 10 None 0 0 1000 false 0)
                  (PledgeOptionInput.mk 4 0 1000) = false.
Proof. vm_compute. repeat split; reflexivity. Qed.

(** ** The template check *)

Lemma nodup_length_le (l : list uuid) :
  (List.length (nodup N.eq_dec l) <= List.length l)%nat.
Proof.
  induction l as [|a l IH]; simpl; [lia|].
  destruct (in_dec N.eq_dec a l); simpl; lia.
Qed.

(** Loading keeps the ids of the catalog distinct. *)
Lemma loaded_ids_distinct db plos :
  NoDup (map PackageOption.id (packageOptions db)) ->
  NoDup (map PackageOption.id (loadedTemplates db plos)).
Proof.
  unfold loadedTemplates, packageOptions_find.
  generalize (map PledgeOptionInput.templateId plos) as ids. intros ids.
  induction (packageOptions db) as [|pko catalog IH]; simpl; intros Hkey.
  - constructor.
  - inversion Hkey as [|i others Hfresh Hrest]; subst.
    destruct (inIds (PackageOption.id pko) ids); simpl; [|now apply IH].
    constructor; [|now apply IH].
    intros Hin. apply Hfresh. apply in_map_iff in Hin.
    destruct Hin as (other & Hid & Hin). apply filter_In in Hin.
    apply in_map_iff. exists other. tauto.
Qed.

(** With ids that are a key of the catalog, no more templates are found
    than distinct ids are asked for, and no more distinct ids than
    options. *)
Lemma loaded_le_distinct db plos :
  NoDup (map PackageOption.id (packageOptions db)) ->
  (List.length (loadedTemplates db plos) <= distinctTemplateIds plos
   <= List.length plos)%nat.
Proof.
  intros Hkey. unfold distinctTemplateIds. split.
  - rewrite <- (length_map PackageOption.id (loadedTemplates db plos)).
    apply NoDup_incl_length.
    + now apply loaded_ids_distinct.
    + intros i Hi. apply nodup_In.
      unfold loadedTemplates, packageOptions_find in Hi.
      apply in_map_iff in Hi. destruct Hi as (pko & <- & Hin).
      apply filter_In in Hin. now apply inIds_In.
  - rewrite <- (length_map PledgeOptionInput.templateId plos).
    apply nodup_length_le.
Qed.

Section TemplateCheck.

Variable t : string -> string.

(** The template check compares the number of templates found with the
    number of submitted options. *)
Lemma template_check_counts_options pledge w db :
  working w = Some db -> rejects w = false ->
  ((exists e w',
      checkTemplates t pledge w = (Exn e, w') /\
      cause e = InvalidTemplateReference)
   <-> (List.length (loadedTemplates db (PledgeInput.options pledge))
        < List.length (PledgeInput.options pledge))%nat).
Proof.
  intros Hw Hr.
  destruct (PledgeInput.options pledge) as [|plo0 others] eqn:Eo.
  { split; [|simpl; lia].
    intros (e & w' & H & Hc). unfold checkTemplates in H. rewrite Eo in H.
    inversion H; subst e. discriminate. }
  rewrite <- Eo.
  assert (Hne : map PledgeOptionInput.templateId (PledgeInput.options pledge)
                <> []) by (rewrite Eo; discriminate).
  pose proof (queryIn_val _ (packageOptions_find
                (map PledgeOptionInput.templateId
                     (PledgeInput.options pledge))) w db Hne Hw Hr) as Hq.
  fold (loadedTemplates db (PledgeInput.options pledge)) in Hq.
  unfold checkTemplates. rewrite (bind_val _ _ _ _ _ Hq).
  destruct (Nat.ltb_spec
              (List.length (loadedTemplates db (PledgeInput.options pledge)))
              (List.length (PledgeInput.options pledge))) as [Hlt|Hge].
  - split; [intros _; exact Hlt|]. intros _.
    do 2 eexists. split; [reflexivity|reflexivity].
  - split; [|lia]. intros (e & w' & H & Hc). exfalso.
    rewrite (bind_val _ _ _ _ _ (eq_refl : ret tt _ = (Val tt, _))) in H.
    assert (Hin : In e (thrownByCheckOptions t)).
    { revert H.
      apply (raises_bind (fun e => In e (thrownByCheckOptions t)));
        [apply raises_deref; simpl; auto | intros first].
      apply raises_bind; [apply checkOptions_raises | intros u].
      apply raises_ret. }
    not_thrown Hin Hc.
Qed.

End TemplateCheck.

(** Options that refer to pairwise distinct templates of the catalog find
    a template each. *)
Lemma distinct_existing_all_found db plos :
  NoDup (map PledgeOptionInput.templateId plos) ->
  (forall plo, In plo plos -> templateOf db plo <> None) ->
  (List.length plos <= List.length (loadedTemplates db plos))%nat.
Proof.
  intros Hdistinct Hexist.
  rewrite <- (length_map PledgeOptionInput.templateId plos).
  rewrite <- (length_map PackageOption.id (loadedTemplates db plos)).
  apply NoDup_incl_length; [exact Hdistinct|].
  intros tid Htid. pose proof Htid as Hin.
  apply in_map_iff in Hin. destruct Hin as (plo & <- & Hplo).
  specialize (Hexist plo Hplo). unfold templateOf, findTemplate in Hexist.
  destruct (find (fun pko => N.eqb (PackageOption.id pko)
                                   (PledgeOptionInput.templateId plo))
                 (packageOptions db)) as [pko|] eqn:E; [|congruence].
  apply find_some in E. destruct E as [Hpko Hid]. apply N.eqb_eq in Hid.
  apply in_map_iff. exists pko. split; [exact Hid|].
  unfold loadedTemplates, packageOptions_find. apply filter_In.
  split; [exact Hpko|]. apply inIds_In. now rewrite Hid.
Qed.

(** C4. On a store that answers the lookup (and performs the begin and
    the rollback), the mutation fails at the template check exactly when
    fewer templates are found than options were submitted. In particular a
    submission whose options refer to pairwise distinct templates of the
    catalog does not fail this check. *)
Theorem invalid_template_reference :
  forall t postfinanceSHA req pledge w,
    rejects (begun w) = false ->
    (refusesBegin w = false -> refusesRollback w = false ->
     ((exists e w',
         submitPledge t postfinanceSHA req pledge w = (Threw e, w') /\
         cause e = InvalidTemplateReference)
      <-> (List.length (loadedTemplates (committed w)
                                        (PledgeInput.options pledge))
           < List.length (PledgeInput.options pledge))%nat)) /\
    (NoDup (map PledgeOptionInput.templateId (PledgeInput.options pledge)) ->
     (forall plo, In plo (PledgeInput.options pledge) ->
        templateOf (committed w) plo <> None) ->
     forall e w',
       submitPledge t postfinanceSHA req pledge w = (Threw e, w') ->
       cause e <> InvalidTemplateReference).
Proof.
  intros t sha req pledge w Hr.
  pose proof (template_check_counts_options t pledge (begun w)
                (committed w) eq_refl Hr) as Hcheck.
  assert (Hfires :
    (exists e w',
        submitPledge t sha req pledge w = (Threw e, w') /\
        cause e = InvalidTemplateReference)
    -> (List.length (loadedTemplates (committed w)
                                     (PledgeInput.options pledge))
        < List.length (PledgeInput.options pledge))%nat).
  { intros (e & w' & Hs & Hc). apply Hcheck.
    apply submitPledge_threw_cause in Hs; [|rewrite Hc; discriminate].
    destruct Hs as (w1 & Hb).
    unfold body in Hb. apply bind_exn_inv in Hb.
    destruct Hb as [Hb | (s & w2 & _ & Hb)].
    + unfold beforeGuard in Hb. apply bind_exn_inv in Hb.
      destruct Hb as [Hb | (pd & w3 & _ & Hb)].
      * unfold validatePricing in Hb. apply bind_exn_inv in Hb.
        destruct Hb as [Hb | (cp & w4 & _ & Hb)]; [now exists e, w1|].
        exfalso. apply bind_exn_inv in Hb.
        destruct Hb as [Hb | (d & w5 & _ & Hb)]; [|discriminate].
        apply checkTotal_raises in Hb. not_thrown Hb Hc.
      * exfalso. apply settle_raises in Hb. not_thrown Hb Hc.
    + exfalso. apply bind_exn_inv in Hb.
      destruct Hb as [Hb | (u & w4 & _ & Hb)].
      * apply reducedPledgeGuard_raises in Hb. not_thrown Hb Hc.
      * apply afterGuard_raises in Hb. not_thrown Hb Hc. }
  split.
  { intros Hbegin Hroll. split; [exact Hfires|].
    intros Hlt. apply Hcheck in Hlt. destruct Hlt as (e & w1 & Hct & Hc).
    assert (Hb : body t sha req pledge (begun w) = (Exn e, w1)).
    { unfold body, beforeGuard, validatePricing.
      erewrite bind_exn; [reflexivity|].
      erewrite bind_exn; [reflexivity|].
      erewrite bind_exn; [reflexivity|]. exact Hct. }
    destruct (submitPledge_of_throw t sha req pledge w e w1 Hbegin Hroll Hb)
      as (w' & Hs & _).
    now exists e, w'. }
  intros Hdistinct Hexist e w' Hs Hc.
  pose proof (distinct_existing_all_found (committed w) _ Hdistinct Hexist)
    as Hall.
  assert (Hlt : (List.length (loadedTemplates (committed w)
                                (PledgeInput.options pledge))
                 < List.length (PledgeInput.options pledge))%nat).
  { apply Hfires. now exists e, w'. }
  lia.
Qed.

Lemma invalid_template_reference_witness :
  (exists e w',
     submitPledge Fixture.t Fixture.postfinanceSHA Fixture.anonymous
                  (PledgeInput.mk 1500 None Fixture.bob
                     [Fixture.optA 1; PledgeOptionInput.mk 9 1 500])
                  Fixture.world = (Threw e, w') /\
     cause e = InvalidTemplateReference) /\
  (forall e w',
     submitPledge Fixture.t Fixture.postfinanceSHA Fixture.anonymous
                  (Fixture.cart 3500 None Fixture.bob) Fixture.world
     = (Threw e, w') ->
     cause e <> InvalidTemplateReference).
Proof.
  split.
  - apply (proj2 (proj1 (invalid_template_reference
                           Fixture.t Fixture.postfinanceSHA Fixture.anonymous
                           (PledgeInput.mk 1500 None Fixture.bob
                              [Fixture.optA 1; PledgeOptionInput.mk 9 1 500])
                           Fixture.world eq_refl) eq_refl eq_refl)).
    vm_compute. lia.
  - apply (proj2 (invalid_template_reference
                    Fixture.t Fixture.postfinanceSHA Fixture.anonymous
                    (Fixture.cart 3500 None Fixture.bob)
                    Fixture.world eq_refl)).
    + simpl. repeat constructor; simpl; intuition discriminate.
    + intros plo [<-|[<-|[]]]; vm_compute; discriminate.
Defined.

(** Two options that both refer to template A: one distinct template id is
    referenced and one template is found, so no fewer templates are found
    than distinct ids and every option refers to an existing template; the
    mutation nevertheless fails at the template check. *)
Lemma invalid_template_reference_counterexample :
  distinctTemplateIds [Fixture.optA 1; Fixture.optA 1] = 1%nat /\
  List.length (loadedTemplates Fixture.store [Fixture.optA 1; Fixture.optA 1])
  = 1%nat /\
  forallb (fun plo => match templateOf Fixture.store plo with
                      | Some _ => true
                      | None => false
                      end) [Fixture.optA 1; Fixture.optA 1] = true /\
  fst (submitPledge Fixture.t Fixture.postfinanceSHA Fixture.anonymous
         (PledgeInput.mk 2000 None Fixture.bob
                         [Fixture.optA 1; Fixture.optA 1])
         Fixture.world)
  = Threw (unexpected Fixture.t InvalidTemplateReference).
Proof. vm_compute. repeat split; reflexivity. Qed.

(** ** The surfaced messages *)

(** Each failure site with the value its [throw] carries. *)
Lemma surfaced_values t postfinanceSHA req pledge w e w' :
  submitPledge t postfinanceSHA req pledge w = (Threw e, w') ->
  match cause e with
  | TotalBelowMinimum => value e = ReferenceError "total"
  | ReducedPledgeAlreadyUsed =>
      value e = Error (t "api/membership/reduced/alreadyHas")
  | UndefinedDereference => value e = TypeError
  | StoreFailure => value e = StoreError
  | _ => value e = Error (t "api/unexpected")
  end.
Proof.
  intros H. apply submitPledge_threw_inv in H.
  destruct H as [-> | (w1 & H)]; [reflexivity|].
  apply body_raises in H. simpl in H.
  repeat (destruct H as [H|H]; [subst; reflexivity|]). contradiction.
Qed.

(** C9. A cart with a minimum total of 2900 submitted at a total of 2000
    fails the total check; what reaches the caller is the ReferenceError
    raised while building the log message, not the error carrying the
    message of [api/unexpected], whatever the translator is, and the only
    line logged is that of the rollback. *)
Theorem total_check_surfaces_reference_error :
  forall t postfinanceSHA,
    let run := submitPledge t postfinanceSHA Fixture.anonymous
                 (Fixture.cart 2000 (Some "student") Fixture.bob)
                 Fixture.world in
    fst run = Threw (mkThrown TotalBelowMinimum (ReferenceError "total")) /\
    ReferenceError "total" <> Error (t "api/unexpected") /\
    logs (snd run) = [mkLog LInfo "transaction rollback"].
Proof.
  intros t sha. vm_compute. repeat split; try reflexivity. discriminate.
Qed.

(** * Further properties of the mutation *)

(** ** The store only grows *)

#[local] Instance grows_preorder : RelationClasses.PreOrder grows.
Proof.
  split.
  - intros db. split; auto; exists []; now rewrite app_nil_r.
  - intros a b c [Hc Hs Hr (l1 & Hp) (l2 & Ho) (l3 & Hu)]
             [Hc' Hs' Hr' (l1' & Hp') (l2' & Ho') (l3' & Hu')].
    split; try congruence.
    + exists (l1 ++ l1')%list. rewrite Hp', Hp. now rewrite app_assoc.
    + exists (l2 ++ l2')%list. rewrite Ho', Ho. now rewrite app_assoc.
    + exists (l3 ++ l3')%list. rewrite Hu', Hu. now rewrite app_assoc.
Qed.

#[local] Instance workingGrows_preorder :
  RelationClasses.PreOrder workingGrows.
Proof.
  split.
  - intros w db H. exists db. split; [exact H | reflexivity].
  - intros a b c Hab Hbc db H.
    destruct (Hab db H) as (db1 & H1 & G1).
    destruct (Hbc db1 H1) as (db2 & H2 & G2).
    exists db2. split; [exact H2 | now transitivity db1].
Qed.

Lemma untouched_workingGrows w w' : untouched w w' -> workingGrows w w'.
Proof.
  intros [_ Hw _ _ _] db H. exists db. split; [congruence | reflexivity].
Qed.

Lemma workingGrows_genId : stable workingGrows genId.
Proof.
  intros w o w' H. inversion H. intros db Hw. exists db.
  split; [exact Hw | reflexivity].
Qed.

(** A call on the transaction whose write only grows the store. *)
Lemma workingGrows_query {A} (q : DB -> A * DB) :
  (forall db, grows db (snd (q db))) -> stable workingGrows (query q).
Proof.
  intros Hq w o w'. unfold query. destruct (working w) as [db|] eqn:E.
  - destruct (rejects w).
    + intros H; inversion H. intros d Hd. exists d.
      split; [simpl; congruence | reflexivity].
    + specialize (Hq db). destruct (q db) as [a db']. simpl in Hq.
      intros H; inversion H. intros d Hd. exists db'.
      split; [reflexivity | congruence].
  - intros H; inversion H. intros d Hd. congruence.
Qed.

Lemma renameUser_id i first last u :
  User.id (renameUser i first last u) = User.id u.
Proof. unfold renameUser. now destruct (N.eqb (User.id u) i). Qed.

Lemma grows_insert_user i u db : grows db (snd (users_insertAndGet i u db)).
Proof.
  simpl. split; simpl; auto; try (exists []; now rewrite app_nil_r).
  exists [i]. now rewrite map_app.
Qed.

Lemma grows_update_user i first last db :
  grows db (snd (users_updateAndGetOne i first last db)).
Proof.
  simpl. split; simpl; auto; try (exists []; now rewrite app_nil_r).
  exists []. rewrite app_nil_r, map_map. apply map_ext.
  intros u. apply renameUser_id.
Qed.

Lemma grows_insert_pledge row db :
  grows db (snd (pledges_insertAndGet row db)).
Proof.
  simpl. split; simpl; auto; try (exists []; now rewrite app_nil_r).
  now exists [row].
Qed.

Lemma grows_insert_option row db :
  grows db (snd (pledgeOptions_insertAndGet row db)).
Proof.
  simpl. split; simpl; auto; try (exists []; now rewrite app_nil_r).
  now exists [row].
Qed.

Ltac grows_step :=
  first
    [ solve [ apply (stable_weaken untouched workingGrows);
              [ exact untouched_workingGrows | eauto with stable ] ]
    | apply workingGrows_genId
    | apply workingGrows_query;
      solve [ apply grows_insert_user | apply grows_update_user
            | apply grows_insert_pledge | apply grows_insert_option ]
    | apply stable_bind; [| intros ]
    | apply stable_ret | apply stable_throw | apply stable_returnWith
    | apply stable_deref
    | match goal with
      | |- stable _ (if ?b then _ else _) => destruct b
      | |- stable _ (match ?x with _ => _ end) => destruct x
      end ].

Section Grows.

Variable t : string -> string.
Variable postfinanceSHA : uuid -> Z -> uuid -> uuid -> string.

Lemma beforeGuard_workingGrows req pledge :
  stable workingGrows (beforeGuard t req pledge).
Proof.
  pose proof (validatePricing_untouched t).
  pose proof (checkReason_untouched t).
  unfold beforeGuard, settle, resolveUser, syncUserProfile, resolveAlias.
  repeat grows_step.
Qed.

Lemma promiseAll_workingGrows {A B} (f : A -> M B) l :
  (forall a, stable workingGrows (f a)) ->
  stable workingGrows (promiseAll f l).
Proof.
  apply stable_promiseAll.
Qed.

Lemma insertPledge_workingGrows pid d pledge user :
  stable workingGrows (insertPledge pid d pledge user).
Proof.
  unfold insertPledge. repeat grows_step.
  apply promiseAll_workingGrows. intros plo. repeat grows_step.
Qed.

(** The steps of a run that reaches its end. *)
Lemma body_val_steps req pledge w r w' :
  body t postfinanceSHA req pledge w = (Val r, w') ->
  exists s w1 w2 pu w3,
    beforeGuard t req pledge w = (Val s, w1) /\
    reducedPledgeGuard t (s_donation s) (s_user s) w1 = (Val tt, w2) /\
    insertPledge (s_packageId s) (s_donation s) pledge (s_user s) w2
    = (Val pu, w3) /\
    transactionCommit w3 = (Val tt, w') /\
    r = Submitted (Pledge.id (fst pu)) (User.id (snd pu))
                  (postfinanceSHA (Pledge.id (fst pu)) (Pledge.total (fst pu))
                                  (s_alias s) (User.id (snd pu)))
                  (s_alias s).
Proof.
  unfold body. intros H.
  apply bind_val_inv in H. destruct H as (s & w1 & Hb & H).
  apply bind_val_inv in H. destruct H as ([] & w2 & Hg & H).
  unfold afterGuard in H.
  apply bind_val_inv in H. destruct H as (pu & w3 & Hi & H).
  apply bind_val_inv in H. destruct H as ([] & w4 & Hc & H).
  inversion H; subst. now exists s, w1, w2, pu, w3.
Qed.

Lemma body_val_grows req pledge w r w' :
  body t postfinanceSHA req pledge (begun w) = (Val r, w') ->
  grows (committed w) (committed w').
Proof.
  intros H. apply body_val_steps in H.
  destruct H as (s & w1 & w2 & pu & w3 & Hb & Hg & Hi & Hc & _).
  apply beforeGuard_workingGrows in Hb.
  apply reducedPledgeGuard_untouched, untouched_workingGrows in Hg.
  apply insertPledge_workingGrows in Hi.
  assert (Hall : workingGrows (begun w) w3).
  { transitivity w1; [exact Hb|]. now transitivity w2. }
  destruct (Hall (committed w) eq_refl) as (db3 & Hdb3 & G).
  apply transactionCommit_val_inv in Hc.
  destruct Hc as (db & Hdb & Hcm & _). congruence.
Qed.

End Grows.

(** X1. Whatever a call of the mutation ends with, the committed store
    afterwards has the same catalog, payment sources and rewards as before,
    the same pledges and pledge options with at most new ones appended,
    and the same users in the same order (possibly renamed) with at most
    new ones appended: the mutation deletes nothing, touches no existing
    pledge and never stores the payment alias. *)
Theorem store_only_grows :
  forall t postfinanceSHA req pledge w o w',
    submitPledge t postfinanceSHA req pledge w = (o, w') ->
    grows (committed w) (committed w').
Proof.
  intros t sha req pledge w o w' H.
  destruct (submitPledge_inv t sha req pledge w o w' H)
    as [(_ & _ & Hw) | (_ & [(r & _ & [E | E])
       | (e & w1 & E & [(_ & _ & Hw) | (_ & _ & Hw)])])].
  - subst w'. reflexivity.
  - eapply body_val_grows; eauto.
  - apply body_ret_framed in E. destruct E as [Hc _ _ _].
    simpl in Hc. rewrite Hc. reflexivity.
  - subst w'. apply body_exn_kept in E. destruct E as [Hc _ _].
    simpl in *. rewrite Hc. reflexivity.
  - subst w'. apply body_exn_kept in E. destruct E as [Hc _ _].
    simpl in Hc. rewrite Hc. reflexivity.
Qed.

Lemma store_only_grows_witness :
  grows Fixture.store
        (committed (snd (submitPledge Fixture.t Fixture.postfinanceSHA
                           Fixture.anonymous
                           (Fixture.cart 3500 None Fixture.bob)
                           Fixture.world))).
Proof.
  apply (store_only_grows Fixture.t Fixture.postfinanceSHA Fixture.anonymous
           (Fixture.cart 3500 None Fixture.bob) Fixture.world
           (fst (submitPledge Fixture.t Fixture.postfinanceSHA
                   Fixture.anonymous (Fixture.cart 3500 None Fixture.bob)
                   Fixture.world))).
  vm_compute. reflexivity.
Defined.

(** ** The checks on the templates *)

Section TemplateChecks.

Variable t : string -> string.
Variable postfinanceSHA : uuid -> Z -> uuid -> uuid -> string.

(** Over templates whose maximum is at least one, the loop throws nothing
    but the cross-package error and the error of a missing template. *)
Lemma checkOptions_raises_positive_max pid pkos plos :
  (forall pko, In pko pkos -> 1 <= PackageOption.maxAmount pko) ->
  raises (fun e => In e [typeError; unexpected t CrossPackageSelection])
         (checkOptions t pid pkos plos).
Proof.
  intros Hmax. induction plos as [|plo rest IH]; simpl; intros w e w' H.
  - discriminate.
  - apply bind_exn_inv in H. destruct H as [H | (pko & w1 & Hd & H)].
    + destruct (findTemplate pkos (PledgeOptionInput.templateId plo));
        [discriminate|].
      inversion H. simpl. auto.
    + destruct (findTemplate pkos (PledgeOptionInput.templateId plo))
        as [pko0|] eqn:E; [|discriminate].
      inversion Hd; subst pko0 w1. clear Hd.
      destruct (negb (N.eqb pid (PackageOption.packageId pko))).
      * unfold bind, logger, throw in H. inversion H. simpl. auto.
      * rewrite amountCondition_any_amount in H.
        -- simpl in H. eapply IH; eauto.
        -- apply Hmax. unfold findTemplate in E. now apply find_some in E.
Qed.

(** What the template checks throw over a catalog whose maxima are all at
    least one: never the amount error. *)
Lemma checkTemplates_raises_positive_max pledge w db e w' :
  working w = Some db ->
  (forall pko, In pko (packageOptions db) ->
     1 <= PackageOption.maxAmount pko) ->
  checkTemplates t pledge w = (Exn e, w') ->
  In e [storeError; unexpected t InvalidTemplateReference; typeError;
        unexpected t CrossPackageSelection].
Proof.
  intros Hw Hmax H. unfold checkTemplates in H.
  apply bind_exn_inv in H. destruct H as [H | (pkos & w1 & Hq & H)].
  { apply queryIn_exn_inv in H. destruct H as [-> _]. simpl. auto. }
  apply queryIn_val_inv in Hq. destruct Hq as (_ & db0 & Hw0 & _ & -> & _).
  rewrite Hw in Hw0. inversion Hw0; subst db0. clear Hw0.
  apply bind_exn_inv in H. destruct H as [H | (u & w2 & _ & H)].
  { destruct (_ <? _)%nat; [|discriminate].
    unfold bind, logger, throw in H. inversion H. simpl. auto. }
  apply bind_exn_inv in H. destruct H as [H | (first & w3 & _ & H)].
  { match type of H with deref ?x _ = _ => destruct x end;
      [discriminate|]. inversion H. simpl. auto. }
  apply bind_exn_inv in H. destruct H as [H | (u' & w4 & _ & H)];
    [|discriminate].
  apply checkOptions_raises_positive_max in H.
  - simpl in H. simpl. tauto.
  - intros pko Hin. apply Hmax. unfold packageOptions_find in Hin.
    now apply filter_In in Hin.
Qed.

(** A throw of the mutation that does not come from the template checks
    is none of theirs. *)
Lemma body_exn_sites req pledge w e w' :
  body t postfinanceSHA req pledge w = (Exn e, w') ->
  (exists w1, checkTemplates t pledge w = (Exn e, w1)) \/
  In e (thrownByCheckTotal ++ thrownBySettle t ++ thrownByGuard t
        ++ thrownByAfterGuard).
Proof.
  unfold body. intros H. apply bind_exn_inv in H.
  destruct H as [H | (s & w2 & _ & H)].
  - unfold beforeGuard in H. apply bind_exn_inv in H.
    destruct H as [H | (pd & w3 & _ & H)].
    + unfold validatePricing in H. apply bind_exn_inv in H.
      destruct H as [H | (cp & w4 & _ & H)]; [left; now exists w'|].
      right. apply bind_exn_inv in H.
      destruct H as [H | (d & w5 & _ & H)]; [|discriminate].
      apply checkTotal_raises in H. apply in_or_app. now left.
    + right. apply settle_raises in H.
      apply in_or_app. right. apply in_or_app. now left.
  - right. apply bind_exn_inv in H. destruct H as [H | (u & w4 & _ & H)].
    + apply reducedPledgeGuard_raises in H.
      do 2 (apply in_or_app; right). apply in_or_app. now left.
    + apply afterGuard_raises in H. do 3 (apply in_or_app; right). exact H.
Qed.

End TemplateChecks.

(** X2. Over a catalog in which every template has a maximum amount of at
    least one, no submission is ever failed by the amount check, whatever
    amounts it carries: the condition on line 34 lets every amount
    through. *)
Theorem amount_check_never_fires :
  forall t postfinanceSHA req pledge w e w',
    (forall pko, In pko (packageOptions (committed w)) ->
       1 <= PackageOption.maxAmount pko) ->
    submitPledge t postfinanceSHA req pledge w = (Threw e, w') ->
    cause e <> AmountOutOfRange.
Proof.
  intros t sha req pledge w e w' Hmax Hs Hc.
  apply submitPledge_threw_inv in Hs. destruct Hs as [-> | (w1 & Hb)];
    [discriminate|].
  apply body_exn_sites in Hb. destruct Hb as [(w2 & Hb) | Hin].
  - eapply checkTemplates_raises_positive_max in Hb;
      [| reflexivity | exact Hmax].
    not_thrown Hb Hc.
  - not_thrown Hin Hc.
Qed.

(** Nine of template A, whose maximum is five, and one of B, at a total
    below the floor: the loop lets both options through and the run is
    stopped by the check of the total. *)
Lemma amount_check_never_fires_witness :
  checkTemplates Fixture.t
    (PledgeInput.mk 100 None Fixture.bob [Fixture.optA 9; Fixture.optB 1])
    (begun Fixture.world)
  = (Val (10%N, [Fixture.tplA; Fixture.tplB]),
     tick (begun Fixture.world)) /\
  cause (mkThrown TotalBelowMinimum (ReferenceError "total"))
  <> AmountOutOfRange.
Proof.
  split; [vm_compute; reflexivity|].
  refine (amount_check_never_fires Fixture.t Fixture.postfinanceSHA
            Fixture.anonymous
            (PledgeInput.mk 100 None Fixture.bob
                            [Fixture.optA 9; Fixture.optB 1])
            Fixture.world _
            (snd (submitPledge Fixture.t Fixture.postfinanceSHA
                    Fixture.anonymous
                    (PledgeInput.mk 100 None Fixture.bob
                       [Fixture.optA 9; Fixture.optB 1])
                    Fixture.world)) _ _).
  - intros pko [<-|[<-|[<-|[]]]]; simpl; lia.
  - vm_compute. reflexivity.
Defined.

(** ** Options of two packages *)

Section CrossPackage.

Variable t : string -> string.
Variable postfinanceSHA : uuid -> Z -> uuid -> uuid -> string.

(** Two options whose templates belong to different packages cannot both
    pass the loop. *)
Lemma checkTemplates_two_packages pledge w db plo1 plo2 pko1 pko2 cp w' :
  working w = Some db ->
  In plo1 (PledgeInput.options pledge) ->
  In plo2 (PledgeInput.options pledge) ->
  templateOf db plo1 = Some pko1 ->
  templateOf db plo2 = Some pko2 ->
  PackageOption.packageId pko1 <> PackageOption.packageId pko2 ->
  checkTemplates t pledge w <> (Val cp, w').
Proof.
  intros Hw H1 H2 T1 T2 Hne H.
  apply checkTemplates_val_inv in H.
  destruct H as (db0 & first & Hw0 & _ & _ & Hl & _ & _ & _ & Hall).
  rewrite Hw in Hw0. inversion Hw0; subst db0. clear Hw0.
  destruct (Hall plo1 H1) as (p1 & F1 & P1 & _).
  destruct (Hall plo2 H2) as (p2 & F2 & P2 & _).
  rewrite Hl, findTemplate_loadedTemplates in F1, F2 by assumption.
  apply Hne. congruence.
Qed.

Lemma checkTemplates_returns P pledge : returns P (checkTemplates t pledge).
Proof.
  unfold checkTemplates. returns_tac. apply checkOptions_returns.
Qed.

(** When every option finds its template, the loop over templates whose
    maximum is at least one throws nothing but the cross-package error. *)
Lemma checkOptions_raises_found pid pkos plos :
  (forall pko, In pko pkos -> 1 <= PackageOption.maxAmount pko) ->
  (forall plo, In plo plos ->
     findTemplate pkos (PledgeOptionInput.templateId plo) <> None) ->
  raises (fun e => e = unexpected t CrossPackageSelection)
         (checkOptions t pid pkos plos).
Proof.
  intros Hmax Hfound w e w' H.
  pose proof (checkOptions_raises_positive_max t pid pkos plos Hmax _ _ _ H)
    as Hin.
  destruct Hin as [<-|[<-|[]]]; [|reflexivity]. exfalso.
  revert w H. induction plos as [|plo rest IH]; simpl; intros w H.
  - discriminate.
  - destruct (findTemplate pkos (PledgeOptionInput.templateId plo))
      as [pko|] eqn:E.
    + simpl in H. rewrite (bind_val _ _ _ _ _ (eq_refl : ret pko w = _)) in H.
      destruct (negb (N.eqb pid (PackageOption.packageId pko))).
      * unfold bind, logger, throw in H. inversion H.
      * destruct (amountCondition pko plo); simpl in H.
        -- eapply IH; eauto. intros q Hq. apply Hfound. now right.
        -- unfold bind, logger, throw in H. inversion H.
    + apply (Hfound plo); [now left | exact E].
Qed.

End CrossPackage.

(** X3. A submission with two options whose templates belong to different
    packages never gets past the template checks: the mutation throws one
    of their errors and commits nothing. When moreover the options refer to
    pairwise distinct templates of the catalog, every template of the
    catalog has a maximum of at least one and the store answers the lookup,
    the error is the cross-package one. *)
Theorem two_packages_fail :
  forall t postfinanceSHA req pledge w plo1 plo2 pko1 pko2,
    In plo1 (PledgeInput.options pledge) ->
    In plo2 (PledgeInput.options pledge) ->
    templateOf (committed w) plo1 = Some pko1 ->
    templateOf (committed w) plo2 = Some pko2 ->
    PackageOption.packageId pko1 <> PackageOption.packageId pko2 ->
    exists e w',
      submitPledge t postfinanceSHA req pledge w = (Threw e, w') /\
      In e (thrownByCheckTemplates t) /\
      committed w' = committed w /\
      (refusesBegin w = false -> refusesRollback w = false ->
       rejects (begun w) = false ->
       NoDup (map PledgeOptionInput.templateId (PledgeInput.options pledge)) ->
       (forall plo, In plo (PledgeInput.options pledge) ->
          templateOf (committed w) plo <> None) ->
       (forall pko, In pko (packageOptions (committed w)) ->
          1 <= PackageOption.maxAmount pko) ->
       e = unexpected t CrossPackageSelection).
Proof.
  intros t sha req pledge w plo1 plo2 pko1 pko2 H1 H2 T1 T2 Hne.
  destruct (checkTemplates t pledge (begun w))
    as [[cp|r|e] w1] eqn:E.
  - exfalso. revert E.
    now apply (checkTemplates_two_packages t pledge _ (committed w)
                 plo1 plo2 pko1 pko2).
  - now apply (checkTemplates_returns t (fun _ => False)) in E.
  - assert (Hb : body t sha req pledge (begun w) = (Exn e, w1)).
    { unfold body, beforeGuard, validatePricing.
      erewrite bind_exn; [reflexivity|].
      erewrite bind_exn; [reflexivity|].
      erewrite bind_exn; [reflexivity|]. exact E. }
    destruct (submitPledge_of_exn t sha req pledge w e w1 Hb)
      as (e' & w' & Hs & Hc & He & Hok).
    exists e', w'. split; [exact Hs|].
    split.
    { destruct He as [-> | ->]; [eapply checkTemplates_raises; eauto|].
      simpl. auto. }
    split; [exact Hc|].
    intros Hbegin Hroll Hr Hdistinct Hexist Hmax.
    destruct (Hok Hbegin Hroll) as (-> & _).
    pose proof (distinct_existing_all_found (committed w) _ Hdistinct Hexist)
      as Hlen.
    assert (Hids : map PledgeOptionInput.templateId
                       (PledgeInput.options pledge) <> []).
    { destruct (PledgeInput.options pledge); [contradiction | discriminate]. }
    pose proof (queryIn_val _ (packageOptions_find
                  (map PledgeOptionInput.templateId
                       (PledgeInput.options pledge)))
                  (begun w) (committed w) Hids eq_refl Hr) as Hq.
    fold (loadedTemplates (committed w) (PledgeInput.options pledge)) in Hq.
    unfold checkTemplates in E. rewrite (bind_val _ _ _ _ _ Hq) in E.
    apply Nat.ltb_ge in Hlen. rewrite Hlen in E.
    rewrite (bind_val _ _ _ _ _ (eq_refl : ret tt _ = (Val tt, _))) in E.
    destruct (loadedTemplates (committed w) (PledgeInput.options pledge))
      as [|first rest] eqn:El.
    { exfalso. apply Nat.ltb_ge in Hlen.
      destruct (PledgeInput.options pledge); [contradiction | simpl in Hlen; lia]. }
    cbn [nth_error deref] in E.
    rewrite (bind_val _ _ _ _ _ (eq_refl : ret first _ = (Val first, _))) in E.
    apply bind_exn_inv in E. destruct E as [E | (u & w2 & _ & E)];
      [|discriminate].
    revert E. apply (checkOptions_raises_found t).
    + intros pko Hin. apply Hmax. rewrite <- El in Hin.
      unfold loadedTemplates, packageOptions_find in Hin.
      now apply filter_In in Hin.
    + intros plo Hin. rewrite <- El.
      rewrite findTemplate_loadedTemplates by exact Hin. now apply Hexist.
Qed.

Lemma two_packages_fail_witness :
  exists w',
    submitPledge Fixture.t Fixture.postfinanceSHA Fixture.anonymous
                 (PledgeInput.mk 1500 None Fixture.bob
                                 [Fixture.optA 1; Fixture.optC 1])
                 Fixture.world
    = (Threw (unexpected Fixture.t CrossPackageSelection), w') /\
    committed w' = Fixture.store.
Proof.
  destruct (two_packages_fail Fixture.t Fixture.postfinanceSHA
              Fixture.anonymous
              (PledgeInput.mk 1500 None Fixture.bob
                              [Fixture.optA 1; Fixture.optC 1])
              Fixture.world (Fixture.optA 1) (Fixture.optC 1)
              Fixture.tplA Fixture.tplC)
    as (e & w' & Hs & _ & Hc & He).
  - simpl. auto.
  - simpl. auto.
  - reflexivity.
  - reflexivity.
  - simpl. discriminate.
  - exists w'. rewrite He in Hs.
    + split; [exact Hs | exact Hc].
    + reflexivity.
    + reflexivity.
    + reflexivity.
    + simpl. repeat constructor; simpl; intuition discriminate.
    + intros plo [<-|[<-|[]]]; vm_compute; discriminate.
    + intros pko [<-|[<-|[<-|[]]]]; simpl; lia.
Defined.

(** ** A session under another email *)

Section Identity.

Variable t : string -> string.
Variable postfinanceSHA : uuid -> Z -> uuid -> uuid -> string.

Lemma settle_session_returns P req pledge pd su :
  Request.user req = Some su ->
  returns P (settle t req pledge pd).
Proof.
  intros Hreq. unfold settle, checkReason, resolveUser, syncUserProfile,
    resolveAlias.
  rewrite Hreq. returns_tac.
Qed.

Lemma resolveUser_mismatch req pledge su w :
  Request.user req = Some su ->
  String.eqb (User.email su) (UserInput.email (PledgeInput.user pledge))
  = false ->
  exists w',
    resolveUser t req pledge w = (Exn (unexpected t IdentityMismatch), w').
Proof.
  intros Hreq Hne. unfold resolveUser. rewrite Hreq, Hne. simpl.
  eexists. reflexivity.
Qed.

(** With a session, a run is never left by an early return. *)
Lemma body_session_returns req pledge su w r w' :
  Request.user req = Some su ->
  body t postfinanceSHA req pledge w <> (Ret r, w').
Proof.
  intros Hreq H. unfold body in H. apply bind_ret_inv in H.
  destruct H as [H | (s & w1 & _ & H)].
  - unfold beforeGuard in H. apply bind_ret_inv in H.
    destruct H as [H | (pd & w2 & _ & H)].
    + now apply (validatePricing_returns t (fun _ => False)) in H.
    + now apply (settle_session_returns (fun _ => False) req pledge pd su Hreq)
        in H.
  - apply bind_ret_inv in H. destruct H as [H | (u & w2 & _ & H)].
    + now apply (reducedPledgeGuard_returns t (fun _ => False)) in H.
    + now apply (afterGuard_returns postfinanceSHA (fun _ => False)) in H.
Qed.

End Identity.

(** X4. A submission made in a session whose email differs from the
    submitted one always throws and commits nothing. When pricing
    validation and the reason check pass, what is thrown is the identity
    error, with the generic message. *)
Theorem identity_mismatch_fails :
  forall t postfinanceSHA req pledge w su,
    Request.user req = Some su ->
    String.eqb (User.email su) (UserInput.email (PledgeInput.user pledge))
    = false ->
    (forall o w',
       submitPledge t postfinanceSHA req pledge w = (o, w') ->
       (exists e, o = Threw e) /\ committed w' = committed w) /\
    (forall pd w1,
       refusesBegin w = false -> refusesRollback w = false ->
       validatePricing t pledge (begun w) = (Val pd, w1) ->
       (snd pd < 0 -> noReason (PledgeInput.reason pledge) = false) ->
       exists w',
         submitPledge t postfinanceSHA req pledge w
         = (Threw (unexpected t IdentityMismatch), w')).
Proof.
  intros t sha req pledge w su Hreq Hne. split.
  - intros o w' H.
    destruct (submitPledge_inv t sha req pledge w o w' H)
      as [(_ & -> & ->) | (_ & [(r & _ & [E | E])
         | (e & w1 & E & [(_ & -> & ->) | (_ & -> & ->)])])].
    + split; [now exists storeError | reflexivity].
    + exfalso. apply body_val_steps in E.
      destruct E as (s & wa & _ & _ & _ & Hb & _).
      unfold beforeGuard in Hb.
      apply bind_val_inv in Hb. destruct Hb as (pd & wb & _ & Hs).
      unfold settle in Hs.
      apply bind_val_inv in Hs. destruct Hs as (u & wc & _ & Hs).
      apply bind_val_inv in Hs. destruct Hs as (ua & wd & Hr & _).
      destruct (resolveUser_mismatch t req pledge su wc Hreq Hne)
        as (wx & Hx).
      congruence.
    + exfalso. revert E. now apply (body_session_returns t sha req pledge su).
    + apply body_exn_kept in E. destruct E as [Hc _ _].
      split; [now exists e | exact Hc].
    + apply body_exn_kept in E. destruct E as [Hc _ _].
      split; [now exists storeError | exact Hc].
  - intros pd w1 Hbegin Hroll Hv Hreason.
    assert (Hcr : checkReason t pledge (snd pd) w1 = (Val tt, w1)).
    { unfold checkReason. destruct (snd pd <? 0) eqn:E; [|reflexivity].
      apply Z.ltb_lt in E. now rewrite (Hreason E). }
    destruct (resolveUser_mismatch t req pledge su w1 Hreq Hne) as (w2 & Hr).
    assert (Hb : body t sha req pledge (begun w)
                 = (Exn (unexpected t IdentityMismatch), w2)).
    { unfold body, beforeGuard.
      erewrite bind_exn; [reflexivity|].
      rewrite (bind_val _ _ _ _ _ Hv). unfold settle.
      rewrite (bind_val _ _ _ _ _ Hcr).
      now rewrite (bind_exn _ _ _ _ _ Hr). }
    destruct (submitPledge_of_throw t sha req pledge w _ _ Hbegin Hroll Hb)
      as (w' & Hs & _).
    now exists w'.
Qed.

Lemma identity_mismatch_fails_witness :
  exists w',
    submitPledge Fixture.t Fixture.postfinanceSHA Fixture.asAlice
                 (Fixture.cart 3500 None Fixture.bob) Fixture.world
    = (Threw (unexpected Fixture.t IdentityMismatch), w').
Proof.
  refine (proj2 (identity_mismatch_fails Fixture.t Fixture.postfinanceSHA
                   Fixture.asAlice (Fixture.cart 3500 None Fixture.bob)
                   Fixture.world Fixture.alice eq_refl eq_refl)
                (10%N, 0) (tick (begun Fixture.world)) eq_refl eq_refl _ _).
  - vm_compute. reflexivity.
  - simpl. lia.
Defined.

(** ** The acting user, the users table and the alias *)

Section Effects.

Variable t : string -> string.
Variable postfinanceSHA : uuid -> Z -> uuid -> uuid -> string.

Lemma resolveUser_val_full req pledge w ua w' db :
  resolveUser t req pledge w = (Val ua, w') ->
  working w = Some db ->
  match Request.user req with
  | Some su =>
      ua = (su, paymentSources_pspId (User.id su) "POSTFINANCECARD" db) /\
      working w' = Some db /\ nextId w' = nextId w
  | None =>
      match users_findOne (UserInput.email (PledgeInput.user pledge)) db with
      | Some u =>
          ua = (u, None) /\ working w' = Some db /\ nextId w' = nextId w
      | None =>
          ua = (newUserRow (nextId w) (PledgeInput.user pledge), None) /\
          working w'
          = Some (setUsers
                    (users db
                     ++ [newUserRow (nextId w) (PledgeInput.user pledge)])
                    db) /\
          nextId w' = N.succ (nextId w)
      end
  end.
Proof.
  unfold resolveUser. intros H Hw.
  destruct (Request.user req) as [su|].
  - destruct (negb (String.eqb (User.email su)
                      (UserInput.email (PledgeInput.user pledge))));
      [discriminate|].
    apply bind_val_inv in H. destruct H as (a & w1 & Hq & H).
    apply query_val_inv in Hq. destruct Hq as (db0 & Hw0 & _ & -> & ->).
    rewrite Hw in Hw0. inversion Hw0; subst db0.
    inversion H; subst. unfold readOnly. simpl. auto.
  - apply bind_val_inv in H. destruct H as (found & w1 & Hq & H).
    apply query_val_inv in Hq. destruct Hq as (db0 & Hw0 & _ & -> & ->).
    rewrite Hw in Hw0. inversion Hw0; subst db0. clear Hw0.
    unfold readOnly in H. simpl in H.
    destruct (users_findOne (UserInput.email (PledgeInput.user pledge)) db)
      as [u|].
    + apply bind_val_inv in H. destruct H as (n & w2 & Hq & H).
      apply query_val_inv in Hq. destruct Hq as (db1 & Hw1 & _ & -> & ->).
      simpl in Hw1. inversion Hw1; subst db1.
      destruct (negb (Nat.eqb _ 0)); [discriminate|].
      inversion H; subst. unfold readOnly. simpl. auto.
    + apply bind_val_inv in H. destruct H as (i & w2 & Hi & H).
      inversion Hi; subst i w2. clear Hi.
      apply bind_val_inv in H. destruct H as (u & w3 & Hq & H).
      apply query_val_inv in Hq. destruct Hq as (db1 & Hw1 & _ & -> & ->).
      simpl in Hw1. inversion Hw1; subst db1.
      inversion H; subst. simpl. auto.
Qed.

Lemma syncUserProfile_val_full pledge u0 w user w' db :
  syncUserProfile pledge u0 w = (Val user, w') ->
  working w = Some db ->
  nextId w' = nextId w /\
  exists db',
    working w' = Some db' /\
    users db' = syncedUsers u0 (PledgeInput.user pledge) (users db).
Proof.
  unfold syncUserProfile, syncedUsers, namesDiffer. intros H Hw.
  destruct (negb (sameName (User.firstName u0)
                    (UserInput.firstName (PledgeInput.user pledge)))
            || negb (sameName (User.lastName u0)
                       (UserInput.lastName (PledgeInput.user pledge)))).
  - apply query_val_inv in H. destruct H as (db0 & Hw0 & _ & _ & ->).
    rewrite Hw in Hw0. inversion Hw0; subst db0. simpl.
    split; [reflexivity|]. eexists. split; reflexivity.
  - inversion H; subst. split; [reflexivity|]. now exists db.
Qed.

Lemma newUserRow_in_line i u : namesDiffer (newUserRow i u) u = false.
Proof.
  unfold namesDiffer, newUserRow. simpl. now rewrite !String.eqb_refl.
Qed.

(** What is settled at the guard, read off the store at the begin. *)
Lemma beforeGuard_val_full req pledge w s w1 :
  beforeGuard t req pledge (begun w) = (Val s, w1) ->
  s_alias s = aliasAfter req pledge w /\
  exists db1,
    working w1 = Some db1 /\ users db1 = usersAfter req pledge w.
Proof.
  unfold beforeGuard. intros H.
  apply bind_val_inv in H. destruct H as (pd & wa & Hv & H).
  apply validatePricing_untouched in Hv. destruct Hv as [_ Hwa Hna _ _].
  unfold settle in H.
  apply bind_val_inv in H. destruct H as (u0 & wb & Hr & H).
  apply checkReason_untouched in Hr. destruct Hr as [_ Hwb Hnb _ _].
  assert (Hdb : working wb = Some (committed w)) by (now rewrite Hwb, Hwa).
  assert (Hn : nextId wb = nextId w) by (now rewrite Hnb, Hna).
  apply bind_val_inv in H. destruct H as (ua & wc & Hru & H).
  apply (resolveUser_val_full req pledge wb ua wc (committed w)) in Hru;
    [|exact Hdb].
  apply bind_val_inv in H. destruct H as (user & wd & Hsy & H).
  apply bind_val_inv in H. destruct H as (a & we & Ha & H).
  inversion H; subst s w1. clear H. simpl.
  unfold aliasAfter, usersAfter.
  destruct (Request.user req) as [su|].
  - destruct Hru as (-> & Hwc & Hnc). simpl in Hsy, Ha.
    apply (syncUserProfile_val_full pledge su wc user wd (committed w)) in Hsy;
      [|exact Hwc].
    destruct Hsy as (Hnd & db' & Hwd & Hus).
    unfold resolveAlias in Ha.
    destruct (paymentSources_pspId (User.id su) "POSTFINANCECARD"
                                   (committed w)) as [a0|];
      inversion Ha; subst a we; clear Ha.
    + split; [reflexivity|]. exists db'. split; [exact Hwd | exact Hus].
    + split; [congruence|]. exists db'. split; [exact Hwd | exact Hus].
  - destruct (users_findOne (UserInput.email (PledgeInput.user pledge))
                            (committed w)) as [u|].
    + destruct Hru as (-> & Hwc & Hnc). simpl in Hsy, Ha.
      apply (syncUserProfile_val_full pledge u wc user wd (committed w))
        in Hsy; [|exact Hwc].
      destruct Hsy as (Hnd & db' & Hwd & Hus).
      inversion Ha; subst a we; clear Ha.
      split; [congruence|]. exists db'. split; [exact Hwd | exact Hus].
    + destruct Hru as (-> & Hwc & Hnc). simpl in Hsy, Ha.
      eapply syncUserProfile_val_full in Hsy; [|exact Hwc].
      destruct Hsy as (Hnd & db' & Hwd & Hus).
      inversion Ha; subst a we; clear Ha.
      split; [congruence|]. exists db'. split; [exact Hwd|].
      rewrite Hus. unfold syncedUsers. rewrite newUserRow_in_line.
      simpl. now rewrite Hn.
Qed.

Lemma insertOptions_users pid plos w rows w' db :
  promiseAll (fun plo => query (pledgeOptions_insertAndGet (optionRow pid plo)))
             plos w = (Val rows, w') ->
  working w = Some db ->
  exists db', working w' = Some db' /\ users db' = users db.
Proof.
  revert w rows db. induction plos as [|plo l IH]; intros w rows db H Hw.
  - inversion H; subst. now exists db.
  - apply promiseAll_val_inv in H.
    destruct H as (row & w1 & rest & Hq & Hm & _).
    apply query_val_inv in Hq. destruct Hq as (db0 & Hw0 & _ & _ & ->).
    rewrite Hw in Hw0. inversion Hw0; subst db0.
    eapply IH in Hm; [|reflexivity]. exact Hm.
Qed.

Lemma insertPledge_users pid d pledge user w pu w' db :
  insertPledge pid d pledge user w = (Val pu, w') ->
  working w = Some db ->
  exists db', working w' = Some db' /\ users db' = users db.
Proof.
  unfold insertPledge. intros H Hw.
  apply bind_val_inv in H. destruct H as (u & w1 & Hu & H).
  destruct user as [u0|]; [|discriminate].
  inversion Hu; subst u0 w1. clear Hu.
  apply bind_val_inv in H. destruct H as (i & w2 & Hi & H).
  inversion Hi; subst i w2. clear Hi.
  apply bind_val_inv in H. destruct H as (newPledge & w3 & Hq & H).
  apply query_val_inv in Hq. destruct Hq as (db0 & Hw0 & _ & _ & ->).
  simpl in Hw0. rewrite Hw in Hw0. inversion Hw0; subst db0. clear Hw0.
  apply bind_val_inv in H. destruct H as (rows & w4 & Hm & H).
  inversion H; subst pu w'. clear H.
  eapply insertOptions_users in Hm; [|reflexivity]. exact Hm.
Qed.

(** The result and the users table of a run that reaches its end. *)
Lemma body_val_effects req pledge w r w' :
  body t postfinanceSHA req pledge (begun w) = (Val r, w') ->
  (exists pid,
     r = Submitted pid (actingUserId req pledge w)
                   (postfinanceSHA pid (PledgeInput.total pledge)
                                   (aliasAfter req pledge w)
                                   (actingUserId req pledge w))
                   (aliasAfter req pledge w)) /\
  users (committed w') = usersAfter req pledge w.
Proof.
  intros H. apply body_val_steps in H.
  destruct H as (s & w1 & w2 & pu & w3 & Hb & Hg & Hi & Hc & ->).
  pose proof (beforeGuard_val_full req pledge w s w1 Hb)
    as (Halias & db1 & Hdb1 & Hus).
  apply reducedPledgeGuard_untouched in Hg. destruct Hg as [_ Hw2 _ _ _].
  assert (Hdb2 : working w2 = Some db1) by congruence.
  pose proof (insertPledge_users _ _ _ _ _ _ _ db1 Hi Hdb2)
    as (db3 & Hdb3 & Hus3).
  pose proof (insertPledge_val_inv _ _ _ _ _ _ _ db1 Hi Hdb2)
    as (Hu & Hrow & _).
  apply transactionCommit_val_inv in Hc.
  destruct Hc as (db & Hdb & Hcm & _).
  split.
  - exists (Pledge.id (fst pu)).
    rewrite (beforeGuard_user t req pledge w s w1 (snd pu) Hb Hu), Halias.
    assert (Ht : Pledge.total (fst pu) = PledgeInput.total pledge)
      by (now rewrite Hrow).
    now rewrite Ht.
  - congruence.
Qed.

End Effects.

(** X5. When the mutation returns a pledge, the user id it returns is that
    of the session user, else that of the stored user with the submitted
    email, else the id generated for the new user; the alias it returns is
    the one stored for the session user's POSTFINANCECARD payment source
    when there is one, else a newly generated id; and the signature is that
    of the returned pledge id, the submitted total, the returned alias and
    the returned user id. *)
Theorem returned_identity :
  forall t postfinanceSHA req pledge w pledgeId userId pfSHA pfAliasId w',
    submitPledge t postfinanceSHA req pledge w
    = (Returned (Submitted pledgeId userId pfSHA pfAliasId), w') ->
    userId = actingUserId req pledge w /\
    pfAliasId = aliasAfter req pledge w /\
    pfSHA = postfinanceSHA pledgeId (PledgeInput.total pledge) pfAliasId
                           userId.
Proof.
  intros t sha req pledge w pid uid sig alias w' H.
  apply submitPledge_submitted_inv in H. destruct H as (_ & E).
  apply body_val_effects in E. destruct E as ((p & Hr) & _).
  inversion Hr; subst. auto.
Qed.

(** Dave, whose payment source holds the alias 900, submits in his
    session: the alias returned is the stored one. *)
Lemma returned_identity_witness :
  paymentSources_pspId 52 "POSTFINANCECARD" Fixture.storeWithDave
  = Some 900%N /\
  52%N = actingUserId Fixture.asDave
           (Fixture.cart 3500 None Fixture.daveInput)
           Fixture.worldWithDave /\
  900%N = aliasAfter Fixture.asDave
            (Fixture.cart 3500 None Fixture.daveInput)
            Fixture.worldWithDave /\
  "sha" = Fixture.postfinanceSHA 1000 3500 900 52.
Proof.
  split; [reflexivity|].
  apply (returned_identity Fixture.t Fixture.postfinanceSHA Fixture.asDave
           (Fixture.cart 3500 None Fixture.daveInput)
           Fixture.worldWithDave 1000%N 52%N "sha" 900%N
           (snd (submitPledge Fixture.t Fixture.postfinanceSHA Fixture.asDave
                   (Fixture.cart 3500 None Fixture.daveInput)
                   Fixture.worldWithDave))).
  vm_compute. reflexivity.
Defined.

(** X6. When the mutation returns a pledge, the committed users are those
    from before with one change at most: without a session and without a
    stored user under the submitted email, one row is appended, carrying
    the generated id, the submitted email, names and birthday, and not
    verified; otherwise the row of the acting user takes the submitted
    first and last name if the names the mutation holds for that user
    differ from them, and nothing changes if they do not. *)
Theorem users_after_submission :
  forall t postfinanceSHA req pledge w pledgeId userId pfSHA pfAliasId w',
    submitPledge t postfinanceSHA req pledge w
    = (Returned (Submitted pledgeId userId pfSHA pfAliasId), w') ->
    users (committed w') = usersAfter req pledge w.
Proof.
  intros t sha req pledge w pid uid sig alias w' H.
  apply submitPledge_submitted_inv in H. destruct H as (_ & E).
  apply body_val_effects in E. now destruct E as (_ & Hu).
Qed.

Lemma users_after_submission_witness :
  users (committed
           (snd (submitPledge Fixture.t Fixture.postfinanceSHA
                   Fixture.anonymous (Fixture.cart 3500 None Fixture.bob)
                   Fixture.world)))
  = usersAfter Fixture.anonymous (Fixture.cart 3500 None Fixture.bob)
               Fixture.world.
Proof.
  apply (users_after_submission Fixture.t Fixture.postfinanceSHA
           Fixture.anonymous (Fixture.cart 3500 None Fixture.bob)
           Fixture.world 1002%N 1000%N "sha" 1001%N).
  vm_compute. reflexivity.
Defined.

(** ** The server log *)

Lemma logged_ret c {A} (a : A) : logged c (ret a).
Proof. intros w o w' H. inversion H. now rewrite app_nil_r. Qed.

Lemma logged_returnWith c {A} r : logged c (@returnWith A r).
Proof. intros w o w' H. inversion H. now rewrite app_nil_r. Qed.

Lemma logged_throw c {A} ca v :
  logOf c (mkThrown ca v) = [] -> logged c (@throw A ca v).
Proof. intros Hl w o w' H. inversion H. now rewrite Hl, app_nil_r. Qed.

Lemma logged_deref c {A} (o : option A) : logged c (deref o).
Proof. destruct o; [apply logged_ret | now apply logged_throw]. Qed.

Lemma logged_genId c : logged c genId.
Proof. intros w o w' H. inversion H. simpl. now rewrite app_nil_r. Qed.

Lemma logged_query c {A} (q : DB -> A * DB) : logged c (query q).
Proof.
  intros w o w'. unfold query. destruct (working w) as [db|].
  - destruct (rejects w).
    + intros H; inversion H. simpl. now rewrite app_nil_r.
    + destruct (q db). intros H; inversion H. simpl. now rewrite app_nil_r.
  - intros H; inversion H. simpl. now rewrite app_nil_r.
Qed.

Lemma logged_poolQuery c {A} (q : DB -> A) : logged c (poolQuery q).
Proof.
  intros w o w'. unfold poolQuery.
  destruct (rejects w); intros H; inversion H; simpl; now rewrite app_nil_r.
Qed.

Lemma logged_queryIn c {I A} (ids : list I) (q : DB -> A) :
  logged c (queryIn ids q).
Proof.
  intros w o w'. unfold queryIn. destruct ids as [|i ids].
  - intros H. inversion H. simpl. now rewrite app_nil_r.
  - apply logged_query.
Qed.

Lemma logged_poolQueryIn c {I A} (ids : list I) (q : DB -> A) :
  logged c (poolQueryIn ids q).
Proof.
  intros w o w'. unfold poolQueryIn. destruct ids as [|i ids].
  - intros H. inversion H. simpl. now rewrite app_nil_r.
  - apply logged_poolQuery.
Qed.

Lemma logged_commit c : logged c transactionCommit.
Proof.
  intros w o w'. unfold transactionCommit.
  destruct (working w); [destruct (rejects w)|]; intros H; inversion H;
    simpl; now rewrite app_nil_r.
Qed.

(** A line handed to the logger, then the throw it announces. *)
Lemma logged_announced c {A} l s ca v :
  logOf c (mkThrown ca v) = [mkLog l s] ->
  logged c (bind (logger l s) (fun _ => @throw A ca v)).
Proof. intros Hl w o w' H. inversion H. now rewrite Hl. Qed.

(** The lines of a sequence, when what the first part logs is known for
    the run at hand only. *)
Lemma logged_bind_at c {A B} (m : M A) (f : A -> M B) w :
  (forall o w', m w = (o, w') ->
     logs w' = (logs w ++ match o with
                          | Exn e => logOf c e
                          | _ => []
                          end)%list) ->
  (forall a w1, m w = (Val a, w1) -> logged c (f a)) ->
  forall o w', bind m f w = (o, w') ->
    logs w' = (logs w ++ match o with
                         | Exn e => logOf c e
                         | _ => []
                         end)%list.
Proof.
  intros Hm Hf o w'. unfold bind.
  destruct (m w) as [[a|r|e] w1] eqn:E; intros H.
  - pose proof (Hm _ _ eq_refl) as E1. apply (Hf a w1 eq_refl) in H.
    rewrite H, E1. now rewrite app_nil_r.
  - inversion H; subst. exact (Hm (Ret r) _ eq_refl).
  - inversion H; subst. exact (Hm (Exn e) _ eq_refl).
Qed.

Lemma logged_bind c {A B} (m : M A) (f : A -> M B) :
  logged c m -> (forall a, logged c (f a)) -> logged c (bind m f).
Proof.
  intros Hm Hf w. apply logged_bind_at.
  - intros o w'. apply Hm.
  - intros a w1 _. apply Hf.
Qed.

(** Calls issued together: each of them runs, whatever the others end
    with, so that the lines are those of a throw only when the calls that
    throw log nothing. *)
Lemma logged_promiseAll c {A B} (f : A -> M B) l :
  (forall a, logged c (f a)) ->
  (forall a, raises (fun e => logOf c e = []) (f a)) ->
  logged c (promiseAll f l).
Proof.
  intros Hf Hq. induction l as [|a l IH]; simpl.
  - apply logged_ret.
  - intros w o w'.
    destruct (f a w) as [[b|r|e] w1] eqn:E1;
      destruct (promiseAll f l w1) as [o2 w2] eqn:E2;
      pose proof (Hf _ _ _ _ E1) as H1; pose proof (IH _ _ _ E2) as H2;
      simpl; simpl in H1; rewrite app_nil_r in H1 || idtac.
    + destruct o2; intros H; inversion H; subst; now rewrite H2, H1.
    + intros H; inversion H; subst. rewrite H2, H1.
      destruct o2 as [bs|r2|e2]; try reflexivity.
      now rewrite (raises_promiseAll _ f l Hq _ _ _ E2).
    + intros H; inversion H; subst. rewrite H2, H1.
      rewrite (Hq _ _ _ _ E1) at 1. rewrite app_nil_r.
      destruct o2 as [bs|r2|e2]; rewrite ?app_nil_r.
      * now rewrite (Hq _ _ _ _ E1), app_nil_r.
      * now rewrite (Hq _ _ _ _ E1), app_nil_r.
      * rewrite (raises_promiseAll _ f l Hq _ _ _ E2).
        now rewrite (Hq _ _ _ _ E1), !app_nil_r.
Qed.

Ltac logged_step :=
  first
    [ assumption
    | apply logged_announced; reflexivity
    | apply logged_bind; [| intros ]
    | apply logged_ret | apply logged_returnWith
    | apply logged_throw; reflexivity
    | apply logged_deref | apply logged_genId | apply logged_query
    | apply logged_poolQuery | apply logged_queryIn
    | apply logged_poolQueryIn | apply logged_commit
    | match goal with
      | |- logged _ (if ?b then _ else _) => destruct b
      | |- logged _ (match ?x with _ => _ end) => destruct x
      end ].

Lemma find_agree {A} (f g : A -> bool) l :
  (forall a, In a l -> f a = g a) -> find f l = find g l.
Proof.
  induction l as [|a l IH]; intros H; [reflexivity|]. simpl.
  rewrite (H a) by now left. destruct (g a); [reflexivity|].
  apply IH. intros b Hb. apply H. now right.
Qed.

(** The template the amount check names is the same over the loaded
    templates as over the catalog. *)
Lemma firstOutOfRange_loaded db plos :
  firstOutOfRange (loadedTemplates db plos) plos
  = firstOutOfRange (packageOptions db) plos.
Proof.
  unfold firstOutOfRange. f_equal. apply find_agree. intros plo Hin.
  rewrite (findTemplate_loadedTemplates db plos plo Hin). reflexivity.
Qed.

Section Log.

Variable t : string -> string.
Variable postfinanceSHA : uuid -> Z -> uuid -> uuid -> string.

(** The loop logs the line of the option it stops at; when that is the
    amount check, the line carries the template of that option. *)
Lemma checkOptions_logged pid pkos plos :
  logged (firstOutOfRange pkos plos) (checkOptions t pid pkos plos).
Proof.
  induction plos as [|plo rest IH]; intros w o w' H.
  - inversion H. now rewrite app_nil_r.
  - simpl in H. unfold firstOutOfRange. cbn [find].
    destruct (findTemplate pkos (PledgeOptionInput.templateId plo))
      as [pko|] eqn:F.
    + rewrite (bind_val _ _ _ _ _ (eq_refl : ret pko w = (Val pko, w))) in H.
      destruct (negb (N.eqb pid (PackageOption.packageId pko))).
      { inversion H. reflexivity. }
      destruct (amountCondition pko plo); simpl in H |- *.
      * apply IH in H. exact H.
      * inversion H. reflexivity.
    + inversion H. simpl. now rewrite app_nil_r.
Qed.

Lemma checkTemplates_logged pledge w db o w' :
  working w = Some db ->
  checkTemplates t pledge w = (o, w') ->
  logs w'
  = (logs w ++ match o with
               | Exn e => logOf (firstOutOfRange (packageOptions db)
                                   (PledgeInput.options pledge)) e
               | _ => []
               end)%list.
Proof.
  intros Hw. unfold checkTemplates. revert o w'. apply logged_bind_at.
  - intros o w'. apply logged_queryIn.
  - intros pkos w1 Hq.
    apply queryIn_val_inv in Hq. destruct Hq as (_ & db0 & Hw0 & _ & -> & _).
    rewrite Hw in Hw0. inversion Hw0; subst db0. clear Hw0.
    fold (loadedTemplates db (PledgeInput.options pledge)).
    rewrite <- firstOutOfRange_loaded.
    pose proof checkOptions_logged as Hc.
    repeat logged_step; try apply Hc.
Qed.

Lemma insertPledge_logged c pid d pledge user :
  logged c (insertPledge pid d pledge user).
Proof.
  unfold insertPledge. repeat logged_step.
  apply logged_promiseAll; intros plo; [apply logged_query|].
  intros w e w' H. apply query_exn_inv in H. now destruct H as [-> _].
Qed.

(** What the statements inside [try] write. *)
Lemma body_logged req pledge w db o w' :
  working w = Some db ->
  body t postfinanceSHA req pledge w = (o, w') ->
  logs w'
  = (logs w ++ match o with
               | Exn e => logOf (firstOutOfRange (packageOptions db)
                                   (PledgeInput.options pledge)) e
               | _ => []
               end)%list.
Proof.
  intros Hw. revert o w'.
  pose proof insertPledge_logged as Hi.
  unfold body. apply logged_bind_at.
  - unfold beforeGuard. apply logged_bind_at.
    + unfold validatePricing. apply logged_bind_at.
      * intros o w'. now apply checkTemplates_logged.
      * intros cp w1 _. unfold checkTotal. repeat logged_step.
    + intros pd w1 _.
      unfold settle, checkReason, resolveUser, syncUserProfile, resolveAlias.
      repeat logged_step.
  - intros s w1 _.
    unfold reducedPledgeGuard, rewardsOf, afterGuard.
    repeat first [apply Hi | logged_step].
Qed.

End Log.

(** X7. What a call of the mutation writes to the server log. A return
    writes nothing, and so does a call whose begin the store refuses. A
    throw inside [try] writes the line of its site, if it has one: the
    template check, the package check, the reason check and the identity
    check each write one error line, the amount check one error line that
    names the template of the first option out of range, the
    reduced-pledge guard one info line; the total check, a read of
    [undefined] and a rejected store call write none. The rollback line
    follows when the rollback is performed; when the store refuses the
    rollback, the line of the site is all that is written, and the value
    thrown to the caller is no longer that of the site. *)
Theorem failure_report :
  forall t postfinanceSHA req pledge w o w',
    submitPledge t postfinanceSHA req pledge w = (o, w') ->
    let culprit :=
      firstOutOfRange (packageOptions (committed w))
                      (PledgeInput.options pledge) in
    match o with
    | Returned _ => logs w' = logs w
    | Threw e =>
        if refusesBegin w then logs w' = logs w
        else if refusesRollback w then
          exists e0 w1,
            body t postfinanceSHA req pledge (begun w) = (Exn e0, w1) /\
            logs w' = (logs w ++ logOf culprit e0)%list
        else
          logs w'
          = (logs w ++ logOf culprit e
                    ++ [mkLog LInfo "transaction rollback"])%list
    end.
Proof.
  intros t sha req pledge w o w' H culprit.
  destruct (submitPledge_inv t sha req pledge w o w' H)
    as [(Hb & -> & ->) | (Hb & [(r & -> & [E | E])
       | (e & w1 & E & [(Hr & -> & ->) | (Hr & -> & ->)])])].
  - now rewrite Hb.
  - apply (body_logged t sha req pledge _ (committed w)) in E;
      [|reflexivity]. simpl in E. now rewrite app_nil_r in E.
  - apply (body_logged t sha req pledge _ (committed w)) in E;
      [|reflexivity]. simpl in E. now rewrite app_nil_r in E.
  - rewrite Hb, Hr.
    apply (body_logged t sha req pledge _ (committed w)) in E;
      [|reflexivity]. simpl in E |- *. rewrite E. now rewrite app_assoc.
  - rewrite Hb, Hr. exists e, w1. split; [exact E|].
    apply (body_logged t sha req pledge _ (committed w)) in E;
      [|reflexivity]. exact E.
Qed.

(** One of template D, of which none may be had: the amount check fires
    and its line names the template. *)
Lemma failure_report_witness :
  logs (snd (submitPledge Fixture.t Fixture.postfinanceSHA Fixture.anonymous
               (PledgeInput.mk 500 None Fixture.bob [Fixture.optD 1])
               Fixture.worldSoldOut))
  = [mkLog LError "amount in option (templateId: 4) out of range";
     mkLog LInfo "transaction rollback"].
Proof.
  apply (failure_report Fixture.t Fixture.postfinanceSHA Fixture.anonymous
           (PledgeInput.mk 500 None Fixture.bob [Fixture.optD 1])
           Fixture.worldSoldOut
           (Threw (unexpected Fixture.t AmountOutOfRange))).
  vm_compute. reflexivity.
Defined.

(** ** The submitted prices *)

Section Prices.

Variable t : string -> string.

Lemma checkOptions_priced pid pkos l l' w :
  map pricedAs l = map pricedAs l' ->
  checkOptions t pid pkos l w = checkOptions t pid pkos l' w.
Proof.
  revert l' w. induction l as [|plo l IH]; intros [|plo' l'] w H;
    try discriminate; [reflexivity|].
  cbn [map] in H. injection H as Ht Ha Hl.
  simpl. rewrite Ht. unfold bind.
  destruct (deref (findTemplate pkos (PledgeOptionInput.templateId plo')) w)
    as [[pko|r|e] w1]; try reflexivity.
  destruct (negb (N.eqb pid (PackageOption.packageId pko))); [reflexivity|].
  unfold amountCondition. rewrite Ha.
  destruct (negb _); [reflexivity|]. now apply IH.
Qed.

Lemma reduceOptions_priced term pkos l l' :
  (forall pko plo plo',
     PledgeOptionInput.amount plo = PledgeOptionInput.amount plo' ->
     term pko plo = term pko plo') ->
  map pricedAs l = map pricedAs l' ->
  reduceOptions term pkos l = reduceOptions term pkos l'.
Proof.
  intros Hterm. unfold reduceOptions. generalize (Some 0) as acc.
  revert l'. induction l as [|plo l IH]; intros [|plo' l'] acc H;
    try discriminate; [reflexivity|].
  cbn [map] in H. injection H as Ht Ha Hl.
  cbn [fold_left]. rewrite (IH l' _ Hl). f_equal.
  unfold reduceStep. rewrite Ht.
  destruct acc; [|reflexivity].
  destruct (findTemplate pkos (PledgeOptionInput.templateId plo'));
    [|reflexivity].
  now rewrite (Hterm _ plo plo' Ha).
Qed.

Lemma bind_same_first {A B} (m : M A) (f g : A -> M B) w :
  (forall a w1, f a w1 = g a w1) -> bind m f w = bind m g w.
Proof.
  intros H. unfold bind. destruct (m w) as [[a|r|e] w1]; auto.
Qed.

Lemma checkTemplates_priced pledge pledge' w :
  map pricedAs (PledgeInput.options pledge)
  = map pricedAs (PledgeInput.options pledge') ->
  checkTemplates t pledge w = checkTemplates t pledge' w.
Proof.
  intros Hopts.
  assert (Hids : map PledgeOptionInput.templateId (PledgeInput.options pledge)
                 = map PledgeOptionInput.templateId
                       (PledgeInput.options pledge')).
  { apply (f_equal (map fst)) in Hopts. now rewrite !map_map in Hopts. }
  assert (Hlen : List.length (PledgeInput.options pledge)
                 = List.length (PledgeInput.options pledge')).
  { apply (f_equal (@List.length _)) in Hopts.
    now rewrite !length_map in Hopts. }
  unfold checkTemplates. cbv zeta. rewrite Hids, Hlen.
  apply bind_same_first. intros pkos w1.
  apply bind_same_first. intros u w2.
  apply bind_same_first. intros first w3.
  unfold bind. now rewrite (checkOptions_priced _ pkos _ _ w3 Hopts).
Qed.

Lemma checkTotal_priced pledge pledge' pkos w :
  PledgeInput.total pledge = PledgeInput.total pledge' ->
  map pricedAs (PledgeInput.options pledge)
  = map pricedAs (PledgeInput.options pledge') ->
  checkTotal pledge pkos w = checkTotal pledge' pkos w.
Proof.
  intros Htotal Hopts. unfold checkTotal, minTotal, regularTotal. cbv zeta.
  rewrite (reduceOptions_priced minTerm pkos (PledgeInput.options pledge)
             (PledgeInput.options pledge'));
    [|intros pko plo plo' Ha; unfold minTerm; now rewrite Ha|exact Hopts].
  rewrite (reduceOptions_priced regularTerm pkos (PledgeInput.options pledge)
             (PledgeInput.options pledge'));
    [|intros pko plo plo' Ha; unfold regularTerm; now rewrite Ha|exact Hopts].
  now rewrite Htotal.
Qed.

End Prices.

(** X8. Pricing validation does not read the prices a submission carries:
    two submissions with the same total whose options agree, in order, on
    template and amount are validated alike, with the same packageId and
    donation, the same throw and the same log lines. *)
Theorem submitted_price_ignored :
  forall t pledge pledge' w,
    PledgeInput.total pledge = PledgeInput.total pledge' ->
    map pricedAs (PledgeInput.options pledge)
    = map pricedAs (PledgeInput.options pledge') ->
    validatePricing t pledge w = validatePricing t pledge' w.
Proof.
  intros t pledge pledge' w Htotal Hopts.
  unfold validatePricing. unfold bind at 1 3.
  rewrite (checkTemplates_priced t pledge pledge' w Hopts).
  destruct (checkTemplates t pledge' w) as [[cp|r|e] w1]; try reflexivity.
  unfold bind. now rewrite (checkTotal_priced pledge pledge' _ w1 Htotal Hopts).
Qed.

Lemma submitted_price_ignored_witness :
  validatePricing Fixture.t
    (PledgeInput.mk 3500 None Fixture.bob [Fixture.optA 3; Fixture.optB 1])
    (begun Fixture.world)
  = validatePricing Fixture.t
      (PledgeInput.mk 3500 None Fixture.bob
         [PledgeOptionInput.mk 1 3 1; PledgeOptionInput.mk 2 1 999999])
      (begun Fixture.world).
Proof.
  apply (submitted_price_ignored Fixture.t
           (PledgeInput.mk 3500 None Fixture.bob
                           [Fixture.optA 3; Fixture.optB 1])
           (PledgeInput.mk 3500 None Fixture.bob
              [PledgeOptionInput.mk 1 3 1; PledgeOptionInput.mk 2 1 999999])
           (begun Fixture.world)).
  - reflexivity.
  - reflexivity.
Defined.

(** ** The transaction of a call *)

(** X9. Every call of the mutation opens at most one transaction and
    closes it at most once. A returned pledge comes with begin then commit
    and leaves no transaction open; the early return [{emailVerify: true}]
    comes with begin alone and leaves the transaction open. A thrown value
    comes with begin then rollback and no transaction left open when the
    store performs both; when the store refuses the begin, no event is
    recorded and the thrown value is its rejection; when it refuses the
    rollback, the begin is the only event, the transaction is left open
    and the thrown value is its rejection. *)
Theorem transaction_outcome :
  forall t postfinanceSHA req pledge w o w',
    submitPledge t postfinanceSHA req pledge w = (o, w') ->
    match o with
    | Returned (Submitted _ _ _ _) =>
        trace w' = (trace w ++ [TxBegin; TxCommit])%list /\ working w' = None
    | Returned EmailVerify =>
        trace w' = (trace w ++ [TxBegin])%list /\ working w' <> None
    | Threw e =>
        if refusesBegin w then
          e = storeError /\ trace w' = trace w /\ working w' = working w
        else if refusesRollback w then
          e = storeError /\ trace w' = (trace w ++ [TxBegin])%list /\
          working w' <> None
        else
          trace w' = (trace w ++ [TxBegin; TxRollback])%list /\
          working w' = None
    end.
Proof.
  intros t sha req pledge w o w' H.
  destruct (submitPledge_inv t sha req pledge w o w' H)
    as [(Hb & -> & ->) | (Hb & [(r & -> & [E | E])
       | (e & w1 & E & [(Hr & -> & ->) | (Hr & -> & ->)])])].
  - rewrite Hb. auto.
  - apply body_val_inv in E.
    destruct E as (row & u & alias & -> & _ & _ & _ & _ & _ & _ & _ & _
                   & Hw & Ht).
    now split.
  - pose proof (body_returns t sha req pledge _ _ _ E) as Hr. simpl in Hr.
    subst r. apply body_ret_framed in E. destruct E as [_ _ Ht Hw].
    split; [exact Ht|].
    destruct (Hw (committed w) eq_refl) as (db' & Hdb' & _).
    rewrite Hdb'. discriminate.
  - rewrite Hb, Hr. apply body_exn_kept in E. destruct E as [_ _ Ht].
    split; [|reflexivity].
    simpl. rewrite Ht. simpl. now rewrite <- app_assoc.
  - rewrite Hb, Hr.
    pose proof (body_exn_open t sha _ _ _ _ _ E) as Ho.
    apply body_exn_kept in E. destruct E as [_ _ Ht].
    split; [reflexivity|]. split; [exact Ht|]. apply Ho. discriminate.
Qed.

(** A cart of two packages on a store that refuses the rollback: the
    caller gets the store's rejection and the transaction stays open. *)
Lemma transaction_outcome_witness :
  storeError = storeError /\
  trace (snd (submitPledge Fixture.t Fixture.postfinanceSHA Fixture.anonymous
                (PledgeInput.mk 1500 None Fixture.bob
                                [Fixture.optA 1; Fixture.optC 1])
                Fixture.worldRefusingRollback))
  = ([] ++ [TxBegin])%list /\
  working (snd (submitPledge Fixture.t Fixture.postfinanceSHA
                  Fixture.anonymous
                  (PledgeInput.mk 1500 None Fixture.bob
                                  [Fixture.optA 1; Fixture.optC 1])
                  Fixture.worldRefusingRollback))
  <> None.
Proof.
  apply (transaction_outcome Fixture.t Fixture.postfinanceSHA
           Fixture.anonymous
           (PledgeInput.mk 1500 None Fixture.bob
                           [Fixture.optA 1; Fixture.optC 1])
           Fixture.worldRefusingRollback (Threw storeError)).
  vm_compute. reflexivity.
Defined.

(** ** Reading pledges back *)

Lemma pledges_findOne_some i db p :
  pledges_findOne i db = Some p -> In p (pledges db) /\ Pledge.id p = i.
Proof.
  unfold pledges_findOne. intros H. apply find_some in H.
  destruct H as [Hin H]. split; [exact Hin|]. now apply N.eqb_eq.
Qed.

Lemma pledges_findOwn_some i uid db p :
  pledges_findOwn i uid db = Some p ->
  In p (pledges db) /\ Pledge.id p = i /\ Pledge.userId p = uid.
Proof.
  unfold pledges_findOwn. intros H. apply find_some in H.
  destruct H as [Hin H]. apply andb_true_iff in H. destruct H as [Hi Hu].
  repeat split; [exact Hin| |]; now apply N.eqb_eq.
Qed.

Lemma pledges_findOwn_none i uid db :
  pledges_findOne i db = None -> pledges_findOwn i uid db = None.
Proof.
  unfold pledges_findOne, pledges_findOwn.
  induction (pledges db) as [|p l IH]; simpl; [reflexivity|].
  destruct (N.eqb (Pledge.id p) i); simpl; [discriminate|exact IH].
Qed.

Lemma users_findById_some i db u :
  users_findById i db = Some u -> In u (users db) /\ User.id u = i.
Proof.
  unfold users_findById. intros H. apply find_some in H.
  destruct H as [Hin H]. split; [exact Hin|]. now apply N.eqb_eq.
Qed.

(** X10. Who [RootQuery.pledge] shows a pledge to. A pledge it resolves
    with is a stored row with the asked id; within a session it belongs to
    the session's user, and without a session its owner is a stored user
    who is not verified. When no pledge has the asked id, a session gets
    null and a request without a session is rejected with a TypeError. *)
Theorem pledge_access :
  forall req i db,
    (forall p,
        RootQuery.pledge req i db = Resolved (Some p) ->
        In p (pledges db) /\ Pledge.id p = i /\
        match Request.user req with
        | Some sessionUser => Pledge.userId p = User.id sessionUser
        | None =>
            exists u, In u (users db) /\ User.id u = Pledge.userId p /\
                      User.verified u = false
        end) /\
    (pledges_findOne i db = None ->
     RootQuery.pledge req i db
     = match Request.user req with
       | Some _ => Resolved None
       | None => Rejected TypeError
       end).
Proof.
  intros req i db. unfold RootQuery.pledge. split.
  - intros p H. destruct (Request.user req) as [su|].
    + inversion H as [Hf]. apply pledges_findOwn_some in Hf.
      destruct Hf as (Hin & Hi & Hu). now repeat split.
    + destruct (pledges_findOne i db) as [p0|] eqn:Ep; [|discriminate].
      destruct (users_findById (Pledge.userId p0) db) as [u|] eqn:Eu;
        [|discriminate].
      destruct (User.verified u) eqn:Ev; simpl in H; inversion H; subst p0.
      apply pledges_findOne_some in Ep. destruct Ep as [Hin Hi].
      apply users_findById_some in Eu. destruct Eu as [Hu Hid].
      repeat split; try assumption. now exists u.
  - intros Hnone. destruct (Request.user req) as [su|].
    + now rewrite pledges_findOwn_none.
    + now rewrite Hnone.
Qed.

(** X11. What [RootQuery.draftPledge] hands out and how it refuses. A
    pledge it resolves with has the asked id, is not SUCCESSFUL, and the
    request has a session whose user owns it or its stored owner is not
    verified; nothing is logged then. A request without a session is
    always rejected. No rejection carries a translated message: the value
    is a TypeError, or the ReferenceError of the undeclared [t], which
    comes after one line was logged. *)
Theorem draft_pledge_access :
  forall req i db,
    (forall lines p,
        RootQuery.draftPledge req i db = (lines, Resolved p) ->
        lines = [] /\ In p (pledges db) /\ Pledge.id p = i /\
        Pledge.status p <> "SUCCESSFUL" /\
        exists sessionUser u,
          Request.user req = Some sessionUser /\
          In u (users db) /\ User.id u = Pledge.userId p /\
          (User.id sessionUser = Pledge.userId p \/
           User.verified u = false)) /\
    (Request.user req = None ->
     exists lines e, RootQuery.draftPledge req i db = (lines, Rejected e)) /\
    (forall lines e,
        RootQuery.draftPledge req i db = (lines, Rejected e) ->
        (e = TypeError /\ lines = []) \/
        (e = ReferenceError "t" /\ exists line, lines = [line])).
Proof.
  intros req i db. unfold RootQuery.draftPledge.
  destruct (pledges_findOne i db) as [p0|] eqn:Ep.
  2:{ split; [|split].
      - intros lines p H. discriminate.
      - intros _. now exists [], TypeError.
      - intros lines e H. inversion H. now left. }
  apply pledges_findOne_some in Ep. destruct Ep as [Hin Hi].
  destruct (String.eqb (Pledge.status p0) "SUCCESSFUL") eqn:Es.
  { split; [|split].
    - intros lines p H. discriminate.
    - intros _. eexists. eexists. reflexivity.
    - intros lines e H. inversion H. right. split; [reflexivity|].
      eexists. reflexivity. }
  apply String.eqb_neq in Es.
  destruct (Request.user req) as [su|].
  2:{ split; [|split].
      - intros lines p H. discriminate.
      - intros _. now exists [], TypeError.
      - intros lines e H. inversion H. now left. }
  destruct (users_findById (Pledge.userId p0) db) as [u|] eqn:Eu.
  2:{ split; [|split].
      - intros lines p H. discriminate.
      - intros H. discriminate.
      - intros lines e H. inversion H. now left. }
  apply users_findById_some in Eu. destruct Eu as [Hu Hid].
  destruct (N.eqb (User.id su) (User.id u) || negb (User.verified u)) eqn:Ec.
  - split; [|split].
    + intros lines p H. inversion H. subst lines p.
      repeat (split; [assumption || reflexivity|]).
      exists su, u. repeat (split; [assumption || reflexivity|]).
      apply orb_true_iff in Ec. destruct Ec as [Ec|Ec].
      * left. apply N.eqb_eq in Ec. congruence.
      * right. now destruct (User.verified u).
    + intros H. discriminate.
    + intros lines e H. discriminate.
  - split; [|split].
    + intros lines p H. discriminate.
    + intros H. discriminate.
    + intros lines e H. inversion H. right. split; [reflexivity|].
      eexists. reflexivity.
Qed.

Lemma pledge_access_witness :
  In Sample.bobsPledge (pledges Sample.afterBob) /\
  Pledge.id Sample.bobsPledge = 1002%N /\
  exists u, In u (users Sample.afterBob) /\
            User.id u = Pledge.userId Sample.bobsPledge /\
            User.verified u = false.
Proof.
  apply (proj1 (pledge_access Fixture.anonymous 1002%N Sample.afterBob)
               Sample.bobsPledge).
  vm_compute. reflexivity.
Defined.

Lemma draft_pledge_access_witness :
  ([] : list LogEntry) = [] /\
  In Sample.bobsPledge (pledges Sample.afterBob) /\
  Pledge.id Sample.bobsPledge = 1002%N /\
  Pledge.status Sample.bobsPledge <> "SUCCESSFUL" /\
  exists sessionUser u,
    Request.user Fixture.asAlice = Some sessionUser /\
    In u (users Sample.afterBob) /\
    User.id u = Pledge.userId Sample.bobsPledge /\
    (User.id sessionUser = Pledge.userId Sample.bobsPledge \/
     User.verified u = false).
Proof.
  apply (proj1 (draft_pledge_access Fixture.asAlice 1002%N Sample.afterBob)
               [] Sample.bobsPledge).
  vm_compute. reflexivity.
Defined.

(** ** The mutation, then the resolvers *)

Lemma find_id_map (f : User.t -> User.t) i us :
  (forall u, User.id (f u) = User.id u) ->
  find (fun u => N.eqb (User.id u) i) (map f us)
  = option_map f (find (fun u => N.eqb (User.id u) i) us).
Proof.
  intros Hf. induction us as [|u l IH]; simpl; [reflexivity|].
  rewrite Hf. now destruct (N.eqb (User.id u) i).
Qed.

Lemma syncedUsers_findById acting submitted i db db' :
  users db' = syncedUsers acting submitted (users db) ->
  users_findById i db <> None -> users_findById i db' <> None.
Proof.
  unfold users_findById, syncedUsers. intros -> H.
  destruct (namesDiffer acting submitted); [|exact H].
  rewrite find_id_map by (intros u; apply renameUser_id).
  now destruct (find (fun u => N.eqb (User.id u) i) (users db)).
Qed.

Lemma find_fresh_app {A} (f : A -> bool) l x :
  (forall y, In y l -> f y = false) -> f x = true ->
  find f (l ++ [x]) = Some x.
Proof.
  intros Hl Hx. induction l as [|y l IH]; simpl.
  - now rewrite Hx.
  - rewrite (Hl y) by now left. apply IH. intros z Hz. apply Hl. now right.
Qed.

Section ReadBack.

Variable t : string -> string.
Variable postfinanceSHA : uuid -> Z -> uuid -> uuid -> string.

Lemma submitted_row req pledge w pledgeId userId pfSHA pfAliasId w' :
  submitPledge t postfinanceSHA req pledge w
  = (Returned (Submitted pledgeId userId pfSHA pfAliasId), w') ->
  userId = actingUserId req pledge w /\
  users (committed w') = usersAfter req pledge w /\
  exists row,
    pledges (committed w') = (pledges (committed w) ++ [row])%list /\
    Pledge.id row = pledgeId /\ Pledge.userId row = userId /\
    Pledge.status row = "DRAFT".
Proof.
  intros H. apply submitPledge_submitted_inv in H. destruct H as (_ & E).
  pose proof (body_val_effects t postfinanceSHA req pledge w _ _ E)
    as ((pid & Hr) & Hus).
  inversion Hr; subst. split; [reflexivity|]. split; [exact Hus|].
  apply body_val_inv in E.
  destruct E as (row & u & alias & Hr' & Hu & _ & _ & _ & Hst & _ & Hp & _).
  inversion Hr'. exists row. repeat split; try assumption. congruence.
Qed.

End ReadBack.

(** X12. A pledge the mutation returned can be read back, provided its
    generated id was not in use. The committed pledges are those from
    before followed by one DRAFT row with the returned ids, so every
    user's list of pledges is unchanged, but for the acting user's, which
    ends with the new row. The same session gets the row from
    [RootQuery.pledge], and from [RootQuery.draftPledge] without a logged
    line when the session's user has a stored row. Without a session, when
    the submission created its user under an id not in use,
    [RootQuery.pledge] shows the row as well. *)
Theorem submitted_pledge_reads_back :
  forall t postfinanceSHA req pledge w pledgeId userId pfSHA pfAliasId w',
    submitPledge t postfinanceSHA req pledge w
    = (Returned (Submitted pledgeId userId pfSHA pfAliasId), w') ->
    (forall p, In p (pledges (committed w)) -> Pledge.id p <> pledgeId) ->
    exists row,
      pledges (committed w') = (pledges (committed w) ++ [row])%list /\
      Pledge.id row = pledgeId /\ Pledge.userId row = userId /\
      Pledge.status row = "DRAFT" /\
      (forall v,
          RootQuery.pledges (Some v) (committed w')
          = (RootQuery.pledges (Some v) (committed w)
             ++ if N.eqb (User.id v) userId then [row] else [])%list) /\
      (forall sessionUser,
          Request.user req = Some sessionUser ->
          RootQuery.pledge req pledgeId (committed w')
          = Resolved (Some row) /\
          (users_findById (User.id sessionUser) (committed w) <> None ->
           RootQuery.draftPledge req pledgeId (committed w')
           = ([], Resolved row))) /\
      (Request.user req = None ->
       users_findOne (UserInput.email (PledgeInput.user pledge))
                     (committed w) = None ->
       (forall u, In u (users (committed w)) -> User.id u <> userId) ->
       RootQuery.pledge req pledgeId (committed w') = Resolved (Some row)).
Proof.
  intros t sha req pledge w pid uid sig alias w' H Hfresh.
  apply submitted_row in H.
  destruct H as (Huid & Hus & row & Hp & Hi & Hu & Hst).
  assert (Hone : pledges_findOne pid (committed w') = Some row).
  { unfold pledges_findOne. rewrite Hp. apply find_fresh_app.
    - intros p Hin. apply N.eqb_neq. now apply Hfresh.
    - now apply N.eqb_eq. }
  exists row. repeat (split; [assumption|]). split; [|split].
  - intros v. unfold RootQuery.pledges, pledges_find.
    rewrite Hp, filter_app. simpl. rewrite Hu, (N.eqb_sym uid).
    now destruct (N.eqb (User.id v) uid).
  - intros su Hreq.
    assert (Hsu : User.id su = uid).
    { rewrite Huid. unfold actingUserId. now rewrite Hreq. }
    split.
    + unfold RootQuery.pledge, pledges_findOwn. rewrite Hreq, Hp.
      f_equal. apply find_fresh_app.
      * intros p Hin. apply andb_false_iff. left. apply N.eqb_neq.
        now apply Hfresh.
      * apply andb_true_iff. split; apply N.eqb_eq; congruence.
    + intros Hrow. unfold RootQuery.draftPledge. rewrite Hone, Hst. simpl.
      rewrite Hreq, Hu, <- Hsu.
      assert (Hrow' : users_findById (User.id su) (committed w') <> None).
      { eapply syncedUsers_findById; [|exact Hrow].
        rewrite Hus. unfold usersAfter. rewrite Hreq. reflexivity. }
      destruct (users_findById (User.id su) (committed w')) as [u|] eqn:Eu;
        [|contradiction].
      apply users_findById_some in Eu. destruct Eu as [_ Eu].
      now rewrite Eu, N.eqb_refl.
  - intros Hreq Hnew Hid. unfold RootQuery.pledge. rewrite Hreq, Hone, Hu.
    assert (Hrow : users_findById uid (committed w')
                   = Some (newUserRow uid (PledgeInput.user pledge))).
    { unfold users_findById. rewrite Hus. unfold usersAfter.
      rewrite Hreq, Hnew.
      assert (Hn : nextId w = uid).
      { rewrite Huid. unfold actingUserId. now rewrite Hreq, Hnew. }
      rewrite Hn. apply find_fresh_app.
      - intros u Hin. apply N.eqb_neq. now apply Hid.
      - apply N.eqb_refl. }
    now rewrite Hrow.
Qed.

Lemma submitted_pledge_reads_back_witness :
  exists row,
    pledges Sample.afterBob = (pledges Fixture.store ++ [row])%list /\
    Pledge.id row = 1002%N /\ Pledge.userId row = 1000%N /\
    Pledge.status row = "DRAFT" /\
    (forall v,
        RootQuery.pledges (Some v) Sample.afterBob
        = (RootQuery.pledges (Some v) Fixture.store
           ++ if N.eqb (User.id v) 1000 then [row] else [])%list) /\
    (forall sessionUser,
        Request.user Fixture.anonymous = Some sessionUser ->
        RootQuery.pledge Fixture.anonymous 1002%N Sample.afterBob
        = Resolved (Some row) /\
        (users_findById (User.id sessionUser) Fixture.store <> None ->
         RootQuery.draftPledge Fixture.anonymous 1002%N Sample.afterBob
         = ([], Resolved row))) /\
    (Request.user Fixture.anonymous = None ->
     users_findOne (UserInput.email Fixture.bob) Fixture.store = None ->
     (forall u, In u (users Fixture.store) -> User.id u <> 1000%N) ->
     RootQuery.pledge Fixture.anonymous 1002%N Sample.afterBob
     = Resolved (Some row)).
Proof.
  apply (submitted_pledge_reads_back Fixture.t Fixture.postfinanceSHA
           Fixture.anonymous (Fixture.cart 3500 None Fixture.bob)
           Fixture.world 1002%N 1000%N "sha" 1001%N).
  - vm_compute. reflexivity.
  - simpl. intros p [<-|[<-|[]]]; discriminate.
Defined.

(** X13. No call of the mutation changes the money
    [Crowdfunding.status] reports: whatever a call does, the sum of the
    totals of the SUCCESSFUL pledges is afterwards what it was before. *)
Theorem submission_raises_no_money :
  forall t postfinanceSHA req pledge w o w',
    submitPledge t postfinanceSHA req pledge w = (o, w') ->
    CrowdfundingResolvers.money (committed w')
    = CrowdfundingResolvers.money (committed w).
Proof.
  intros t sha req pledge w o w' H.
  destruct (submitPledge_inv t sha req pledge w o w' H)
    as [(_ & _ & ->) | (_ & [(r & _ & [E | E])
       | (e & w1 & E & [(_ & _ & ->) | (_ & _ & ->)])])].
  - reflexivity.
  - apply body_val_inv in E.
    destruct E as (row & u & alias & _ & _ & _ & _ & _ & Hst & _ & Hp & _).
    unfold CrowdfundingResolvers.money. rewrite Hp, filter_app. simpl.
    rewrite Hst. simpl. now rewrite app_nil_r.
  - apply body_ret_framed in E. destruct E as [Hc _ _ _].
    now rewrite Hc.
  - apply body_exn_kept in E. destruct E as [Hc _ _].
    simpl. now rewrite Hc.
  - apply body_exn_kept in E. destruct E as [Hc _ _].
    now rewrite Hc.
Qed.

Lemma submission_raises_no_money_witness :
  CrowdfundingResolvers.money Sample.afterBob
  = CrowdfundingResolvers.money (committed Fixture.world).
Proof.
  apply (submission_raises_no_money Fixture.t Fixture.postfinanceSHA
           Fixture.anonymous (Fixture.cart 3500 None Fixture.bob)
           Fixture.world
           (fst (submitPledge Fixture.t Fixture.postfinanceSHA
                   Fixture.anonymous (Fixture.cart 3500 None Fixture.bob)
                   Fixture.world))).
  vm_compute. reflexivity.
Defined.

(** ** Comments and votes *)

Lemma comments_session u found :
  exists views,
    FeedResolvers.comments (Some u) found = Resolved views /\
    map CommentView.comment views = found /\
    Forall (fun v =>
              CommentView.score v
              = Comment.upVotes (CommentView.comment v)
                - Comment.downVotes (CommentView.comment v) /\
              CommentView.usersVote v
              = option_map Vote.vote
                  (find (fun x => N.eqb (Vote.userId x) (User.id u))
                        (Comment.votes (CommentView.comment v)))) views.
Proof.
  induction found as [|c l (views & IH & Hm & Hall)]; simpl.
  - exists []. repeat split. constructor.
  - rewrite IH. unfold FeedResolvers.viewComment, FeedResolvers.findUsersVote.
    destruct (Comment.votes c) as [|x votes] eqn:Ev.
    + eexists. split; [reflexivity|]. simpl. split; [now rewrite Hm|].
      constructor; [|exact Hall]. simpl. now rewrite Ev.
    + eexists. split; [reflexivity|]. simpl. split; [now rewrite Hm|].
      constructor; [|exact Hall]. simpl. now rewrite Ev.
Qed.

(** X14. [Feed.comments] and the votes. With a user in the context it
    always resolves, with the comments as found and in their order, each
    with the score upVotes - downVotes and with the first vote of that
    user on the comment, null if there is none. Without a user it resolves
    only if no comment found has a vote, every [usersVote] being null
    then; as soon as one comment has a vote it is rejected with a
    TypeError. *)
Theorem feed_comments_votes :
  forall found,
    (forall u,
        exists views,
          FeedResolvers.comments (Some u) found = Resolved views /\
          map CommentView.comment views = found /\
          Forall (fun v =>
                    CommentView.score v
                    = Comment.upVotes (CommentView.comment v)
                      - Comment.downVotes (CommentView.comment v) /\
                    CommentView.usersVote v
                    = option_map Vote.vote
                        (find (fun x => N.eqb (Vote.userId x) (User.id u))
                              (Comment.votes (CommentView.comment v))))
                 views) /\
    (Forall (fun c => Comment.votes c = []) found ->
     FeedResolvers.comments None found
     = Resolved (map (fun c => CommentView.mk
                                 c (Comment.upVotes c - Comment.downVotes c)
                                 None) found)) /\
    (Exists (fun c => Comment.votes c <> []) found ->
     FeedResolvers.comments None found = Rejected TypeError).
Proof.
  intros found. split; [intros u; apply comments_session|].
  induction found as [|c l [IHnone IHsome]]; simpl.
  - split; [reflexivity|]. intros H. inversion H.
  - unfold FeedResolvers.viewComment, FeedResolvers.findUsersVote. split.
    + intros H. inversion H as [|c' l' Hc Hl]; subst.
      rewrite Hc. simpl. now rewrite (IHnone Hl).
    + intros H. destruct (Comment.votes c) as [|x votes] eqn:Ev;
        [|reflexivity].
      inversion H as [c' l' Hc|c' l' Hl]; subst; [contradiction|].
      simpl. now rewrite (IHsome Hl).
Qed.

Lemma feed_comments_votes_witness :
  FeedResolvers.comments None [Sample.fresh; Sample.voted]
  = Rejected TypeError.
Proof.
  apply (proj2 (proj2 (feed_comments_votes [Sample.fresh; Sample.voted]))).
  apply Exists_cons_tl. apply Exists_cons_hd. simpl. discriminate.
Defined.

(** ** Names *)

Lemma append_same_head (s a b : string) : s ++ a = s ++ b -> a = b.
Proof.
  induction s as [|c s IH]; simpl; intros H; [exact H|].
  inversion H. now apply IH.
Qed.

(** X15. The name [User.name] joins and the name the testimonial and the
    claimed membership print are the same text exactly when the user has
    both a first and a last name stored; for a name that is null the
    former has nothing and the latter the word null. *)
Theorem printed_names_agree :
  forall u,
    UserResolvers.name u = UserResolvers.printedName u <->
    (User.firstName u <> None /\ User.lastName u <> None).
Proof.
  intros u. unfold UserResolvers.name, UserResolvers.printedName.
  destruct (User.firstName u) as [f|], (User.lastName u) as [l|]; simpl.
  - split; [intros _; split; discriminate|reflexivity].
  - split; [|intros [_ H]; now contradiction H].
    intros H. apply append_same_head in H. discriminate.
  - split; [discriminate|intros [H _]; now contradiction H].
  - split; [discriminate|intros [H _]; now contradiction H].
Qed.

(** ** Claimed memberships *)

Lemma find_user_among ids i us :
  In i ids ->
  find (fun u => N.eqb (User.id u) i)
       (filter (fun u => inIds (User.id u) ids) us)
  = find (fun u => N.eqb (User.id u) i) us.
Proof.
  intros Hin. induction us as [|u l IH]; simpl; [reflexivity|].
  destruct (inIds (User.id u) ids) eqn:E; simpl.
  - now rewrite IH.
  - destruct (N.eqb (User.id u) i) eqn:Ei; [|exact IH].
    apply N.eqb_eq in Ei. subst i. unfold inIds in E.
    assert (existsb (N.eqb (User.id u)) ids = true); [|congruence].
    apply existsb_exists. exists (User.id u). split; [exact Hin|].
    apply N.eqb_refl.
Qed.

Lemma viewMemberships_claimers p found db ms :
  (forall m, In m ms ->
             find (fun u => N.eqb (User.id u) (Membership.userId m)) found
             = users_findById (Membership.userId m) db) ->
  (forall e,
      PledgeResolvers.viewMemberships p found ms = Rejected e <->
      e = TypeError /\
      exists m, In m ms /\ Membership.userId m <> Pledge.userId p /\
                users_findById (Membership.userId m) db = None) /\
  (forall views,
      PledgeResolvers.viewMemberships p found ms = Resolved views ->
      map MembershipView.membership views = ms /\
      Forall (fun v =>
                MembershipView.claimerName v
                = if N.eqb (Membership.userId (MembershipView.membership v))
                           (Pledge.userId p)
                  then None
                  else option_map UserResolvers.printedName
                         (users_findById
                            (Membership.userId (MembershipView.membership v))
                            db)) views).
Proof.
  induction ms as [|m l IH]; intros Hfound.
  - split.
    + intros e. simpl. split; [discriminate|].
      intros (_ & m & [] & _).
    + intros views H. inversion H. split; [reflexivity|constructor].
  - assert (Hl : forall m0, In m0 l ->
                 find (fun u => N.eqb (User.id u) (Membership.userId m0))
                      found
                 = users_findById (Membership.userId m0) db).
    { intros m0 H0. apply Hfound. now right. }
    destruct (IH Hl) as [IHr IHv]. clear IH.
    simpl. unfold PledgeResolvers.viewMembership.
    rewrite (Hfound m) by now left.
    destruct (N.eqb (Membership.userId m) (Pledge.userId p)) eqn:Em; simpl.
    + apply N.eqb_eq in Em.
      destruct (PledgeResolvers.viewMemberships p found l) as [vs|e0] eqn:Ev.
      * split.
        -- intros e. split; [discriminate|].
           intros (_ & m0 & [<-|Hin] & Hne & Hnone); [contradiction|].
           assert (Rejected (A := list MembershipView.t) TypeError
                   = Resolved vs); [|discriminate].
           symmetry. apply IHr. split; [reflexivity|]. now exists m0.
        -- intros views H. inversion H; subst views.
           destruct (IHv vs eq_refl) as [Hm Hall]. simpl.
           split; [now rewrite Hm|].
           constructor; [|exact Hall]. simpl.
           now rewrite (proj2 (N.eqb_eq _ _) Em).
      * split; [|discriminate].
        intros e. split.
        -- intros H. inversion H; subst e0.
           destruct (proj1 (IHr e) eq_refl) as (-> & m0 & Hin & Hne & Hnone).
           split; [reflexivity|]. exists m0. split; [now right|now split].
        -- intros (-> & _).
           destruct (proj1 (IHr e0) eq_refl) as (-> & _). reflexivity.
    + apply N.eqb_neq in Em.
      destruct (users_findById (Membership.userId m) db) as [u|] eqn:Eu.
      * destruct (PledgeResolvers.viewMemberships p found l) as [vs|e0] eqn:Ev.
        -- split.
           ++ intros e. split; [discriminate|].
              intros (_ & m0 & [<-|Hin] & Hne & Hnone); [congruence|].
              assert (Rejected (A := list MembershipView.t) TypeError
                      = Resolved vs); [|discriminate].
              symmetry. apply IHr. split; [reflexivity|]. now exists m0.
           ++ intros views H. inversion H; subst views.
              destruct (IHv vs eq_refl) as [Hm Hall]. simpl.
              split; [now rewrite Hm|].
              constructor; [|exact Hall]. simpl.
              rewrite (proj2 (N.eqb_neq _ _) Em). now rewrite Eu.
        -- split; [|discriminate].
           intros e. split.
           ++ intros H. inversion H; subst e0.
              destruct (proj1 (IHr e) eq_refl)
                as (-> & m0 & Hin & Hne & Hnone).
              split; [reflexivity|]. exists m0. split; [now right|now split].
           ++ intros (-> & _).
              destruct (proj1 (IHr e0) eq_refl) as (-> & _). reflexivity.
      * split; [|discriminate].
        intros e. split.
        -- intros H. inversion H. split; [reflexivity|].
           exists m. split; [now left|now split].
        -- intros (-> & _). reflexivity.
Qed.

(** X16. [Pledge.memberships] and the claimers' names. It is rejected,
    with a TypeError, exactly when a membership of the pledge belongs to
    somebody other than the pledge's user and that user has no row.
    Otherwise it resolves with the pledge's memberships in their order:
    those of the pledge's own user without a claimer name, every other
    with the printed name of the stored user it belongs to. *)
Theorem memberships_claimers :
  forall p table db,
    let ms := filter (fun m => N.eqb (Membership.pledgeId m) (Pledge.id p))
                     table in
    (forall e,
        PledgeResolvers.memberships p table db = Rejected e <->
        e = TypeError /\
        exists m, In m ms /\ Membership.userId m <> Pledge.userId p /\
                  users_findById (Membership.userId m) db = None) /\
    (forall views,
        PledgeResolvers.memberships p table db = Resolved views ->
        map MembershipView.membership views = ms /\
        Forall (fun v =>
                  MembershipView.claimerName v
                  = if N.eqb (Membership.userId
                                (MembershipView.membership v))
                             (Pledge.userId p)
                    then None
                    else option_map UserResolvers.printedName
                           (users_findById
                              (Membership.userId
                                 (MembershipView.membership v)) db)) views).
Proof.
  intros p table db ms. unfold PledgeResolvers.memberships. fold ms.
  destruct ms as [|m l] eqn:Ems.
  - simpl. split.
    + intros e. split; [discriminate|]. intros (_ & m & [] & _).
    + intros views H. inversion H. split; [reflexivity|constructor].
  - rewrite <- Ems.
    replace (Nat.eqb (List.length ms) 0) with false
      by (rewrite Ems; reflexivity).
    apply viewMemberships_claimers. intros m0 Hin. unfold users_findById.
    apply find_user_among. now apply in_map.
Qed.

Lemma memberships_claimers_witness :
  PledgeResolvers.memberships Sample.alicesPledge Sample.memberships
                              Fixture.store
  = Resolved [MembershipView.mk (Membership.mk 1 50 70 1) None;
              MembershipView.mk (Membership.mk 2 51 70 1) (Some "Carol C")]
  /\
  (TypeError = TypeError /\
   exists m,
     In m (filter (fun m => N.eqb (Membership.pledgeId m)
                                  (Pledge.id Sample.carolsPledge))
                  Sample.memberships) /\
     Membership.userId m <> Pledge.userId Sample.carolsPledge /\
     users_findById (Membership.userId m) Fixture.store = None).
Proof.
  split; [vm_compute; reflexivity|].
  apply (proj1 (proj1 (memberships_claimers Sample.carolsPledge
                         Sample.memberships Fixture.store) TypeError)).
  vm_compute. reflexivity.
Defined.

(** ** The options of a pledge *)

Lemma augmentFirst_count plo objects i objects' tid :
  PledgeOptionsResolver.augmentFirst plo objects = Some (i, objects') ->
  List.length (filter (OptionObject.isTemplate tid) objects)
  = (List.length (filter (OptionObject.isTemplate tid) objects')
     + if N.eqb tid (PledgeOption.templateId plo) then 1 else 0)%nat.
Proof.
  revert i objects'.
  induction objects as [|o rest IH]; simpl; intros i objects' H;
    [discriminate|].
  destruct (OptionObject.isTemplate (PledgeOption.templateId plo) o) eqn:E.
  - inversion H; subst. simpl. unfold OptionObject.isTemplate in *. simpl.
    destruct (OptionObject.id o) as [j|a b]; [|discriminate].
    apply N.eqb_eq in E. subst j.
    destruct (N.eqb tid (PledgeOption.templateId plo)); simpl; lia.
  - destruct (PledgeOptionsResolver.augmentFirst plo rest) as [[j rest']|];
      [|discriminate].
    inversion H; subst. simpl. specialize (IH _ _ eq_refl).
    destruct (OptionObject.isTemplate tid o); simpl; lia.
Qed.

Lemma augmentAll_count plos objects refs objects' tid :
  PledgeOptionsResolver.augmentAll plos objects = Some (refs, objects') ->
  (count_occ N.eq_dec (map PledgeOption.templateId plos) tid
   <= List.length (filter (OptionObject.isTemplate tid) objects))%nat.
Proof.
  revert objects refs objects'.
  induction plos as [|plo rest IH]; simpl; intros objects refs objects' H;
    [lia|].
  destruct (PledgeOptionsResolver.augmentFirst plo objects)
    as [[i objects1]|] eqn:E1; [|discriminate].
  destruct (PledgeOptionsResolver.augmentAll rest objects1)
    as [[refs2 objects2]|] eqn:E2; [|discriminate].
  specialize (IH _ _ _ E2).
  rewrite (augmentFirst_count _ _ _ _ tid E1).
  destruct (N.eq_dec (PledgeOption.templateId plo) tid) as [<-|Hne].
  - rewrite N.eqb_refl. lia.
  - lia.
Qed.

Lemma templates_absent tid pkos :
  ~ In tid (map PackageOption.id pkos) ->
  List.length (filter (OptionObject.isTemplate tid)
                      (map OptionObject.load pkos)) = 0%nat.
Proof.
  induction pkos as [|pko l IH]; simpl; intros H; [reflexivity|].
  unfold OptionObject.isTemplate at 1. simpl.
  destruct (N.eqb tid (PackageOption.id pko)) eqn:E.
  - apply N.eqb_eq in E. exfalso. apply H. now left.
  - apply IH. intros Hin. apply H. now right.
Qed.

Lemma templates_once tid pkos :
  NoDup (map PackageOption.id pkos) ->
  (List.length (filter (OptionObject.isTemplate tid)
                       (map OptionObject.load pkos)) <= 1)%nat.
Proof.
  induction pkos as [|pko l IH]; simpl; intros H; [lia|].
  inversion H as [|i ids Hfresh Hrest]; subst.
  unfold OptionObject.isTemplate at 1. simpl.
  destruct (N.eqb tid (PackageOption.id pko)) eqn:E.
  - apply N.eqb_eq in E. subst tid. simpl.
    rewrite (templates_absent _ _ Hfresh). lia.
  - now apply IH.
Qed.

Lemma templates_among tid (keep : PackageOption.t -> bool) pkos :
  (List.length (filter (OptionObject.isTemplate tid)
                       (map OptionObject.load (filter keep pkos)))
   <= List.length (filter (OptionObject.isTemplate tid)
                          (map OptionObject.load pkos)))%nat.
Proof.
  induction pkos as [|pko l IH]; simpl; [lia|].
  destruct (keep pko); simpl;
    destruct (OptionObject.isTemplate tid (OptionObject.load pko));
    simpl; lia.
Qed.

Lemma templates_found tid pkos :
  (0 < List.length (filter (OptionObject.isTemplate tid)
                           (map OptionObject.load pkos)))%nat ->
  findTemplate pkos tid <> None.
Proof.
  unfold findTemplate.
  induction pkos as [|pko l IH]; simpl; intros H; [lia|].
  unfold OptionObject.isTemplate in H at 1. simpl in H.
  rewrite N.eqb_sym.
  destruct (N.eqb tid (PackageOption.id pko)); [discriminate|].
  now apply IH.
Qed.

Lemma find_loaded tid pkos :
  find (OptionObject.isTemplate tid) (map OptionObject.load pkos)
  = option_map OptionObject.load (findTemplate pkos tid).
Proof.
  unfold findTemplate. induction pkos as [|pko l IH]; simpl; [reflexivity|].
  unfold OptionObject.isTemplate at 1. simpl. rewrite N.eqb_sym.
  now destruct (N.eqb (PackageOption.id pko) tid).
Qed.

Lemma augmentFirst_stable plo objects i objects' j x :
  PledgeOptionsResolver.augmentFirst plo objects = Some (i, objects') ->
  nth_error objects j = Some x ->
  OptionObject.isTemplate (PledgeOption.templateId plo) x = false ->
  nth_error objects' j = Some x.
Proof.
  revert i objects' j.
  induction objects as [|o rest IH]; simpl; intros i objects' j H Hj Hx;
    [discriminate|].
  destruct (OptionObject.isTemplate (PledgeOption.templateId plo) o) eqn:E.
  - inversion H; subst. destruct j as [|j]; simpl in *; [|exact Hj].
    inversion Hj; subst. congruence.
  - destruct (PledgeOptionsResolver.augmentFirst plo rest) as [[k rest']|]
      eqn:Er; [|discriminate].
    inversion H; subst. destruct j as [|j]; simpl in *; [exact Hj|].
    eapply IH; eauto.
Qed.

Lemma augmentAll_stable plos objects refs objects' j x :
  PledgeOptionsResolver.augmentAll plos objects = Some (refs, objects') ->
  nth_error objects j = Some x ->
  (forall tid, OptionObject.isTemplate tid x = false) ->
  nth_error objects' j = Some x.
Proof.
  revert objects refs objects'.
  induction plos as [|plo rest IH]; simpl; intros objects refs objects' H Hj Hx.
  - inversion H; subst. exact Hj.
  - destruct (PledgeOptionsResolver.augmentFirst plo objects)
      as [[i objects1]|] eqn:E1; [|discriminate].
    destruct (PledgeOptionsResolver.augmentAll rest objects1)
      as [[refs2 objects2]|] eqn:E2; [|discriminate].
    inversion H; subst.
    eapply IH; eauto. eapply augmentFirst_stable; eauto.
Qed.

Lemma augmentFirst_found plo objects o :
  find (OptionObject.isTemplate (PledgeOption.templateId plo)) objects
  = Some o ->
  exists i objects',
    PledgeOptionsResolver.augmentFirst plo objects = Some (i, objects') /\
    nth_error objects' i = Some (OptionObject.augment plo o) /\
    forall tid, tid <> PledgeOption.templateId plo ->
                find (OptionObject.isTemplate tid) objects'
                = find (OptionObject.isTemplate tid) objects.
Proof.
  induction objects as [|x rest IH]; simpl; intros H; [discriminate|].
  destruct (OptionObject.isTemplate (PledgeOption.templateId plo) x) eqn:E.
  - inversion H; subst x. exists 0%nat. eexists. split; [reflexivity|].
    split; [reflexivity|]. intros tid Hne. simpl.
    unfold OptionObject.isTemplate in *. simpl.
    destruct (OptionObject.id o) as [k|a b]; [|discriminate].
    apply N.eqb_eq in E. subst k.
    now rewrite (proj2 (N.eqb_neq _ _) Hne).
  - destruct (IH H) as (i & rest' & Ha & Hn & Hf). rewrite Ha.
    exists (S i). eexists. split; [reflexivity|]. split; [exact Hn|].
    intros tid Hne. simpl. now rewrite (Hf tid Hne).
Qed.

Lemma augmentAll_found (source : uuid -> option OptionObject.t) plos :
  forall objects,
    NoDup (map PledgeOption.templateId plos) ->
    (forall plo, In plo plos ->
       find (OptionObject.isTemplate (PledgeOption.templateId plo)) objects
       = source (PledgeOption.templateId plo) /\
       source (PledgeOption.templateId plo) <> None) ->
    exists refs objects',
      PledgeOptionsResolver.augmentAll plos objects = Some (refs, objects') /\
      Forall2 (fun plo r =>
                 exists o, source (PledgeOption.templateId plo) = Some o /\
                           r = OptionObject.augment plo o)
              plos (PledgeOptionsResolver.readRefs objects' refs).
Proof.
  induction plos as [|plo rest IH]; simpl; intros objects Hkey Hsrc.
  - exists [], objects. split; [reflexivity|constructor].
  - inversion Hkey as [|tid tids Hfresh Hrest]; subst.
    destruct (Hsrc plo (or_introl eq_refl)) as [Hfind Hsome].
    destruct (source (PledgeOption.templateId plo)) as [o|] eqn:Es;
      [|contradiction].
    destruct (augmentFirst_found plo objects o Hfind)
      as (i & objects1 & Ha & Hn & Hf).
    rewrite Ha.
    destruct (IH objects1 Hrest) as (refs & objects2 & Hall & Hres).
    { intros plo' Hin.
      assert (Hne : PledgeOption.templateId plo'
                    <> PledgeOption.templateId plo).
      { intros Heq. apply Hfresh. rewrite <- Heq. now apply in_map. }
      rewrite (Hf _ Hne). apply Hsrc. now right. }
    rewrite Hall. exists (i :: refs), objects2. split; [reflexivity|].
    unfold PledgeOptionsResolver.readRefs. simpl.
    rewrite (augmentAll_stable _ _ _ _ _ _ Hall Hn) by reflexivity.
    simpl. constructor; [|exact Hres]. now exists o.
Qed.

Lemma options_of_distinct_templates pledge db :
  NoDup (map PledgeOption.templateId
             (pledgeOptions_find [Pledge.id pledge] db)) ->
  (forall plo, In plo (pledgeOptions_find [Pledge.id pledge] db) ->
     findTemplate (packageOptions db) (PledgeOption.templateId plo)
     <> None) ->
  exists l,
    PledgeOptionsResolver.options pledge db = Resolved l /\
    Forall2 (fun plo o =>
               exists pko,
                 findTemplate (packageOptions db)
                              (PledgeOption.templateId plo) = Some pko /\
                 o = OptionObject.augment plo (OptionObject.load pko))
            (pledgeOptions_find [Pledge.id pledge] db) l.
Proof.
  unfold PledgeOptionsResolver.options.
  set (plos := pledgeOptions_find [Pledge.id pledge] db).
  intros Hkey Hall.
  destruct plos as [|plo0 others] eqn:Eplos.
  { simpl. exists []. split; [reflexivity|constructor]. }
  rewrite <- Eplos in *.
  replace (Nat.eqb (List.length plos) 0) with false
    by (rewrite Eplos; reflexivity).
  unfold packageOptions_find.
  destruct (augmentAll_found
              (fun tid => option_map OptionObject.load
                            (findTemplate (packageOptions db) tid))
              plos
              (map OptionObject.load
                 (filter (fun pko =>
                            inIds (PackageOption.id pko)
                                  (map PledgeOption.templateId plos))
                         (packageOptions db))) Hkey)
    as (refs & objects & Ha & Hres).
  { intros plo Hin. split.
    - rewrite find_loaded. f_equal. apply findTemplate_loaded.
      now apply in_map.
    - specialize (Hall plo Hin).
      now destruct (findTemplate (packageOptions db)
                                 (PledgeOption.templateId plo)). }
  rewrite Ha. eexists. split; [reflexivity|].
  eapply Forall2_impl; [|exact Hres].
  intros plo r (o & Ho & ->).
  destruct (findTemplate (packageOptions db)
                         (PledgeOption.templateId plo)) as [pko|];
    [|discriminate].
  inversion Ho. now exists pko.
Qed.

(** X17. [Pledge.options], which changes the loaded templates in place.
    When the options stored for the pledge refer to pairwise distinct
    templates of the catalog, it resolves with one object per option, in
    the options' order: the option's template with the combined key, the
    option's amount, templateId and price. It resolves in no other case:
    if it resolves, every option's template is in the catalog and, ids
    being unique in the catalog, no two options share a template. It is
    rejected with nothing but a TypeError. *)
Theorem pledge_options_augmented :
  forall pledge db,
    let plos := pledgeOptions_find [Pledge.id pledge] db in
    (NoDup (map PledgeOption.templateId plos) ->
     (forall plo, In plo plos ->
        findTemplate (packageOptions db) (PledgeOption.templateId plo)
        <> None) ->
     exists l,
       PledgeOptionsResolver.options pledge db = Resolved l /\
       Forall2 (fun plo o =>
                  exists pko,
                    findTemplate (packageOptions db)
                                 (PledgeOption.templateId plo) = Some pko /\
                    o = OptionObject.augment plo (OptionObject.load pko))
               plos l) /\
    (forall l,
        PledgeOptionsResolver.options pledge db = Resolved l ->
        (forall plo, In plo plos ->
           findTemplate (packageOptions db) (PledgeOption.templateId plo)
           <> None) /\
        (NoDup (map PackageOption.id (packageOptions db)) ->
         NoDup (map PledgeOption.templateId plos))) /\
    (forall e,
        PledgeOptionsResolver.options pledge db = Rejected e ->
        e = TypeError).
Proof.
  intros pledge db plos. split; [apply options_of_distinct_templates|].
  unfold PledgeOptionsResolver.options. fold plos.
  destruct plos as [|plo0 others] eqn:Eplos.
  { simpl. split.
    - intros l _. split; [intros plo []|intros _; constructor].
    - discriminate. }
  rewrite <- Eplos.
  replace (Nat.eqb (List.length plos) 0) with false
    by (rewrite Eplos; reflexivity).
  unfold packageOptions_find.
  split.
  - intros l H.
    destruct (PledgeOptionsResolver.augmentAll plos _)
      as [[refs objects]|] eqn:Ea; [|discriminate].
    split.
    + intros plo Hin. apply templates_found.
      pose proof (augmentAll_count _ _ _ _ (PledgeOption.templateId plo) Ea)
        as Hc.
      pose proof (templates_among (PledgeOption.templateId plo)
                    (fun pko => inIds (PackageOption.id pko)
                                      (map PledgeOption.templateId plos))
                    (packageOptions db)) as Hle.
      assert (0 < count_occ N.eq_dec (map PledgeOption.templateId plos)
                            (PledgeOption.templateId plo))%nat; [|lia].
      apply count_occ_In. now apply in_map.
    + intros Hcat. apply (NoDup_count_occ N.eq_dec). intros tid.
      pose proof (augmentAll_count _ _ _ _ tid Ea) as Hc.
      pose proof (templates_among tid
                    (fun pko => inIds (PackageOption.id pko)
                                      (map PledgeOption.templateId plos))
                    (packageOptions db)) as Hle.
      pose proof (templates_once tid _ Hcat). lia.
  - intros e H.
    destruct (PledgeOptionsResolver.augmentAll plos _)
      as [[refs objects]|]; now inversion H.
Qed.

Lemma pledge_options_augmented_witness :
  exists l,
    PledgeOptionsResolver.options Sample.alicesPledge Fixture.store
    = Resolved l /\
    Forall2 (fun plo o =>
               exists pko,
                 findTemplate (packageOptions Fixture.store)
                              (PledgeOption.templateId plo) = Some pko /\
                 o = OptionObject.augment plo (OptionObject.load pko))
            (pledgeOptions_find [Pledge.id Sample.alicesPledge]
                                Fixture.store) l.
Proof.
  apply (proj1 (pledge_options_augmented Sample.alicesPledge Fixture.store)).
  - vm_compute. constructor; [intros []|constructor].
  - intros plo Hin. vm_compute in Hin. destruct Hin as [<-|[]].
    vm_compute. discriminate.
Defined.

Lemma nodup_same_length (l : list uuid) :
  List.length (nodup N.eq_dec l) = List.length l -> NoDup l.
Proof.
  induction l as [|a l IH]; simpl; intros H; [constructor|].
  destruct (in_dec N.eq_dec a l) as [Hin|Hout].
  - pose proof (nodup_length_le l). lia.
  - simpl in H. constructor; [exact Hout|]. apply IH. lia.
Qed.

Lemma Forall2_mapped {A B C} (f : A -> B) (R : B -> C -> Prop) l l' :
  Forall2 R (map f l) l' -> Forall2 (fun x y => R (f x) y) l l'.
Proof.
  revert l'. induction l as [|x l IH]; simpl; intros l' H.
  - inversion H. constructor.
  - inversion H; subst. constructor; auto.
Qed.

Lemma filter_none {A} (f : A -> bool) l :
  (forall x, In x l -> f x = false) -> filter f l = [].
Proof.
  induction l as [|x l IH]; simpl; intros H; [reflexivity|].
  rewrite (H x) by now left. apply IH. intros y Hy. apply H. now right.
Qed.

Section Accepted.

Variable t : string -> string.
Variable postfinanceSHA : uuid -> Z -> uuid -> uuid -> string.

(** What the template checks have established about a pledge the
    mutation returned. *)
Lemma submitted_templates req pledge w r w' :
  body t postfinanceSHA req pledge (begun w) = (Val r, w') ->
  (List.length (PledgeInput.options pledge)
   <= List.length (loadedTemplates (committed w)
                                   (PledgeInput.options pledge)))%nat /\
  forall plo, In plo (PledgeInput.options pledge) ->
              templateOf (committed w) plo <> None.
Proof.
  intros H. apply body_val_steps in H.
  destruct H as (s & w1 & w2 & pu & w3 & Hb & _).
  unfold beforeGuard in Hb.
  apply bind_val_inv in Hb. destruct Hb as (pd & wa & Hv & _).
  unfold validatePricing in Hv.
  apply bind_val_inv in Hv. destruct Hv as (cp & wb & Hc & _).
  apply checkTemplates_val_inv in Hc.
  destruct Hc as (db & first & Hw & _ & _ & Hcp & Hlen & _ & _ & Hall).
  simpl in Hw. inversion Hw; subst db. rewrite Hcp in Hlen, Hall.
  split; [exact Hlen|].
  intros plo Hin. destruct (Hall plo Hin) as (pko & Hf & _).
  rewrite findTemplate_loadedTemplates in Hf by exact Hin.
  now rewrite Hf.
Qed.

End Accepted.

(** X19. A pledge the mutation returned can be shown with its options.
    With unique ids in the catalog and a generated pledge id no stored
    option refers to, [Pledge.options] resolves on the committed store for
    the returned pledge, with one object per submitted option in the
    submitted order: the option's template from the catalog, carrying the
    combined key and the submitted amount, templateId and price. *)
Theorem accepted_pledge_shows_options :
  forall t postfinanceSHA req pledge w pledgeId userId pfSHA pfAliasId w',
    submitPledge t postfinanceSHA req pledge w
    = (Returned (Submitted pledgeId userId pfSHA pfAliasId), w') ->
    NoDup (map PackageOption.id (packageOptions (committed w))) ->
    (forall o, In o (pledgeOptions (committed w)) ->
               PledgeOption.pledgeId o <> pledgeId) ->
    forall row,
      Pledge.id row = pledgeId ->
      exists l,
        PledgeOptionsResolver.options row (committed w') = Resolved l /\
        Forall2 (fun plo o =>
                   exists pko,
                     templateOf (committed w) plo = Some pko /\
                     o = OptionObject.augment (optionRow pledgeId plo)
                                              (OptionObject.load pko))
                (PledgeInput.options pledge) l.
Proof.
  intros t sha req pledge w pid uid sig alias w' H Hcat Hfresh row Hrow.
  apply submitPledge_submitted_inv in H. destruct H as (_ & E).
  pose proof (submitted_templates t sha req pledge w _ _ E) as [Hlen Hall].
  pose proof (body_val_grows t sha req pledge w _ _ E) as [Hc _ _ _ _ _].
  apply body_val_inv in E.
  destruct E as (row' & u & a & Hr & _ & _ & _ & _ & _ & _ & _ & Ho & _).
  injection Hr as Hpid _ _ _.
  assert (Hplos : pledgeOptions_find [Pledge.id row] (committed w')
                  = map (optionRow pid) (PledgeInput.options pledge)).
  { unfold pledgeOptions_find. rewrite Ho, filter_app, Hrow, <- Hpid.
    replace (filter _ (pledgeOptions (committed w))) with (@nil PledgeOption.t).
    - simpl. apply forallb_filter_id. apply forallb_forall.
      intros o Hin. apply in_map_iff in Hin. destruct Hin as (plo & <- & _).
      simpl. now rewrite N.eqb_refl.
    - symmetry. apply filter_none. intros o Hin. simpl.
      now rewrite (proj2 (N.eqb_neq _ _) (Hfresh o Hin)). }
  assert (Hkey : NoDup (map PledgeOptionInput.templateId
                            (PledgeInput.options pledge))).
  { apply nodup_same_length.
    pose proof (loaded_le_distinct (committed w) (PledgeInput.options pledge)
                  Hcat) as [H1 H2].
    unfold distinctTemplateIds in *.
    rewrite length_map in *. lia. }
  destruct (options_of_distinct_templates row (committed w'))
    as (l & Hl & Hres).
  - rewrite Hplos, map_map. exact Hkey.
  - rewrite Hplos. intros o Hin. apply in_map_iff in Hin.
    destruct Hin as (plo & <- & Hin). simpl. rewrite Hc.
    exact (Hall plo Hin).
  - exists l. split; [exact Hl|].
    rewrite Hplos in Hres. apply Forall2_mapped in Hres.
    eapply Forall2_impl; [|exact Hres].
    intros plo o (pko & Hf & ->). exists pko. split; [|reflexivity].
    unfold templateOf. now rewrite <- Hc.
Qed.

Lemma accepted_pledge_shows_options_witness :
  exists l,
    PledgeOptionsResolver.options Sample.bobsPledge Sample.afterBob
    = Resolved l /\
    Forall2 (fun plo o =>
               exists pko,
                 templateOf (committed Fixture.world) plo = Some pko /\
                 o = OptionObject.augment (optionRow 1002 plo)
                                          (OptionObject.load pko))
            (PledgeInput.options (Fixture.cart 3500 None Fixture.bob)) l.
Proof.
  apply (accepted_pledge_shows_options Fixture.t Fixture.postfinanceSHA
           Fixture.anonymous (Fixture.cart 3500 None Fixture.bob)
           Fixture.world 1002%N 1000%N "sha" 1001%N).
  - vm_compute. reflexivity.
  - simpl. repeat constructor; simpl; intuition discriminate.
  - simpl. intros o [<-|[]]. discriminate.
  - reflexivity.
Defined.

(** ** The image of a testimonial *)

Lemma replace_first pattern replacement s :
  TestimonialResolvers.replace pattern replacement s
  = match String.index 0 pattern s with
    | Some n =>
        String.substring 0 n s ++ replacement
        ++ TestimonialResolvers.dropChars (n + String.length pattern) s
    | None => s
    end.
Proof.
  induction s as [|c s IH].
  - destruct pattern; reflexivity.
  - cbn [TestimonialResolvers.replace String.index].
    destruct (String.prefix pattern (String c s)); [reflexivity|].
    rewrite IH. destruct (String.index 0 pattern s) as [n|]; reflexivity.
Qed.

(** X18. [Testimonial.image]. For the size SHARE the stored address has
    its first 384x384.jpeg replaced by 1000x1000.jpeg, everything before
    and after that occurrence staying as it is, and is returned unchanged
    if it has no such part; for any other size, or none, it is returned
    unchanged. *)
Theorem share_image :
  forall stored size,
    TestimonialResolvers.image stored size
    = match size, String.index 0 "384x384.jpeg" stored with
      | Some s, Some n =>
          if String.eqb s "SHARE"
          then String.substring 0 n stored ++ "1000x1000.jpeg"
               ++ TestimonialResolvers.dropChars (n + 12) stored
          else stored
      | _, _ => stored
      end.
Proof.
  intros stored size. unfold TestimonialResolvers.image.
  destruct size as [s|]; [|reflexivity].
  destruct (String.eqb s "SHARE").
  - rewrite replace_first.
    now destruct (String.index 0 "384x384.jpeg" stored).
  - now destruct (String.index 0 "384x384.jpeg" stored).
Qed.

(** ** The package and the floor *)

Section Package.

Variable t : string -> string.
Variable postfinanceSHA : uuid -> Z -> uuid -> uuid -> string.

Lemma body_val_package req pledge w r w' :
  body t postfinanceSHA req pledge (begun w) = (Val r, w') ->
  exists row,
    (exists uid sig alias, r = Submitted (Pledge.id row) uid sig alias) /\
    pledges (committed w') = (pledges (committed w) ++ [row])%list /\
    forall plo, In plo (PledgeInput.options pledge) ->
      exists pko,
        templateOf (committed w) plo = Some pko /\
        PackageOption.packageId pko = Pledge.packageId row.
Proof.
  unfold body. intros H.
  apply bind_val_inv in H. destruct H as (s & w1 & Hb & H).
  apply bind_val_inv in H. destruct H as (u0 & w2 & Hg & H).
  pose proof (beforeGuard_framed t req pledge _ _ _ Hb) as Hf1.
  pose proof (reducedPledgeGuard_untouched t _ _ _ _ _ Hg) as Hu2.
  unfold beforeGuard in Hb.
  apply bind_val_inv in Hb. destruct Hb as (pd & wa & Hv & Hs).
  unfold validatePricing in Hv.
  apply bind_val_inv in Hv. destruct Hv as (cp & wb & Hc & Hv).
  apply bind_val_inv in Hv. destruct Hv as (d & wc & _ & Hv).
  inversion Hv; subst pd wa. clear Hv.
  apply checkTemplates_val_inv in Hc.
  destruct Hc as (db & first & Hw & _ & _ & Hcp & _ & _ & _ & Hall).
  simpl in Hw. inversion Hw; subst db. clear Hw.
  apply settle_val_inv in Hs. destruct Hs as [Hpk _]. simpl in Hpk.
  destruct Hf1 as [_ _ _ Hw1].
  destruct (Hw1 (committed w) eq_refl) as (db1 & Hdb1 & Hp1 & _).
  destruct Hu2 as [_ Hw2 _ _ _].
  unfold afterGuard in H.
  apply bind_val_inv in H. destruct H as (pu & w3 & Hi & H).
  apply bind_val_inv in H. destruct H as (u1 & w4 & Hcm & H).
  inversion H; subst r w'. clear H.
  eapply insertPledge_val_inv in Hi; [|rewrite Hw2; exact Hdb1].
  destruct Hi as (_ & Hrow & db3 & Hdb3 & Hp3 & _).
  apply transactionCommit_val_inv in Hcm.
  destruct Hcm as (db4 & Hdb4 & Hc4 & _).
  rewrite Hdb3 in Hdb4. inversion Hdb4 as [Hdb]. clear Hdb4.
  subst db3. rewrite Hp1 in Hp3.
  exists (fst pu). split; [do 3 eexists; reflexivity|].
  split; [now rewrite Hc4|].
  intros plo Hin. destruct (Hall plo Hin) as (pko & Hf & Hp & _).
  exists pko. split.
  - rewrite Hcp in Hf.
    now rewrite findTemplate_loadedTemplates in Hf by exact Hin.
  - rewrite Hrow. simpl. now rewrite Hpk.
Qed.

Lemma validatePricing_floor pledge w pd w' :
  validatePricing t pledge w = (Val pd, w') ->
  100 <= PledgeInput.total pledge.
Proof.
  intros H. apply validatePricing_val_inv in H.
  destruct H as (db & _ & _ & _ & Hmin & _).
  unfold spec_minTotal in Hmin. lia.
Qed.

Lemma beforeGuard_floor req pledge w o w' :
  beforeGuard t req pledge w = (o, w') ->
  (forall e, o <> Exn e) ->
  100 <= PledgeInput.total pledge.
Proof.
  unfold beforeGuard. intros H Hne.
  destruct o as [s|r|e]; [| |now contradiction (Hne e)].
  - apply bind_val_inv in H. destruct H as (pd & w1 & Hv & _).
    eapply validatePricing_floor; eauto.
  - apply bind_ret_inv in H. destruct H as [H | (pd & w1 & Hv & _)].
    + now apply (validatePricing_returns t (fun _ => False)) in H.
    + eapply validatePricing_floor; eauto.
Qed.

Lemma body_floor req pledge w r w' :
  (body t postfinanceSHA req pledge w = (Val r, w') \/
   body t postfinanceSHA req pledge w = (Ret r, w')) ->
  100 <= PledgeInput.total pledge.
Proof.
  unfold body. intros [H|H].
  - apply bind_val_inv in H. destruct H as (s & w1 & Hb & _).
    eapply beforeGuard_floor; [exact Hb|discriminate].
  - apply bind_ret_inv in H. destruct H as [H | (s & w1 & Hb & _)].
    + eapply beforeGuard_floor; [exact H|discriminate].
    + eapply beforeGuard_floor; [exact Hb|discriminate].
Qed.

End Package.

(** X20. The package of a committed pledge is the package of its
    options: when the mutation returns a pledge, the row it committed
    carries the returned id and a packageId that every submitted option's
    template in the catalog has as its package. *)
Theorem committed_package :
  forall t postfinanceSHA req pledge w pledgeId userId pfSHA pfAliasId w',
    submitPledge t postfinanceSHA req pledge w
    = (Returned (Submitted pledgeId userId pfSHA pfAliasId), w') ->
    exists row,
      pledges (committed w') = (pledges (committed w) ++ [row])%list /\
      Pledge.id row = pledgeId /\
      forall plo, In plo (PledgeInput.options pledge) ->
        exists pko,
          templateOf (committed w) plo = Some pko /\
          PackageOption.packageId pko = Pledge.packageId row.
Proof.
  intros t sha req pledge w pid uid sig alias w' H.
  apply submitPledge_submitted_inv in H. destruct H as (_ & E).
  apply body_val_package in E.
  destruct E as (row & (uid' & sig' & alias' & Hr) & Hp & Hall).
  inversion Hr. now exists row.
Qed.

Lemma committed_package_witness :
  exists row,
    pledges Sample.afterBob = (pledges (committed Fixture.world) ++ [row])%list
    /\ Pledge.id row = 1002%N /\
    forall plo,
      In plo (PledgeInput.options (Fixture.cart 3500 None Fixture.bob)) ->
      exists pko,
        templateOf (committed Fixture.world) plo = Some pko /\
        PackageOption.packageId pko = Pledge.packageId row.
Proof.
  apply (committed_package Fixture.t Fixture.postfinanceSHA
           Fixture.anonymous (Fixture.cart 3500 None Fixture.bob)
           Fixture.world 1002%N 1000%N "sha" 1001%N).
  vm_compute. reflexivity.
Defined.

(** X21. No submission with a total below 100 gets anywhere: whatever
    the options, the session and the store, the mutation throws, commits
    nothing and does not ask for the email to be verified. *)
Theorem total_below_floor_fails :
  forall t postfinanceSHA req pledge w o w',
    PledgeInput.total pledge < 100 ->
    submitPledge t postfinanceSHA req pledge w = (o, w') ->
    (exists e, o = Threw e) /\ committed w' = committed w.
Proof.
  intros t sha req pledge w o w' Hlow H.
  destruct (submitPledge_inv t sha req pledge w o w' H)
    as [(_ & -> & ->) | (_ & [(r & _ & E)
       | (e & w1 & E & [(_ & -> & ->) | (_ & -> & ->)])])].
  - split; [now exists storeError | reflexivity].
  - pose proof (body_floor t sha req pledge _ r w' E). lia.
  - split; [now exists e|].
    apply body_exn_kept in E. destruct E as [Hc _ _]. simpl. now rewrite Hc.
  - split; [now exists storeError|].
    apply body_exn_kept in E. now destruct E as [Hc _ _].
Qed.

(** None of template A: the sum over the options is 0, so that the floor
    alone decides. At a total of 100 the pledge is returned, at 99 the
    check of the total throws. *)
Lemma total_below_floor_fails_witness :
  fst (submitPledge Fixture.t Fixture.postfinanceSHA Fixture.anonymous
         (PledgeInput.mk 100 None Fixture.bob [Fixture.optA 0]) Fixture.world)
  = Returned (Submitted 1002 1000 "sha" 1001) /\
  fst (submitPledge Fixture.t Fixture.postfinanceSHA Fixture.anonymous
         (PledgeInput.mk 99 None Fixture.bob [Fixture.optA 0]) Fixture.world)
  = Threw totalUndeclared /\
  (exists e,
      fst (submitPledge Fixture.t Fixture.postfinanceSHA Fixture.anonymous
             (PledgeInput.mk 99 None Fixture.bob [Fixture.optA 0])
             Fixture.world)
      = Threw e) /\
  committed (snd (submitPledge Fixture.t Fixture.postfinanceSHA
                    Fixture.anonymous
                    (PledgeInput.mk 99 None Fixture.bob [Fixture.optA 0])
                    Fixture.world))
  = committed Fixture.world.
Proof.
  split; [vm_compute; reflexivity|]. split; [vm_compute; reflexivity|].
  apply (total_below_floor_fails Fixture.t Fixture.postfinanceSHA
           Fixture.anonymous
           (PledgeInput.mk 99 None Fixture.bob [Fixture.optA 0])
           Fixture.world).
  - simpl. lia.
  - apply surjective_pairing.
Defined.

Lemma printed_names_agree_witness :
  UserResolvers.name Fixture.alice = UserResolvers.printedName Fixture.alice.
Proof.
  apply (proj2 (printed_names_agree Fixture.alice)).
  simpl. split; discriminate.
Defined.

(** ** Reduced pledges *)

(** X22. A submission whose total is below the regular total of its
    options and whose reason is absent or empty always fails: the mutation
    throws and commits nothing. When pricing validation passes and the
    store performs the begin and the rollback, what is thrown is the error
    of the reason check. *)
Theorem reduction_without_reason_fails :
  forall t postfinanceSHA req pledge w,
    PledgeInput.total pledge
      - spec_regularTotal (committed w) (PledgeInput.options pledge) < 0 ->
    noReason (PledgeInput.reason pledge) = true ->
    exists e w',
      submitPledge t postfinanceSHA req pledge w = (Threw e, w') /\
      committed w' = committed w /\
      (forall pd w1,
         refusesBegin w = false -> refusesRollback w = false ->
         validatePricing t pledge (begun w) = (Val pd, w1) ->
         e = unexpected t MissingReductionReason).
Proof.
  intros t sha req pledge w Hd Hn.
  destruct (validatePricing t pledge (begun w)) as [[pd|r|e] w1] eqn:Hv.
  - pose proof (validatePricing_val_inv t pledge _ _ _ Hv)
      as (db & Hw & _ & _ & _ & Hpd).
    simpl in Hw. inversion Hw; subst db. rewrite <- Hpd in Hd.
    destruct (checkReason_missing t pledge (snd pd) w1 Hd Hn) as (w2 & Hcr).
    assert (Hb : body t sha req pledge (begun w)
                 = (Exn (unexpected t MissingReductionReason), w2)).
    { unfold body, beforeGuard.
      erewrite bind_exn; [reflexivity|].
      rewrite (bind_val _ _ _ _ _ Hv). unfold settle.
      now rewrite (bind_exn _ _ _ _ _ Hcr). }
    destruct (submitPledge_of_exn t sha req pledge w _ _ Hb)
      as (e' & w' & Hs & Hc & _ & Hok).
    exists e', w'. split; [exact Hs|]. split; [exact Hc|].
    intros pd0 w0 Hbegin Hroll _. now destruct (Hok Hbegin Hroll).
  - now apply (validatePricing_returns t (fun _ => False)) in Hv.
  - assert (Hb : body t sha req pledge (begun w) = (Exn e, w1)).
    { unfold body, beforeGuard.
      erewrite bind_exn; [reflexivity|].
      now rewrite (bind_exn _ _ _ _ _ Hv). }
    destruct (submitPledge_of_exn t sha req pledge w _ _ Hb)
      as (e' & w' & Hs & Hc & _).
    exists e', w'. split; [exact Hs|]. split; [exact Hc|].
    intros pd0 w0 _ _ Hv0. discriminate.
Qed.

(** Alice's cart, 500 below its regular total, without a reason. *)
Lemma reduction_without_reason_fails_witness :
  exists e w',
    submitPledge Fixture.t Fixture.postfinanceSHA Fixture.asAlice
                 (Fixture.cart 3000 None Fixture.aliceInput) Fixture.world
    = (Threw e, w') /\
    committed w' = committed Fixture.world /\
    (forall pd w1,
       refusesBegin Fixture.world = false ->
       refusesRollback Fixture.world = false ->
       validatePricing Fixture.t (Fixture.cart 3000 None Fixture.aliceInput)
                       (begun Fixture.world) = (Val pd, w1) ->
       e = unexpected Fixture.t MissingReductionReason).
Proof.
  apply (reduction_without_reason_fails Fixture.t Fixture.postfinanceSHA
           Fixture.asAlice (Fixture.cart 3000 None Fixture.aliceInput)
           Fixture.world).
  - reflexivity.
  - reflexivity.
Defined.

(** X23. A submission that reaches the guard with a negative donation has
    given a reason. On a store that answers every call the guard lets it
    through when the acting user has no pledge, and when no reward is
    reachable from the user's pledges and these hold a template of the
    catalog. *)
Theorem reduction_with_reason_passes :
  forall t req pledge w s w1 u,
    failAt w = [] ->
    beforeGuard t req pledge (begun w) = (Val s, w1) ->
    s_user s = Some u ->
    s_donation s < 0 ->
    (pledges_count (User.id u) (committed w) = 0%nat \/
     (templatesHeld (committed w) (User.id u) <> [] /\
      ~ rewardReachable (committed w) (User.id u))) ->
    noReason (PledgeInput.reason pledge) = false /\
    exists w2,
      reducedPledgeGuard t (s_donation s) (s_user s) w1 = (Val tt, w2).
Proof.
  intros t req pledge w s w1 u Hf Hb Hu Hd Hor. split.
  - unfold beforeGuard in Hb.
    apply bind_val_inv in Hb. destruct Hb as (pd & wa & _ & Hs).
    pose proof (settle_val_inv t req pledge pd _ _ _ Hs) as [_ Hdn].
    unfold settle in Hs.
    apply bind_val_inv in Hs. destruct Hs as (u0 & wb & Hcr & _).
    rewrite Hdn in Hd. apply Z.ltb_lt in Hd.
    unfold checkReason in Hcr. rewrite Hd in Hcr.
    destruct (noReason (PledgeInput.reason pledge)); [|reflexivity].
    unfold bind, logger, throw in Hcr. inversion Hcr.
  - pose proof (beforeGuard_framed t req pledge _ _ _ Hb) as [Hc1 Hf1 _ Hw1].
    destruct (Hw1 (committed w) eq_refl) as (db1 & Hdb1 & Hso).
    simpl in Hc1, Hf1. rewrite Hf in Hf1.
    destruct (reducedPledgeGuard_eval t (s_donation s) u w1 db1 Hdb1 Hf1 Hd)
      as (w2 & Hg).
    rewrite <- Hu in Hg. rewrite Hc1 in Hg.
    rewrite (templatesHeld_sameOrders _ _ _ Hso) in Hg.
    exists w2. rewrite Hg. f_equal.
    assert (Hn : pledges_count (User.id u) db1
                 = pledges_count (User.id u) (committed w)).
    { destruct Hso as (Hp & _).
      unfold pledges_count, pledges_find. now rewrite Hp. }
    rewrite Hn. destruct Hor as [Hz | [Hheld Hr]].
    + now rewrite Hz.
    + destruct (Nat.eqb (pledges_count (User.id u) (committed w)) 0);
        [reflexivity|].
      destruct (templatesHeld (committed w) (User.id u)) as [|pko pkos];
        [now contradiction Hheld|].
      destruct (Nat.eqb
                  (List.length (rewardsChain db1 (committed w) (User.id u)))
                  0) eqn:E; [reflexivity|].
      exfalso. apply Hr, (rewardsChain_reachable db1 (committed w) _ Hso).
      intros Hnil. rewrite Hnil in E. discriminate.
Qed.

(** Dave, whose pledge holds template B and no reward, submits the cart
    500 below its regular total and says why. *)
Lemma reduction_with_reason_passes_witness :
  templatesHeld Fixture.storeWithDave (User.id Fixture.dave)
  = [Fixture.tplB] /\
  noReason (PledgeInput.reason
              (Fixture.cart 3000 (Some "student") Fixture.daveInput))
  = false /\
  exists w2,
    reducedPledgeGuard Fixture.t (-500) (Some Fixture.dave)
      (snd (beforeGuard Fixture.t Fixture.asDave
              (Fixture.cart 3000 (Some "student") Fixture.daveInput)
              (begun Fixture.worldWithDave)))
    = (Val tt, w2).
Proof.
  split; [reflexivity|].
  refine (reduction_with_reason_passes Fixture.t Fixture.asDave
            (Fixture.cart 3000 (Some "student") Fixture.daveInput)
            Fixture.worldWithDave
            (mkSettled 10 (-500) (Some Fixture.dave) 900)
            (snd (beforeGuard Fixture.t Fixture.asDave
                    (Fixture.cart 3000 (Some "student") Fixture.daveInput)
                    (begun Fixture.worldWithDave)))
            Fixture.dave eq_refl _ eq_refl _ _).
  - vm_compute. reflexivity.
  - simpl. lia.
  - right. split; [vm_compute; discriminate | exact dave_no_reward].
Defined.
